(** * pull_ghost_posts.py: the paginated fetch-and-persist flow

    A shallow embedding of [GhostPostFetcher] (src/pull_ghost_posts.py) and
    the properties of its fetch loop and of its three writers.

    Python values are modelled as the script meets them: [str] is a sequence
    of Unicode code points, [int] is [Z], a [dict] is an association list in
    insertion order, and a raised exception is a value of [exn].  What the
    script obtains from outside (the HTTP endpoint, the wall clock, the file
    system, the standard output, the working directory, [repr] of
    containers) is a variable of the section that uses it.  The log lines
    are left out: the handlers of [logging] keep to themselves what goes
    wrong in them, so that a log line changes neither what is returned or
    raised nor what is written. *)

From Stdlib Require Import Ascii String.
From Stdlib Require Import List ZArith NArith Lia Bool.
Import ListNotations.

Local Open Scope Z_scope.

(* ================================================================== *)
(** * Python strings *)

Module PyStr.

(** A [str] is a sequence of code points; slicing, [strip] and the regular
    expressions of the script all count code points, not bytes. *)
Definition str := list N.

(** Decoding of the UTF-8 bytes of a literal, so that the literals of the
    script can be written as they are in the source. *)
Fixpoint utf8_decode (bs : list N) : str :=
  match bs with
  | [] => []
  | b :: rest =>
      if (b <? 128)%N then b :: utf8_decode rest
      else if (b <? 224)%N then
        match rest with
        | c1 :: rest' => ((b - 192) * 64 + (c1 - 128))%N :: utf8_decode rest'
        | _ => []
        end
      else if (b <? 240)%N then
        match rest with
        | c1 :: c2 :: rest' =>
            ((b - 224) * 4096 + (c1 - 128) * 64 + (c2 - 128))%N
              :: utf8_decode rest'
        | _ => []
        end
      else
        match rest with
        | c1 :: c2 :: c3 :: rest' =>
            ((b - 240) * 262144 + (c1 - 128) * 4096
             + (c2 - 128) * 64 + (c3 - 128))%N :: utf8_decode rest'
        | _ => []
        end
  end.

Definition u (s : string) : str :=
  utf8_decode (map N_of_ascii (list_ascii_of_string s)).

Definition chr (c : ascii) : N := N_of_ascii c.

(** [a == b]. *)
Fixpoint str_eqb (a b : str) : bool :=
  match a, b with
  | [], [] => true
  | x :: a', y :: b' => (x =? y)%N && str_eqb a' b'
  | _, _ => false
  end.

Definition len (s : str) : Z := Z.of_nat (length s).

(** The string that holds a line feed. *)
Definition nl : str := [10%N].

(** [s * n] for a string and a non-negative count. *)
Definition repeat_str (s : str) (n : nat) : str := concat (repeat s n).

(** [sep.join(parts)]. *)
Fixpoint join (sep : str) (parts : list str) : str :=
  match parts with
  | [] => []
  | [p] => p
  | p :: rest => p ++ sep ++ join sep rest
  end.

(** [s.startswith(p)], returning what follows the prefix. *)
Fixpoint strip_prefix (p s : str) : option str :=
  match p, s with
  | [], _ => Some s
  | a :: p', b :: s' => if (a =? b)%N then strip_prefix p' s' else None
  | _ :: _, [] => None
  end.

(** [needle in s]. *)
Fixpoint contains (needle s : str) : bool :=
  match strip_prefix needle s with
  | Some _ => true
  | None => match s with
            | [] => false
            | _ :: s' => contains needle s'
            end
  end.

(** The code points [str.strip()] removes: those for which
    [str.isspace] holds. *)
Definition isspace (c : N) : bool :=
  ((9 <=? c) && (c <=? 13) || (28 <=? c) && (c <=? 32)
   || (c =? 133) || (c =? 160) || (c =? 5760)
   || (8192 <=? c) && (c <=? 8202) || (c =? 8232) || (c =? 8233)
   || (c =? 8239) || (c =? 8287) || (c =? 12288))%N.

Fixpoint lstrip (s : str) : str :=
  match s with
  | [] => []
  | c :: s' => if isspace c then lstrip s' else s
  end.

Definition rstrip (s : str) : str := rev (lstrip (rev s)).

Definition strip (s : str) : str := rstrip (lstrip s).

(** [s.rstrip('/')]. *)
Fixpoint lstrip_char (ch : N) (s : str) : str :=
  match s with
  | [] => []
  | c :: s' => if (c =? ch)%N then lstrip_char ch s' else s
  end.

Definition rstrip_char (ch : N) (s : str) : str :=
  rev (lstrip_char ch (rev s)).

(** Decimal digits, most significant first. *)
Fixpoint uint_str (d : Decimal.uint) : str :=
  match d with
  | Decimal.Nil => []
  | Decimal.D0 d' => 48%N :: uint_str d'
  | Decimal.D1 d' => 49%N :: uint_str d'
  | Decimal.D2 d' => 50%N :: uint_str d'
  | Decimal.D3 d' => 51%N :: uint_str d'
  | Decimal.D4 d' => 52%N :: uint_str d'
  | Decimal.D5 d' => 53%N :: uint_str d'
  | Decimal.D6 d' => 54%N :: uint_str d'
  | Decimal.D7 d' => 55%N :: uint_str d'
  | Decimal.D8 d' => 56%N :: uint_str d'
  | Decimal.D9 d' => 57%N :: uint_str d'
  end.

(** [str(n)] for an [int]. *)
Definition int_str (n : Z) : str :=
  match n with
  | Z0 => [48%N]
  | Zpos p => uint_str (Pos.to_uint p)
  | Zneg p => 45%N :: uint_str (Pos.to_uint p)
  end.

(** One decimal digit. *)
Definition digit (n : Z) : N := (48 + Z.to_N (n mod 10))%N.

(** [%02d] and [%04d]. *)
Definition pad2 (n : Z) : str := [digit (n / 10); digit n].
Definition pad4 (n : Z) : str :=
  [digit (n / 1000); digit (n / 100); digit (n / 10); digit n].
Definition pad6 (n : Z) : str :=
  [digit (n / 100000); digit (n / 10000); digit (n / 1000);
   digit (n / 100); digit (n / 10); digit n].

End PyStr.
Import PyStr.

(* ================================================================== *)
(** * The regular expressions of the script *)

Module Re.

(** The fragment of [re] syntax the script uses.  Repetition is over a
    single character class, as in [[^>]*], [.*?], [[^>]+] and [\n+]; there
    is one capturing group, referred to as [\1]. *)
Inductive regex : Type :=
| Chars (s : str)                  (* a literal *)
| Class (cls : N -> bool)          (* one character of a class *)
| Alt (r1 r2 : regex)              (* r1|r2 *)
| Cat (r1 r2 : regex)              (* r1r2 *)
| Group1 (r : regex)               (* (r), group 1 *)
| Backref1                         (* \1 *)
| Star (cls : N -> bool)           (* cls*, greedy *)
| Plus (cls : N -> bool)           (* cls+, greedy *)
| LazyStar (cls : N -> bool).      (* cls*?, non-greedy *)

(** Backtracking matcher in continuation-passing style: [k] receives the
    text of group 1 and the unread input, and the first alternative that lets
    [k] succeed wins, which is the order in which [re] explores them. *)
Fixpoint rmatch (r : regex) (g : option str) (s : str)
    (k : option str -> str -> option str) {struct r} : option str :=
  match r with
  | Chars lit =>
      match strip_prefix lit s with
      | Some rest => k g rest
      | None => None
      end
  | Class cls =>
      match s with
      | c :: s' => if cls c then k g s' else None
      | [] => None
      end
  | Alt r1 r2 =>
      match rmatch r1 g s k with
      | Some out => Some out
      | None => rmatch r2 g s k
      end
  | Cat r1 r2 => rmatch r1 g s (fun g' s' => rmatch r2 g' s' k)
  | Group1 r1 =>
      rmatch r1 g s
        (fun _ s' => k (Some (firstn (length s - length s') s)) s')
  | Backref1 =>
      match g with
      | Some t =>
          match strip_prefix t s with
          | Some rest => k g rest
          | None => None
          end
      | None => None
      end
  | Star cls =>
      (fix star (s : str) : option str :=
         match s with
         | c :: s' =>
             if cls c then
               match star s' with
               | Some out => Some out
               | None => k g s
               end
             else k g s
         | [] => k g s
         end) s
  | Plus cls =>
      match s with
      | c :: s0 =>
          if cls c then
            (fix star (s : str) : option str :=
               match s with
               | c :: s' =>
                   if cls c then
                     match star s' with
                     | Some out => Some out
                     | None => k g s
                     end
                   else k g s
               | [] => k g s
               end) s0
          else None
      | [] => None
      end
  | LazyStar cls =>
      (fix lazy (s : str) : option str :=
         match k g s with
         | Some out => Some out
         | None =>
             match s with
             | c :: s' => if cls c then lazy s' else None
             | [] => None
             end
         end) s
  end.

(** [pattern.match(s)]: the input left after the match, if there is one. *)
Definition match_at (r : regex) (s : str) : option str :=
  rmatch r None s (fun _ rest => Some rest).

(** [re.sub(pattern, repl, s)] for a replacement without group references:
    leftmost matches, not overlapping, scanned from left to right.  The
    fuel is the number of positions of [s], each round consuming one at
    least.  (After an empty match [re] looks for a non-empty one at the same
    position; no pattern of the script matches the empty string.) *)
Fixpoint sub_loop (fuel : nat) (r : regex) (repl s : str) : str :=
  match fuel with
  | O => s
  | S fuel' =>
      match match_at r s with
      | Some rest =>
          if (length rest <? length s)%nat
          then repl ++ sub_loop fuel' r repl rest
          else match s with
               | [] => repl
               | c :: s' => repl ++ c :: sub_loop fuel' r repl s'
               end
      | None =>
          match s with
          | [] => []
          | c :: s' => c :: sub_loop fuel' r repl s'
          end
      end
  end.

Definition sub (r : regex) (repl s : str) : str :=
  sub_loop (S (length s)) r repl s.

Definition any_char (_ : N) : bool := true.
Definition not_gt (c : N) : bool := negb (c =? chr ">")%N.
Definition newline (c : N) : bool := (c =? 10)%N.

(** [r'<(script|style)[^>]*>.*?</\1>'] with [re.DOTALL]. *)
Definition script_style_block : regex :=
  Cat (Chars (u "<"))
   (Cat (Group1 (Alt (Chars (u "script")) (Chars (u "style"))))
    (Cat (Star not_gt)
     (Cat (Chars (u ">"))
      (Cat (LazyStar any_char)
       (Cat (Chars (u "</")) (Cat Backref1 (Chars (u ">")))))))).

(** [r'<[^>]+>']. *)
Definition any_tag : regex :=
  Cat (Chars (u "<")) (Cat (Plus not_gt) (Chars (u ">"))).

(** [r'\n+']. *)
Definition newlines : regex := Plus newline.

(** The character class of the file-name pattern: the less-than and
    greater-than signs, colon, double quote, slash, backslash, vertical bar,
    question mark and asterisk. *)
Definition illegal_char (c : N) : bool :=
  existsb (N.eqb c) [60; 62; 58; 34; 47; 92; 124; 63; 42]%N.

Definition illegal_in_filename : regex := Class illegal_char.

End Re.

Import Re.

(* ================================================================== *)
(** * Python values and exceptions *)

(** What [response.json()] yields and what the writers read: JSON data. *)
#[local] Set Warnings "-register-all".
Inductive value : Type :=
| VNone
| VBool (b : bool)
| VInt (n : Z)
| VStr (s : str)
| VList (items : list value)
| VDict (items : list (str * value)).

Definition dict := list (str * value).

(** A post record, as deserialised from a page of the API. *)
Definition post := dict.

Inductive RequestException : Type :=
| Timeout
| ConnectionError
| HTTPError (status : Z).

Inductive exn : Type :=
| KeyError (key : str)
| TypeError
| ValueError
| UnicodeEncodeError
| OSError
| RequestError (e : RequestException).

(** A computation without side effects that may raise. *)
Inductive result (A : Type) : Type :=
| Ok (a : A)
| Error (e : exn).
Arguments Ok {A} a.
Arguments Error {A} e.

Definition rbind {A B} (r : result A) (f : A -> result B) : result B :=
  match r with
  | Ok a => f a
  | Error e => Error e
  end.

Declare Scope result_scope.
Delimit Scope result_scope with result.
Notation "x <- r ;; k" := (rbind r (fun x => k))
  (at level 61, r at next level, right associativity) : result_scope.

Fixpoint dict_get (d : dict) (k : str) : option value :=
  match d with
  | [] => None
  | (k', v) :: d' => if str_eqb k' k then Some v else dict_get d' k
  end.

(** [d.get(k, default)]; [d.get(k)] is [get d k VNone]. *)
Definition get (d : dict) (k : str) (default : value) : value :=
  match dict_get d k with
  | Some v => v
  | None => default
  end.

(** [d[k] = v]: the value of an existing key is replaced in place, a new key
    goes to the end. *)
Fixpoint dict_set (d : dict) (k : str) (v : value) : dict :=
  match d with
  | [] => [(k, v)]
  | (k', v') :: d' =>
      if str_eqb k' k then (k, v) :: d' else (k', v') :: dict_set d' k v
  end.

(** Truth value of an object, as [if x:] and [not x] test it. *)
Definition truthy (v : value) : bool :=
  match v with
  | VNone => false
  | VBool b => b
  | VInt n => negb (n =? 0)
  | VStr s => negb (Nat.eqb (length s) 0)
  | VList l => negb (Nat.eqb (length l) 0)
  | VDict d => negb (Nat.eqb (length d) 0)
  end.

(** [v[key]] for a string key. *)
Definition subscript (v : value) (key : str) : result value :=
  match v with
  | VDict d =>
      match dict_get d key with
      | Some x => Ok x
      | None => Error (KeyError key)
      end
  | _ => Error TypeError
  end.

(** The items a [for] loop over [v] visits: the elements of a list, the
    characters of a string, the keys of a dict; other values are not
    iterable. *)
Definition iterate (v : value) : result (list value) :=
  match v with
  | VList l => Ok l
  | VStr s => Ok (map (fun c => VStr [c]) s)
  | VDict d => Ok (map (fun kv => VStr (fst kv)) d)
  | _ => Error TypeError
  end.

(** [[x['name'] for x in items]]. *)
Fixpoint names_of (items : list value) : result (list value) :=
  match items with
  | [] => Ok []
  | x :: rest =>
      (n <- subscript x (u "name") ;;
       ns <- names_of rest ;;
       Ok (n :: ns))%result
  end.

Definition names (v : value) : result (list value) :=
  (items <- iterate v ;; names_of items)%result.

(** The items of [sep.join(items)], each of which has to be a [str]. *)
Fixpoint all_str (items : list value) : result (list str) :=
  match items with
  | [] => Ok []
  | VStr s :: rest => (ss <- all_str rest ;; Ok (s :: ss))%result
  | _ :: _ => Error TypeError
  end.

Definition str_join (sep : str) (items : list value) : result str :=
  (ss <- all_str items ;; Ok (join sep ss))%result.

(** [re.sub(pattern, repl, v)], which wants a [str]. *)
Definition re_sub (r : regex) (repl : str) (v : value) : result str :=
  match v with
  | VStr s => Ok (Re.sub r repl s)
  | _ => Error TypeError
  end.

(* ================================================================== *)
(** * The world outside the script *)

(** [datetime.now()]: a local date and time. *)
Record datetime : Type := {
  year : Z; month : Z; day : Z;
  hour : Z; minute : Z; second : Z; microsecond : Z
}.

(** The ranges the fields of a [datetime] have; for [year], those in which
    [%Y] has four digits. *)
Definition valid_datetime (d : datetime) : Prop :=
  1000 <= year d <= 9999 /\ 1 <= month d <= 12 /\ 1 <= day d <= 31 /\
  0 <= hour d <= 23 /\ 0 <= minute d <= 59 /\ 0 <= second d <= 59 /\
  0 <= microsecond d <= 999999.

(** [d.strftime('%Y%m%d_%H%M%S')]. *)
Definition strftime (d : datetime) : str :=
  pad4 (year d) ++ pad2 (month d) ++ pad2 (day d) ++ u "_"
  ++ pad2 (hour d) ++ pad2 (minute d) ++ pad2 (second d).

(** [d.isoformat()]. *)
Definition isoformat (d : datetime) : str :=
  pad4 (year d) ++ u "-" ++ pad2 (month d) ++ u "-" ++ pad2 (day d)
  ++ u "T" ++ pad2 (hour d) ++ u ":" ++ pad2 (minute d) ++ u ":"
  ++ pad2 (second d)
  ++ (if microsecond d =? 0 then [] else u "." ++ pad6 (microsecond d)).

(** A [pathlib.Path], kept as the script builds it: from a string, or from a
    directory and a name with [/]. *)
Inductive path : Type :=
| Path (s : str)
| Div (dir : path) (name : str).

Declare Scope path_scope.
Delimit Scope path_scope with path.
Notation "p // name" := (Div p name) (at level 40, left associativity)
  : path_scope.

(** [os.fspath(p)], up to the separators and dots that [pathlib] drops: a
    name that starts at the root replaces the directory it is joined to. *)
Fixpoint fspath (p : path) : str :=
  match p with
  | Path s => s
  | Div dir name =>
      match name with
      | c :: _ =>
          if (c =? chr "/")%N then name else fspath dir ++ u "/" ++ name
      | [] => fspath dir ++ u "/" ++ name
      end
  end.

(** What is written to a file: an object through [json.dump], or text. *)
Inductive content : Type :=
| JsonDump (v : value)
| Text (s : str).

(** The code points of the surrogate range, which stand for no character
    on their own. *)
Definition surrogate (c : N) : bool := ((55296 <=? c) && (c <=? 57343))%N.

(** [s.encode('utf-8')] succeeds: the codec refuses every surrogate. *)
Definition utf8_encodable (s : str) : bool :=
  forallb (fun c => negb (surrogate c)) s.

(** [os.fsencode(s)] succeeds.  The encoding of file names is taken to be
    UTF-8 with the [surrogateescape] handler, as it is on Linux and macOS:
    the surrogates from U+DC80 to U+DCFF stand for the bytes they escape,
    the other ones are refused. *)
Definition fs_encodable (s : str) : bool :=
  forallb (fun c => negb (surrogate c) || (56448 <=? c) && (c <=? 56575))%N
    s.

(** [json.dump(v, f, ensure_ascii=False)] writes the characters of every
    string of [v], key or value, as they are, but for the quotes, the
    backslash and the controls, which it escapes: the text of the dump can
    be encoded when each of these strings can. *)
Fixpoint dumpable (v : value) : bool :=
  match v with
  | VStr s => utf8_encodable s
  | VList items => forallb dumpable items
  | VDict items =>
      forallb (fun kv => match kv with
                         | (k, x) => utf8_encodable k && dumpable x
                         end) items
  | _ => true
  end.

(** The text of a file can be encoded as UTF-8. *)
Definition encodable (c : content) : bool :=
  match c with
  | JsonDump v => dumpable v
  | Text s => utf8_encodable s
  end.

(** The three kinds of artifact, named by the method that writes them. *)
Inductive artifact : Type :=
| JsonFile      (* save_as_json *)
| TxtFile       (* save_as_txt *)
| IndexFile.    (* save_index *)

Definition artifact_eqb (a b : artifact) : bool :=
  match a, b with
  | JsonFile, JsonFile | TxtFile, TxtFile | IndexFile, IndexFile => true
  | _, _ => false
  end.

(** What the script does to the world, in the order in which it does it. *)
Inductive event : Type :=
| Request (page limit : Z)                     (* a page request is sent *)
| Mkdir (p : path)                             (* a directory is ensured *)
| Wrote (a : artifact) (p : path) (c : content)   (* a file is written *)
| Truncated (a : artifact) (p : path)  (* a file is opened for writing, which
                                          empties it, and the write raises:
                                          it is left with a part of its
                                          content at most *)
| Printed (line : str).                (* a line goes to the standard output *)

(** The answer to a page request: [session.get] or [raise_for_status]
    raises, or the body is parsed and may hold [posts]. *)
Inductive response : Type :=
| Failure (e : RequestException)
| Body (posts : option (list post)).

(** * The monad of the script

    A computation starts with the number of clock readings made so far and
    yields an outcome, the events it caused and the new number of
    readings.  [OutOfFuel] stands for a [while True] loop that has not left
    yet. *)
Inductive outcome (A : Type) : Type :=
| Returns (a : A)
| Raises (e : exn)
| OutOfFuel.
Arguments Returns {A} a.
Arguments Raises {A} e.
Arguments OutOfFuel {A}.

Definition M (A : Type) : Type := nat -> outcome A * list event * nat.

Definition ret {A} (a : A) : M A := fun t => (Returns a, [], t).

Definition raise {A} (e : exn) : M A := fun t => (Raises e, [], t).

Definition out_of_fuel {A} : M A := fun t => (OutOfFuel, [], t).

Definition bind {A B} (m : M A) (f : A -> M B) : M B :=
  fun t =>
    match m t with
    | (Returns a, evs, t') =>
        match f a t' with
        | (o, evs', t'') => (o, evs ++ evs', t'')
        end
    | (Raises e, evs, t') => (Raises e, evs, t')
    | (OutOfFuel, evs, t') => (OutOfFuel, evs, t')
    end.

Definition emit (e : event) : M unit := fun t => (Returns tt, [e], t).

Definition lift {A} (r : result A) : M A :=
  match r with
  | Ok a => ret a
  | Error e => raise e
  end.

Declare Scope monad_scope.
Delimit Scope monad_scope with monad.
Notation "x <- m ;; k" := (bind m (fun x => k))
  (at level 61, m at next level, right associativity) : monad_scope.
Notation "m ;; k" := (bind m (fun _ => k))
  (at level 61, right associativity) : monad_scope.

(** The outcome and the events of a run that starts at the first clock
    reading. *)
Definition outcome_of {A} (m : M A) : outcome A := fst (fst (m O)).
Definition events_of {A} (m : M A) : list event := snd (fst (m O)).

(** The page requests among some events, and the files written. *)
Definition requests (evs : list event) : list (Z * Z) :=
  flat_map (fun e => match e with
                     | Request p l => [(p, l)]
                     | _ => []
                     end) evs.

Definition written (evs : list event) : list (artifact * path * content) :=
  flat_map (fun e => match e with
                     | Wrote a p c => [(a, p, c)]
                     | _ => []
                     end) evs.

(** The kinds of the files written, in order, and whether a file of the
    kind [a] is among them. *)
Definition kinds (evs : list event) : list artifact :=
  map (fun w => fst (fst w)) (written evs).

Definition writes (a : artifact) (evs : list event) : bool :=
  existsb (artifact_eqb a) (kinds evs).

(* ================================================================== *)
(** * class GhostPostFetcher *)

Record GhostPostFetcher : Type := {
  api_key : str;
  ghost_url : str;
  base_url : str
}.

(** [__init__]. *)
Definition init (key url : str) : GhostPostFetcher :=
  {| api_key := key;
     ghost_url := rstrip_char (chr "/") url;
     base_url := url ++ u "/ghost/api/content" |}.

(** [limit or 100] and [if limit:] take [None] and [0] alike: [set_limit]
    is the limit when it counts as one. *)
Definition set_limit (limit : option Z) : option Z :=
  match limit with
  | Some l => if l =? 0 then None else Some l
  | None => None
  end.

(** [strip_html_tags]. *)
Definition strip_html_tags (html_content : value) : result str :=
  if negb (truthy html_content) then Ok []
  else
    (html_content <- re_sub script_style_block [] html_content ;;
     let html_content := Re.sub any_tag nl html_content in
     let html_content := Re.sub newlines nl html_content in
     Ok (strip html_content))%result.

Section Methods.

(** The endpoint: the answer to the request for [page] with [limit] posts
    a page.  A request is identified by its page number, which the loop
    never repeats, so any sequence of answers is such a function. *)
Variable http_get : Z -> Z -> response.

(** The wall clock: the n-th reading of [datetime.now()]. *)
Variable clock : nat -> datetime.

(** The file system: whether creating the directory or opening the file at
    a path raises [OSError]. *)
Variable os_fails : path -> bool.

(** [repr] of a list or a dict, which [format] shows for such a value. *)
Variable repr : value -> str.

(** The standard output: what [print] of a line raises, if it does:
    [UnicodeEncodeError] when the encoding of the stream lacks a character
    of the line, [OSError] when the stream is broken. *)
Variable stdout : str -> option exn.

(** [os.path.abspath], which asks for the working directory when the path
    is a relative one, and raises when there is none. *)
Variable abspath : path -> result str.

Variable self : GhostPostFetcher.

Local Open Scope monad_scope.

(** [self.session.get(...)], [raise_for_status()], [json()] and
    [data.get('posts', [])]. *)
Definition session_get (page limit : Z) : M (list post) :=
  emit (Request page limit) ;;
  match http_get page limit with
  | Failure e => raise (RequestError e)
  | Body (Some posts) => ret posts
  | Body None => ret []
  end.

(** [datetime.now()]. *)
Definition now : M datetime := fun t => (Returns (clock t), [], S t).

(** What a call of the operating system on the path [p] raises, if it
    does: [UnicodeEncodeError] when the name cannot be encoded, else
    [ValueError] when it holds a null character, else [OSError] when the
    file system refuses. *)
Definition path_error (p : path) : option exn :=
  if negb (fs_encodable (fspath p)) then Some UnicodeEncodeError
  else if existsb (N.eqb 0) (fspath p) then Some ValueError
  else if os_fails p then Some OSError
  else None.

(** [Path.mkdir(..., exist_ok=True)]. *)
Definition mkdir (p : path) : M unit :=
  match path_error p with
  | Some e => raise e
  | None => emit (Mkdir p)
  end.

(** [with open(p, 'w', encoding='utf-8') as f:] and the write in it.  Once
    the file is open, the write raises [UnicodeEncodeError] when the text
    cannot be encoded, and the file stays behind, without the text or with
    the part of the dump that precedes the string at fault. *)
Definition write_file (a : artifact) (p : path) (c : content) : M unit :=
  match path_error p with
  | Some e => raise e
  | None =>
      if encodable c then emit (Wrote a p c)
      else emit (Truncated a p) ;; raise UnicodeEncodeError
  end.

(** [print(line)]. *)
Definition print (line : str) : M unit :=
  match stdout line with
  | Some e => raise e
  | None => emit (Printed line)
  end.

(** The body of [while True:] in [fetch_all_posts], once for each unit of
    fuel. *)
Fixpoint fetch_loop (fuel : nat) (limit : option Z) (per_page : Z)
    (page : Z) (all_posts : list post) : M (list post) :=
  match fuel with
  | O => out_of_fuel
  | S fuel' =>
      let params_limit :=
        match set_limit limit with
        | Some l =>
            let remaining := l - Z.of_nat (length all_posts) in
            Z.min remaining per_page
        | None => per_page
        end in
      posts <- session_get page params_limit ;;
      if Nat.eqb (length posts) 0 then ret all_posts
      else
        let all_posts := all_posts ++ posts in
        if Z.of_nat (length posts) <? per_page then ret all_posts
        else
          let page := page + 1 in
          match set_limit limit with
          | Some l =>
              if Z.of_nat (length all_posts) >=? l then ret all_posts
              else fetch_loop fuel' limit per_page page all_posts
          | None => fetch_loop fuel' limit per_page page all_posts
          end
  end.

(** [fetch_all_posts]. *)
Definition fetch_all_posts (fuel : nat) (limit : option Z) : M (list post) :=
  let all_posts := [] in
  let page := 1 in
  let per_page :=
    Z.min (match set_limit limit with Some l => l | None => 100 end) 100 in
  fetch_loop fuel limit per_page page all_posts.

(** [save_as_json]. *)
Definition save_as_json (posts : list post) (output_dir : path) : M path :=
  let output_path := output_dir in
  mkdir output_path ;;
  t <- now ;;
  let timestamp := strftime t in
  let json_file :=
    (output_path // (u "ghost_posts_" ++ timestamp ++ u ".json"))%path in
  t' <- now ;;
  let output_data :=
    VDict [(u "metadata",
            VDict [(u "fetched_at", VStr (isoformat t'));
                   (u "total_posts", VInt (Z.of_nat (length posts)));
                   (u "source", VStr (ghost_url self))]);
           (u "posts", VList (map VDict posts))] in
  write_file JsonFile json_file (JsonDump output_data) ;;
  ret json_file.

(** [str(v)], as an f-string shows a value. *)
Definition py_str (v : value) : str :=
  match v with
  | VNone => u "None"
  | VBool true => u "True"
  | VBool false => u "False"
  | VInt n => int_str n
  | VStr s => s
  | _ => repr v
  end.

Definition rule : str := repeat_str (u "=") 80.

(** The body of the loop of [save_as_txt] up to the write: the path and
    the text of the file of one post. *)
Definition txt_file (output_path : path) (post : post)
    : result (path * str) :=
  (let title := get post (u "title") (VStr (u "untitled")) in
   let slug :=
     get post (u "slug")
       (VStr (u "post-" ++ py_str (get post (u "id") (VStr (u "unknown")))))
   in
   safe_title <- re_sub illegal_in_filename (u "_") title ;;
   let safe_filename :=
     py_str slug ++ u "_" ++ firstn 50 safe_title ++ u ".txt" in
   let file_path := (output_path // safe_filename)%path in
   let html_content := get post (u "html") (VStr []) in
   text_content <- strip_html_tags html_content ;;
   tags <- names (get post (u "tags") (VList [])) ;;
   tags <- str_join (u ", ") tags ;;
   authors <- names (get post (u "authors") (VList [])) ;;
   authors <- str_join (u ", ") authors ;;
   let txt_content :=
     rule ++ nl
     ++ py_str title ++ nl
     ++ rule ++ nl
     ++ nl
     ++ u "摘要: "
     ++ py_str (get post (u "excerpt") (VStr (u "无摘要"))) ++ nl
     ++ nl
     ++ u "发布日期: "
     ++ py_str (get post (u "published_at") (VStr [])) ++ nl
     ++ nl
     ++ u "阅读时间: " ++ py_str (get post (u "reading_time") (VInt 0))
     ++ u " 分钟" ++ nl
     ++ nl
     ++ u "标签: " ++ tags ++ nl
     ++ nl
     ++ u "作者: " ++ authors ++ nl
     ++ nl
     ++ rule ++ nl
     ++ u "文章内容" ++ nl
     ++ rule ++ nl
     ++ nl
     ++ text_content ++ nl in
   Ok (file_path, txt_content))%result.

(** The loop of [save_as_txt]. *)
Fixpoint save_as_txt_loop (output_path : path) (posts : list post)
    (saved_files : list path) : M (list path) :=
  match posts with
  | [] => ret saved_files
  | post :: rest =>
      f <- lift (txt_file output_path post) ;;
      write_file TxtFile (fst f) (Text (snd f)) ;;
      save_as_txt_loop output_path rest (saved_files ++ [fst f])
  end.

(** [save_as_txt]. *)
Definition save_as_txt (posts : list post) (output_dir : path)
    : M (list path) :=
  let output_path := output_dir in
  mkdir output_path ;;
  save_as_txt_loop output_path posts [].

(** The entry of one post in the index. *)
Definition index_entry (post : post) : result value :=
  (tags <- names (get post (u "tags") (VList [])) ;;
   Ok (VDict [(u "id", get post (u "id") VNone);
              (u "slug", get post (u "slug") VNone);
              (u "title", get post (u "title") VNone);
              (u "excerpt", get post (u "excerpt") VNone);
              (u "published_at", get post (u "published_at") VNone);
              (u "reading_time", get post (u "reading_time") VNone);
              (u "tags", VList tags);
              (u "url", get post (u "url") VNone)]))%result.

(** The loop of [save_index]. *)
Fixpoint index_loop (posts : list post) (index : list value)
    : result (list value) :=
  match posts with
  | [] => Ok index
  | post :: rest =>
      (entry <- index_entry post ;; index_loop rest (index ++ [entry]))%result
  end.

(** [save_index]. *)
Definition save_index (posts : list post) (output_dir : path) : M path :=
  let output_path := output_dir in
  let index_file := (output_path // u "index.json")%path in
  index <- lift (index_loop posts []) ;;
  write_file IndexFile index_file (JsonDump (VList index)) ;;
  ret index_file.

(** The summary that ends [fetch_and_save]. *)
Definition print_summary (output_dir : path) (posts : list post)
    (json_files txt_files : list path) : M unit :=
  print (nl ++ repeat_str (u "=") 60) ;;
  print (u "✓ 拉取完成!") ;;
  print (u "✓ 总文章数: " ++ int_str (Z.of_nat (length posts))) ;;
  (if negb (Nat.eqb (length json_files) 0)
   then print (u "✓ JSON文件: " ++ int_str (Z.of_nat (length json_files)))
   else ret tt) ;;
  (if negb (Nat.eqb (length txt_files) 0)
   then print (u "✓ TXT文件: " ++ int_str (Z.of_nat (length txt_files)))
   else ret tt) ;;
  output_abs <- lift (abspath output_dir) ;;
  print (u "✓ 输出目录: " ++ output_abs) ;;
  print (repeat_str (u "=") 60 ++ nl).

(** [fetch_and_save]; the handler of its [try] logs and raises again. *)
Definition fetch_and_save (fuel : nat) (output_dir : path)
    (save_json save_txt : bool) (limit : option Z) : M unit :=
  mkdir output_dir ;;
  posts <- fetch_all_posts fuel limit ;;
  if Nat.eqb (length posts) 0 then ret tt
  else
    json_files <-
      (if save_json then
         json_file <- save_as_json posts output_dir ;;
         save_index posts output_dir ;;
         ret [json_file]
       else ret []) ;;
    txt_files <-
      (if save_txt then
         let txt_dir := (output_dir // u "txt")%path in
         save_as_txt posts txt_dir
       else ret []) ;;
    print_summary output_dir posts json_files txt_files.

End Methods.

(** * The upstream source

    Ghost's Content API over a collection [db] of published posts: page
    [page] of size [limit] holds the posts from offset [(page - 1) * limit]
    on; a page number or a limit that is not positive is refused with
    status 422. *)
Definition ghost_api (db : list post) (page limit : Z) : response :=
  if (page <=? 0) || (limit <=? 0) then Failure (HTTPError 422)
  else
    Body (Some (firstn (Z.to_nat limit)
                  (skipn (Z.to_nat ((page - 1) * limit)) db))).

(* ================================================================== *)
(** * Vocabulary of the statements *)

(** A pattern that starts with a character, as each pattern of the script
    does. *)
Definition starts_with_char (r : regex) : Prop :=
  match r with
  | Cat (Chars (_ :: _)) _ | Class _ | Plus _ => True
  | _ => False
  end.

(** The posts a page holds, when the request for it succeeds. *)
Definition posts_of (r : response) : option (list post) :=
  match r with
  | Failure _ => None
  | Body (Some posts) => Some posts
  | Body None => Some []
  end.

(** The page size that [fetch_all_posts] asks for when it holds [n] posts:
    [params['limit']]. *)
Definition requested (limit : option Z) (per_page : Z) (n : nat) : Z :=
  match set_limit limit with
  | Some l => Z.min (l - Z.of_nat n) per_page
  | None => per_page
  end.

(** Whether the running total [n] has reached the limit. *)
Definition reached (limit : option Z) (n : nat) : bool :=
  match set_limit limit with
  | Some l => Z.of_nat n >=? l
  | None => false
  end.

(** Two posts to run the definitions on. *)
Definition demo_post : post :=
  [(u "id", VStr (u "1")); (u "slug", VStr (u "hello"));
   (u "title", VStr (u "Hello")); (u "html", VStr (u "<p>Hi</p>"))].

Definition bare_post : post := [(u "id", VStr (u "2"))].

(** [n] posts that differ in their ids. *)
Definition numbered_posts (n : nat) : list post :=
  map (fun i => [(u "id", VInt (Z.of_nat i))]) (seq 1 n).

(** An endpoint that serves [db] and times out on the page [bad]. *)
Definition flaky_api (db : list post) (bad : Z) (page limit : Z) : response :=
  if page =? bad then Failure Timeout else ghost_api db page limit.

(** A world to run the writers in: a file system that never fails, a clock
    that advances by a microsecond at each reading, a fetcher. *)
Definition os_ok (_ : path) : bool := false.

Definition demo_clock (n : nat) : datetime :=
  {| year := 2026; month := 11; day := 4;
     hour := 6; minute := 5; second := 0; microsecond := Z.of_nat n |}.

(** A clock that advances by a second at each reading. *)
Definition slow_clock (n : nat) : datetime :=
  {| year := 2026; month := 11; day := 4;
     hour := 6; minute := 5; second := Z.of_nat n; microsecond := 0 |}.

Definition demo_repr (_ : value) : str := u "[...]".

Definition demo_self : GhostPostFetcher :=
  init (u "key") (u "https://blog.example/").

(** Two readings of the clock that [%Y%m%d_%H%M%S] cannot tell apart. *)
Definition same_second (d1 d2 : datetime) : Prop :=
  year d1 = year d2 /\ month d1 = month d2 /\ day d1 = day d2 /\
  hour d1 = hour d2 /\ minute d1 = minute d2 /\ second d1 = second d2.

(** The name [save_as_json] gives the dump when the clock reads [d]. *)
Definition json_name (d : datetime) : str :=
  u "ghost_posts_" ++ strftime d ++ u ".json".

(** Two invocations of [save_as_json], one after the other. *)
Definition two_dumps (clock : nat -> datetime) (os_fails : path -> bool)
    (self : GhostPostFetcher) (posts1 posts2 : list post)
    (output_dir : path) : M (path * path) :=
  (f1 <- save_as_json clock os_fails self posts1 output_dir ;;
   f2 <- save_as_json clock os_fails self posts2 output_dir ;;
   ret (f1, f2))%monad.

(** What is read for an absent field, were it an empty string, an empty
    sequence or zero by the kind of the field. *)
Definition empty_default (k : str) : value :=
  if str_eqb k (u "tags") || str_eqb k (u "authors") then VList []
  else if str_eqb k (u "reading_time") then VInt 0
  else VStr [].

(** What [save_as_txt] reads for an absent field. *)
Definition txt_default (repr : value -> str) (p : post) (k : str) : value :=
  if str_eqb k (u "title") then VStr (u "untitled")
  else if str_eqb k (u "slug") then
    VStr (u "post-" ++ py_str repr (get p (u "id") (VStr (u "unknown"))))
  else if str_eqb k (u "excerpt") then VStr (u "无摘要")
  else if str_eqb k (u "published_at") then VStr []
  else if str_eqb k (u "reading_time") then VInt 0
  else if str_eqb k (u "tags") || str_eqb k (u "authors") then VList []
  else if str_eqb k (u "html") then VStr []
  else if str_eqb k (u "id") then VStr (u "unknown")
  else VNone.

(** What [save_index] reads for an absent field: [None], which [json.dump]
    writes as [null], but for the tags. *)
Definition index_default (k : str) : value :=
  if str_eqb k (u "tags") then VList [] else VNone.

(** The shape of the fields the writers go through.  A mapping lacks its
    name when it has no key [name]; a tag list is a list of mappings whose
    names, where there are any, are strings. *)
Definition is_str (v : value) : bool :=
  match v with
  | VStr _ => true
  | _ => false
  end.

Definition is_dict (v : value) : bool :=
  match v with
  | VDict _ => true
  | _ => false
  end.

Definition nameless (v : value) : bool :=
  match v with
  | VDict d =>
      match dict_get d (u "name") with
      | None => true
      | Some _ => false
      end
  | _ => false
  end.

Definition named_by_str (v : value) : bool :=
  match v with
  | VDict d =>
      match dict_get d (u "name") with
      | None => true
      | Some n => is_str n
      end
  | _ => false
  end.

Definition lacks_name (v : value) : bool :=
  match v with
  | VList l => existsb nameless l
  | _ => false
  end.

Definition dict_list (v : value) : bool :=
  match v with
  | VList l => forallb is_dict l
  | _ => false
  end.

Definition tag_list (v : value) : bool :=
  match v with
  | VList l => forallb named_by_str l
  | _ => false
  end.

(** A post that [save_as_txt] can go through but for a missing name: the
    title is a string, the body is a string or nothing, tags and authors
    are tag lists. *)
Definition txt_ready (p : post) : bool :=
  is_str (get p (u "title") (VStr (u "untitled")))
  && (negb (truthy (get p (u "html") (VStr [])))
      || is_str (get p (u "html") (VStr [])))
  && tag_list (get p (u "tags") (VList []))
  && tag_list (get p (u "authors") (VList [])).

(** A post that [save_index] can go through but for a missing name. *)
Definition index_ready (p : post) : bool :=
  dict_list (get p (u "tags") (VList [])).

(** Some tag or author of the post lacks its name; some tag does. *)
Definition txt_missing (p : post) : bool :=
  lacks_name (get p (u "tags") (VList []))
  || lacks_name (get p (u "authors") (VList [])).

Definition index_missing (p : post) : bool :=
  lacks_name (get p (u "tags") (VList [])).

(** The posts before the first one with a missing name. *)
Fixpoint before_missing (posts : list post) : list post :=
  match posts with
  | [] => []
  | p :: rest => if txt_missing p then [] else p :: before_missing rest
  end.

(** A post whose author has no name, and one whose tag has none. *)
Definition anonymous_post : post :=
  [(u "id", VStr (u "3")); (u "title", VStr (u "Anonymous"));
   (u "tags", VList [VDict [(u "name", VStr (u "news"))]]);
   (u "authors", VList [VDict [(u "slug", VStr (u "ghost"))]])].

Definition untagged_post : post :=
  [(u "id", VStr (u "4")); (u "title", VStr (u "Untagged"));
   (u "tags", VList [VDict [(u "slug", VStr (u "misc"))]])].

(** The posts that the answered requests among some events brought, in
    the order of the requests. *)
Definition answers (http_get : Z -> Z -> response) (evs : list event)
    : list post :=
  flat_map (fun e => match e with
                     | Request p l =>
                         match posts_of (http_get p l) with
                         | Some posts => posts
                         | None => []
                         end
                     | _ => []
                     end) evs.

(** The number of pages that a limit [L] takes at most: [L] over the page
    size, rounded up. *)
Definition rounds (L : Z) : nat :=
  Z.to_nat ((L + Z.min L 100 - 1) / Z.min L 100).

(** What offset pagination gives for a limit [L]: the full pages of 100,
    then a last page of the remainder, taken from the offset that its own
    size gives it. *)
Definition limited_result (db : list post) (L : Z) : list post :=
  let k := L / 100 in
  let r := L mod 100 in
  firstn (Z.to_nat (100 * k)) db
  ++ firstn (Z.to_nat r) (skipn (Z.to_nat (k * r)) db).

(** An endpoint with a full page for every request. *)
Definition endless_api (_ _ : Z) : response :=
  Body (Some (repeat demo_post 100)).

(** An endpoint that sends one post more than it is asked for. *)
Definition generous_api (_ limit : Z) : response :=
  Body (Some (repeat demo_post (S (Z.to_nat limit)))).

(** [re.sub(r'[...]', '_', title)] read as a map over the title. *)
Definition sanitize (title : str) : str :=
  map (fun c => if illegal_char c then chr "_" else c) title.

(** Adjacent line feeds. *)
Fixpoint no_blank_run (s : str) : bool :=
  match s with
  | a :: (b :: _) as rest =>
      negb ((a =? 10)%N && (b =? 10)%N) && no_blank_run rest
  | _ => true
  end.

(** [main]: the key and the address are those of the source. *)
Definition main (http_get : Z -> Z -> response) (clock : nat -> datetime)
    (os_fails : path -> bool) (repr : value -> str)
    (stdout : str -> option exn) (abspath : path -> result str)
    (fuel : nat) : M unit :=
  let API_KEY := u "c390453bc88662d9ea17476ff8" in
  let GHOST_URL := u "https://ghostlatest-production-b1f0.up.railway.app" in
  let OUTPUT_DIR := Path (u "ghost_posts") in
  let LIMIT := None in
  let fetcher := init API_KEY GHOST_URL in
  fetch_and_save http_get clock os_fails repr stdout abspath fetcher fuel
    OUTPUT_DIR true true LIMIT.

(** What is left of a text after its first [>], if it has one. *)
Fixpoint after_gt (s : str) : option str :=
  match s with
  | [] => None
  | c :: s' => if (c =? chr ">")%N then Some s' else after_gt s'
  end.

Definition starts_gt (s : str) : bool :=
  match s with
  | c :: _ => (c =? chr ">")%N
  | [] => false
  end.

Definition has_gt (s : str) : bool := existsb (N.eqb (chr ">")) s.

(** No tag is left: every [<] is followed by [>] at once, or by no [>] at
    all. *)
Fixpoint no_tag (s : str) : bool :=
  match s with
  | [] => true
  | c :: rest =>
      (if (c =? chr "<")%N then starts_gt rest || negb (has_gt rest)
       else true)
      && no_tag rest
  end.

(** A string without a null character and without a surrogate: it can be
    encoded, as a text and as a file name.  A value, a post and a path are
    plain when all their strings are. *)
Definition plain_char (c : N) : bool := negb (c =? 0)%N && negb (surrogate c).

Definition plain (s : str) : bool := forallb plain_char s.

Fixpoint plain_value (v : value) : bool :=
  match v with
  | VStr s => plain s
  | VList items => forallb plain_value items
  | VDict items =>
      forallb (fun kv => match kv with
                         | (k, x) => plain k && plain_value x
                         end) items
  | _ => true
  end.

Definition plain_post (p : post) : bool := plain_value (VDict p).

Fixpoint plain_path (p : path) : bool :=
  match p with
  | Path s => plain s
  | Div dir name => plain_path dir && plain name
  end.

(** A post whose body holds a lone surrogate, and one whose title holds a
    null character. *)
Definition surrogate_post : post :=
  [(u "id", VStr (u "5")); (u "title", VStr (u "Broken"));
   (u "html", VStr [120; 55296; 121]%N)].

Definition null_post : post :=
  [(u "id", VStr (u "6")); (u "title", VStr [97; 0; 98]%N)].

(** A standard output that takes every line, one that takes ASCII only,
    and a working directory. *)
Definition stdout_ok (_ : str) : option exn := None.

Definition ascii_stdout (line : str) : option exn :=
  if forallb (fun c => (c <? 128)%N) line then None
  else Some UnicodeEncodeError.

Definition demo_abspath (p : path) : result str :=
  Ok (u "/home/blog/" ++ fspath p).

(* ================================================================== *)
(** * Properties *)

(** ** Strings *)

Lemma str_eqb_eq (a b : str) : str_eqb a b = true <-> a = b.
Proof.
  revert b. induction a as [|x a IH]; intros [|y b]; cbn;
    try (split; [discriminate|congruence]); [tauto|].
  rewrite andb_true_iff, N.eqb_eq, IH. split.
  - now intros [-> ->].
  - intros H. injection H as -> ->. auto.
Qed.

Lemma str_eqb_refl (a : str) : str_eqb a a = true.
Proof. now apply str_eqb_eq. Qed.

Lemma str_eqb_neq (a b : str) : str_eqb a b = false <-> a <> b.
Proof.
  rewrite <- str_eqb_eq. destruct (str_eqb a b); split; congruence.
Qed.

Lemma strip_prefix_spec (p s rest : str) :
  strip_prefix p s = Some rest <-> s = p ++ rest.
Proof.
  revert s. induction p as [|a p IH]; intros s; simpl.
  - split; congruence.
  - destruct s as [|b s]; [split; discriminate|].
    destruct (N.eqb_spec a b) as [->|Hab].
    + rewrite IH. split; congruence.
    + split; [discriminate|]. intros H. injection H as H _. congruence.
Qed.

(** [contains] decides whether the needle occurs in the string. *)
Lemma contains_spec (needle s : str) :
  contains needle s = true <-> exists a b, s = a ++ needle ++ b.
Proof.
  induction s as [|c s IH]; simpl.
  - destruct (strip_prefix needle []) as [rest|] eqn:E.
    + apply strip_prefix_spec in E. split; [|reflexivity].
      intros _. exists [], rest. exact E.
    + split; [discriminate|]. intros (a & b & H).
      destruct a; simpl in H.
      * apply strip_prefix_spec in H. congruence.
      * discriminate.
  - destruct (strip_prefix needle (c :: s)) as [rest|] eqn:E.
    + apply strip_prefix_spec in E. split; [|reflexivity].
      intros _. exists [], rest. exact E.
    + rewrite IH. split.
      * intros (a & b & ->). now exists (c :: a), b.
      * intros (a & b & H). destruct a as [|c' a]; simpl in H.
        -- apply strip_prefix_spec in H. congruence.
        -- injection H as _ ->. now exists a, b.
Qed.

(** ** The matcher *)

(** A match hands to its continuation some input that is left of what it
    was given. *)
Lemma star_suffix (cls : N -> bool) (g : option str)
    (k : option str -> str -> option str) (out : str) :
  forall s,
    rmatch (Star cls) g s k = Some out ->
    exists g' s', k g' s' = Some out /\ (length s' <= length s)%nat.
Proof.
  cbn [rmatch]. induction s as [|c s IHs].
  - intros H. exists g, []. auto.
  - destruct (cls c).
    + match goal with
      | |- match ?x with _ => _ end = _ -> _ => destruct x as [o|] eqn:E
      end.
      * intros H. injection H as ->.
        destruct (IHs eq_refl) as (g' & s' & H & Hl).
        exists g', s'. split; [exact H|cbn; lia].
      * intros H. exists g, (c :: s). auto.
    + intros H. exists g, (c :: s). auto.
Qed.

Lemma rmatch_suffix (r : regex) :
  forall g s k out,
    rmatch r g s k = Some out ->
    exists g' s', k g' s' = Some out /\ (length s' <= length s)%nat.
Proof.
  induction r as [lit|cls|r1 IH1 r2 IH2|r1 IH1 r2 IH2|r1 IH1| |cls|cls|cls];
    intros g s k out.
  - cbn [rmatch].
    destruct (strip_prefix lit s) as [rest|] eqn:E; [|discriminate].
    apply strip_prefix_spec in E. subst s. intros H.
    exists g, rest. split; [exact H|]. rewrite length_app. lia.
  - cbn [rmatch]. destruct s as [|c s]; [discriminate|].
    destruct (cls c); [|discriminate]. intros H.
    exists g, s. split; [exact H|]. cbn. lia.
  - cbn [rmatch]. destruct (rmatch r1 g s k) as [o|] eqn:E.
    + intros H. injection H as ->. now apply IH1 in E.
    + apply IH2.
  - cbn [rmatch]. intros H. apply IH1 in H as (g1 & s1 & H & Hl1).
    apply IH2 in H as (g2 & s2 & H & Hl2).
    exists g2, s2. split; [exact H|lia].
  - cbn [rmatch]. intros H. apply IH1 in H as (g1 & s1 & H & Hl1). eauto.
  - cbn [rmatch]. destruct g as [t|]; [|discriminate].
    destruct (strip_prefix t s) as [rest|] eqn:E; [|discriminate].
    apply strip_prefix_spec in E. subst s. intros H.
    exists (Some t), rest. split; [exact H|]. rewrite length_app. lia.
  - apply star_suffix.
  - cbn [rmatch]. destruct s as [|c0 s0]; [discriminate|].
    destruct (cls c0); [|discriminate]. intros H.
    change (rmatch (Star cls) g s0 k = Some out) in H.
    apply star_suffix in H as (g' & s' & Hk & Hl).
    exists g', s'. split; [exact Hk|cbn; lia].
  - cbn [rmatch]. induction s as [|c s IHs].
    + destruct (k g []) as [o|] eqn:E; [|discriminate].
      intros H. injection H as ->. exists g, []. auto.
    + destruct (k g (c :: s)) as [o|] eqn:E.
      * intros H. injection H as ->. exists g, (c :: s). auto.
      * destruct (cls c); [|discriminate]. intros H.
        destruct (IHs H) as (g' & s' & Hk & Hl).
        exists g', s'. split; [exact Hk|cbn; lia].
Qed.

(** A pattern that starts with a character matches no empty string: a
    round of [sub_loop] that finds a match moves on. *)
Lemma match_at_consumes (r : regex) (s rest : str) :
  starts_with_char r ->
  match_at r s = Some rest -> (length rest < length s)%nat.
Proof.
  unfold match_at.
  destruct r as [lit|cls|r1 r2|r1 r2|r1| |cls|cls|cls];
    cbn [starts_with_char]; try contradiction.
  - intros _. cbn [rmatch]. destruct s as [|c s]; [discriminate|].
    destruct (cls c); [|discriminate]. intros H. injection H as ->.
    cbn. lia.
  - destruct r1 as [[|c lit]| | | | | | | |]; try contradiction.
    intros _. cbn [rmatch].
    destruct (strip_prefix (c :: lit) s) as [rest1|] eqn:E; [|discriminate].
    apply strip_prefix_spec in E. subst s. intros H.
    apply rmatch_suffix in H as (g' & s' & H & Hl). injection H as ->.
    rewrite length_app. cbn. lia.
  - intros _. intros H.
    change (rmatch (Plus cls) None s (fun _ rest0 => Some rest0) = Some rest)
      in H.
    cbn [rmatch] in H. destruct s as [|c0 s0]; [discriminate|].
    destruct (cls c0); [|discriminate].
    change (rmatch (Star cls) None s0 (fun _ rest0 => Some rest0) = Some rest)
      in H.
    apply star_suffix in H as (g' & s' & H & Hl). injection H as ->.
    cbn. lia.
Qed.

Lemma patterns_start_with_char :
  starts_with_char script_style_block /\ starts_with_char any_tag /\
  starts_with_char newlines /\ starts_with_char illegal_in_filename.
Proof. repeat split. Qed.

(** ** C7: [strip_html_tags] on the example of the specification *)

(** C7. [strip_html_tags] applied to
    [<p>Hello<script>bad()</script> World</p>] returns the string
    [Hello World]: [Hello] and [World] occur in it, [bad()] does not, and it
    holds neither [<] nor [>]. *)
Theorem strip_html_tags_example :
  exists out,
    strip_html_tags (VStr (u "<p>Hello<script>bad()</script> World</p>"))
    = Ok out /\
    out = u "Hello World" /\
    (exists a b, out = a ++ u "Hello" ++ b) /\
    (exists a b, out = a ++ u "World" ++ b) /\
    ~ (exists a b, out = a ++ u "bad()" ++ b) /\
    ~ In (chr "<") out /\ ~ In (chr ">") out.
Proof.
  exists (u "Hello World").
  split; [vm_compute; reflexivity|].
  split; [reflexivity|].
  repeat split.
  - apply contains_spec. vm_compute. reflexivity.
  - apply contains_spec. vm_compute. reflexivity.
  - intros H. apply contains_spec in H. vm_compute in H. discriminate.
  - vm_compute. intros H. repeat (destruct H as [H|H]; [discriminate|]).
    exact H.
  - vm_compute. intros H. repeat (destruct H as [H|H]; [discriminate|]).
    exact H.
Qed.

(** ** The fetch loop *)

Section FetchLoop.

Variable http_get : Z -> Z -> response.

(** One round of the loop, by the answer to its request. *)
Lemma fetch_loop_step fuel limit per_page page all_posts t :
  fetch_loop http_get (S fuel) limit per_page page all_posts t =
  let lim := requested limit per_page (length all_posts) in
  match posts_of (http_get page lim) with
  | None =>
      match http_get page lim with
      | Failure e => (Raises (RequestError e), [Request page lim], t)
      | Body _ => (Returns all_posts, [Request page lim], t)
      end
  | Some posts =>
      if Nat.eqb (length posts) 0
      then (Returns all_posts, [Request page lim], t)
      else if Z.of_nat (length posts) <? per_page
      then (Returns (all_posts ++ posts), [Request page lim], t)
      else if reached limit (length (all_posts ++ posts))
      then (Returns (all_posts ++ posts), [Request page lim], t)
      else
        match fetch_loop http_get fuel limit per_page (page + 1)
                (all_posts ++ posts) t with
        | (o, evs, t') => (o, Request page lim :: evs, t')
        end
  end.
Proof.
  cbn [fetch_loop]. unfold requested, reached, session_get, bind, emit.
  cbn zeta.
  destruct (set_limit limit) as [l|];
    (destruct (http_get page _) as [e|[posts|]]; cbn;
     [reflexivity| |reflexivity]);
    destruct (Nat.eqb (length posts) 0); cbn; try reflexivity;
    destruct (Z.of_nat (length posts) <? per_page); cbn; try reflexivity.
  destruct (Z.of_nat (length (all_posts ++ posts)) >=? l); reflexivity.
Qed.

(** The loop does not read the clock: its outcome and its events are those
    of a run from the first reading. *)
Lemma fetch_loop_clock fuel limit per_page page all_posts t :
  fetch_loop http_get fuel limit per_page page all_posts t =
  (outcome_of (fetch_loop http_get fuel limit per_page page all_posts),
   events_of (fetch_loop http_get fuel limit per_page page all_posts), t).
Proof.
  revert page all_posts.
  induction fuel as [|fuel IH]; intros page all_posts; [reflexivity|].
  unfold outcome_of, events_of.
  rewrite !fetch_loop_step. cbn zeta.
  destruct (posts_of _) as [posts|].
  - destruct (Nat.eqb _ 0); [reflexivity|].
    destruct (_ <? _); [reflexivity|].
    destruct (reached _ _); [reflexivity|].
    rewrite (IH (page + 1) (all_posts ++ posts)).
    unfold outcome_of, events_of.
    destruct (fetch_loop _ _ _ _ _ _ O) as [[o evs] t']. reflexivity.
  - destruct (http_get _ _); reflexivity.
Qed.

Lemma requested_le limit per_page n : requested limit per_page n <= per_page.
Proof. unfold requested. destruct (set_limit limit); lia. Qed.

(** Where a request stands among the events of the loop: its page number is
    its position, no earlier request was for its page, and a short page or a
    failure is the last thing the loop asks for. *)
Lemma fetch_loop_request fuel limit per_page :
  forall page all_posts evs1 p l evs2,
    events_of (fetch_loop http_get fuel limit per_page page all_posts)
    = evs1 ++ Request p l :: evs2 ->
    p = page + Z.of_nat (length evs1) /\
    (forall e, In e evs1 -> exists p' l', e = Request p' l' /\ p' < p) /\
    (forall posts,
        posts_of (http_get p l) = Some posts ->
        Z.of_nat (length posts) < l ->
        evs2 = [] /\
        exists before,
          outcome_of (fetch_loop http_get fuel limit per_page page all_posts)
          = Returns (before ++ posts)) /\
    (forall e,
        http_get p l = Failure e ->
        evs2 = [] /\
        outcome_of (fetch_loop http_get fuel limit per_page page all_posts)
        = Raises (RequestError e)).
Proof.
  induction fuel as [|fuel IH]; intros page all_posts evs1 p l evs2.
  { cbn. intros H. destruct evs1; discriminate. }
  unfold outcome_of, events_of. rewrite fetch_loop_step. cbn zeta.
  pose proof (requested_le limit per_page (length all_posts)) as Hle.
  set (lim := requested limit per_page (length all_posts)) in *.
  assert (Hone : [Request page lim] = evs1 ++ Request p l :: evs2 ->
                 evs1 = [] /\ p = page /\ l = lim /\ evs2 = []).
  { intros H. destruct evs1 as [|e [|e' evs1]]; try discriminate.
    injection H as -> -> <-. auto. }
  destruct (posts_of (http_get page lim)) as [posts|] eqn:Hposts.
  - destruct (Nat.eqb (length posts) 0) eqn:Hnil;
      [|destruct (Z.of_nat (length posts) <? per_page) eqn:Hshort;
        [|destruct (reached limit (length (all_posts ++ posts))) eqn:Hlim]].
    + cbn [fst snd]. intros H.
      destruct (Hone H) as (-> & -> & -> & ->).
      apply Nat.eqb_eq in Hnil. destruct posts; [|discriminate].
      split; [cbn; lia|]. split; [intros ? []|]. split.
      * intros posts' H'. rewrite Hposts in H'. injection H' as <-.
        intros _. split; [reflexivity|]. exists all_posts.
        now rewrite app_nil_r.
      * intros e He. rewrite He in Hposts. discriminate.
    + cbn [fst snd]. intros H.
      destruct (Hone H) as (-> & -> & -> & ->).
      split; [cbn; lia|]. split; [intros ? []|]. split.
      * intros posts' H'. rewrite Hposts in H'. injection H' as <-.
        intros _. split; [reflexivity|]. now exists all_posts.
      * intros e He. rewrite He in Hposts. discriminate.
    + cbn [fst snd]. intros H.
      destruct (Hone H) as (-> & -> & -> & ->).
      apply Z.ltb_ge in Hshort.
      split; [cbn; lia|]. split; [intros ? []|]. split.
      * intros posts' H'. rewrite Hposts in H'. injection H' as <-. lia.
      * intros e He. rewrite He in Hposts. discriminate.
    + specialize (IH (page + 1) (all_posts ++ posts)).
      unfold outcome_of, events_of in IH.
      destruct (fetch_loop http_get fuel limit per_page (page + 1)
                  (all_posts ++ posts) O) as [[o evs] t'].
      cbn [fst snd] in *. intros H.
      apply Z.ltb_ge in Hshort.
      destruct evs1 as [|e evs1]; cbn in H.
      * injection H as -> -> <-.
        split; [cbn; lia|]. split; [intros ? []|]. split.
        -- intros posts' H'. rewrite Hposts in H'. injection H' as <-. lia.
        -- intros e He. rewrite He in Hposts. discriminate.
      * injection H as <- H.
        destruct (IH evs1 p l evs2 H) as (Hp & Hbefore & Hs & Hf).
        split; [cbn [length]; lia|]. split; [|split].
        -- intros e [<-|He].
           ++ exists page, lim. split; [reflexivity|lia].
           ++ now apply Hbefore.
        -- exact Hs.
        -- exact Hf.
  - destruct (http_get page lim) as [e|[posts|]] eqn:Hget; try discriminate.
    cbn [fst snd]. intros H.
    destruct (Hone H) as (-> & -> & -> & ->).
    split; [cbn; lia|]. split; [intros ? []|]. split.
    + intros posts' H'. rewrite Hget in H'. discriminate.
    + intros e' He'. split; [reflexivity|]. congruence.
Qed.

End FetchLoop.

(** ** C2: a short page ends the pagination *)

(** C2. Whatever the endpoint answers, if a page that [fetch_all_posts]
    requests with page size [l] holds strictly fewer than [l] posts, then
    that request is the last one ([evs2], the events after it, is empty)
    and the loop has ended: the call returns, and what it returns ends with
    the posts of that page. *)
Theorem short_page_ends_pagination
    (http_get : Z -> Z -> response) (fuel : nat) (limit : option Z)
    (evs1 evs2 : list event) (p l : Z) (posts : list post) :
  events_of (fetch_all_posts http_get fuel limit)
  = evs1 ++ Request p l :: evs2 ->
  posts_of (http_get p l) = Some posts ->
  Z.of_nat (length posts) < l ->
  evs2 = [] /\
  exists before,
    outcome_of (fetch_all_posts http_get fuel limit)
    = Returns (before ++ posts).
Proof.
  unfold fetch_all_posts. intros Hevs Hposts Hshort.
  destruct (fetch_loop_request http_get fuel limit _ _ _ _ _ _ _ Hevs)
    as (_ & _ & Hs & _).
  exact (Hs posts Hposts Hshort).
Qed.

Lemma short_page_ends_pagination_witness :
  let db := repeat demo_post 103 in
  @nil event = [] /\
  exists before,
    outcome_of (fetch_all_posts (ghost_api db) 5 None)
    = Returns (before ++ repeat demo_post 3).
Proof.
  intros db.
  apply (short_page_ends_pagination (ghost_api db) 5 None
           [Request 1 100] [] 2 100 (repeat demo_post 3)).
  - vm_compute. reflexivity.
  - vm_compute. reflexivity.
  - simpl. lia.
Defined.

(** ** C3: a failed request aborts the fetch *)

(** C3. Whatever the endpoint answers, if a page request of
    [fetch_all_posts] fails with [e], then the call raises [e] to its
    caller, so that it returns no posts at all; nothing happens after the
    failed request ([evs2] is empty), and the request had not been sent
    before: it is not tried a second time. *)
Theorem http_failure_aborts_fetch
    (http_get : Z -> Z -> response) (fuel : nat) (limit : option Z)
    (evs1 evs2 : list event) (p l : Z) (e : RequestException) :
  events_of (fetch_all_posts http_get fuel limit)
  = evs1 ++ Request p l :: evs2 ->
  http_get p l = Failure e ->
  outcome_of (fetch_all_posts http_get fuel limit) = Raises (RequestError e)
  /\ evs2 = []
  /\ ~ In (Request p l) evs1.
Proof.
  unfold fetch_all_posts. intros Hevs Hfail.
  destruct (fetch_loop_request http_get fuel limit _ _ _ _ _ _ _ Hevs)
    as (_ & Hbefore & _ & Hf).
  destruct (Hf e Hfail) as [-> Hout].
  split; [exact Hout|]. split; [reflexivity|].
  intros Hin. destruct (Hbefore _ Hin) as (p' & l' & Heq & Hlt).
  injection Heq as -> _. lia.
Qed.

Lemma http_failure_aborts_fetch_witness :
  let http_get := flaky_api (repeat demo_post 250) 2 in
  outcome_of (fetch_all_posts http_get 5 None) = Raises (RequestError Timeout)
  /\ @nil event = []
  /\ ~ In (Request 2 100) [Request 1 100].
Proof.
  intros http_get.
  apply (http_failure_aborts_fetch http_get 5 None
           [Request 1 100] [] 2 100 Timeout).
  - vm_compute. reflexivity.
  - vm_compute. reflexivity.
Defined.

(** ** The loop against the upstream source *)

Lemma firstn_plus {A} (n m : nat) (l : list A) :
  firstn (n + m) l = firstn n l ++ firstn m (skipn n l).
Proof.
  revert l. induction n as [|n IH]; intros l; [reflexivity|].
  destruct l as [|a l]; cbn.
  - now rewrite firstn_nil.
  - now rewrite IH.
Qed.

Lemma ghost_page (db : list post) (j lim : Z) :
  0 <= j -> 0 < lim ->
  ghost_api db (j + 1) lim
  = Body (Some (firstn (Z.to_nat lim) (skipn (Z.to_nat (j * lim)) db))).
Proof.
  intros Hj Hlim. unfold ghost_api.
  destruct (Z.leb_spec (j + 1) 0); [lia|].
  destruct (Z.leb_spec lim 0); [lia|].
  cbn. now replace (j + 1 - 1) with j by lia.
Qed.

(** Without a limit the loop walks through the pages of 100 and returns
    the whole collection. *)
Lemma fetch_loop_unlimited (db : list post) (limit : option Z) :
  set_limit limit = None ->
  forall (fuel j : nat),
    (j * 100 <= length db)%nat ->
    (length db - j * 100 < fuel * 100)%nat ->
    outcome_of (fetch_loop (ghost_api db) fuel limit 100
                  (Z.of_nat j + 1) (firstn (j * 100) db))
    = Returns db.
Proof.
  intros Hset. induction fuel as [|fuel IH]; intros j Hj Hfuel; [lia|].
  unfold outcome_of. rewrite fetch_loop_step.
  unfold requested, reached. rewrite Hset. cbn zeta.
  rewrite ghost_page by lia. cbn [posts_of].
  replace (Z.to_nat (Z.of_nat j * 100)) with (j * 100)%nat by lia.
  replace (Z.to_nat 100) with 100%nat by reflexivity.
  set (posts := firstn 100 (skipn (j * 100) db)).
  assert (Hlen : length posts = Nat.min 100 (length db - j * 100)).
  { unfold posts. now rewrite length_firstn, length_skipn. }
  destruct (Nat.eqb_spec (length posts) 0) as [H0|H0].
  - cbn [fst]. f_equal. apply firstn_all2. lia.
  - destruct (Z.ltb_spec (Z.of_nat (length posts)) 100) as [Hs|Hs].
    + cbn [fst]. f_equal. unfold posts.
      rewrite (firstn_all2 (n := 100)) by (rewrite length_skipn; lia).
      apply firstn_skipn.
    + specialize (IH (S j)).
      replace (Z.of_nat (S j) + 1) with (Z.of_nat j + 1 + 1) in IH by lia.
      replace (S j * 100)%nat with (j * 100 + 100)%nat in IH by lia.
      rewrite firstn_plus in IH. fold posts in IH.
      unfold outcome_of in IH.
      destruct (fetch_loop _ _ _ _ _ _ O) as [[o evs] t'].
      cbn [fst] in *. apply IH; lia.
Qed.

(** With a limit [L] that the collection can fill, the loop returns when
    its total is [L]. *)
Lemma fetch_loop_limited (db : list post) (L : Z) :
  1 <= L <= Z.of_nat (length db) ->
  forall (fuel : nat) (j : Z) (all_posts : list post),
    0 <= j ->
    Z.of_nat (length all_posts) = j * Z.min L 100 ->
    j * Z.min L 100 < L ->
    L - j * Z.min L 100 <= Z.min L 100 * Z.of_nat fuel ->
    exists posts,
      outcome_of (fetch_loop (ghost_api db) fuel (Some L) (Z.min L 100)
                    (j + 1) all_posts)
      = Returns posts /\
      Z.of_nat (length posts) = L.
Proof.
  intros HL. set (pp := Z.min L 100).
  assert (Hpp : 1 <= pp <= 100) by (unfold pp; lia).
  assert (HppL : pp <= L) by (unfold pp; lia).
  assert (Hset : set_limit (Some L) = Some L).
  { unfold set_limit. destruct (Z.eqb_spec L 0); [lia|reflexivity]. }
  induction fuel as [|fuel IH]; intros j all_posts Hj Hacc Hlt Hfuel;
    [nia|].
  unfold outcome_of. rewrite fetch_loop_step.
  unfold requested, reached. rewrite Hset. cbn zeta.
  rewrite Hacc.
  set (lim := Z.min (L - j * pp) pp).
  assert (Hlim : 1 <= lim <= pp) by (unfold lim; lia).
  assert (Hoff : 0 <= j * lim /\ j * lim + lim <= Z.of_nat (length db)).
  { split; [nia|]. assert (j * lim <= j * pp) by nia. unfold lim in *. lia. }
  rewrite ghost_page by lia. cbn [posts_of].
  set (posts := firstn (Z.to_nat lim) (skipn (Z.to_nat (j * lim)) db)).
  assert (Hlen : Z.of_nat (length posts) = lim).
  { unfold posts. rewrite length_firstn, length_skipn.
    destruct Hoff as [Hoff1 Hoff2]. revert Hoff1 Hoff2.
    generalize (j * lim). intros off Hoff1 Hoff2. lia. }
  destruct (Nat.eqb_spec (length posts) 0) as [H0|H0]; [lia|].
  rewrite length_app, Nat2Z.inj_add, Hacc, Hlen.
  destruct (Z.ltb_spec lim pp) as [Hs|Hs].
  - exists (all_posts ++ posts). split; [reflexivity|].
    rewrite length_app, Nat2Z.inj_add, Hacc, Hlen. unfold lim in *. lia.
  - assert (Hfull : lim = pp) by lia.
    destruct (Z.geb_spec (j * pp + lim) L) as [Hr|Hr].
    + exists (all_posts ++ posts). split; [reflexivity|].
      rewrite length_app, Nat2Z.inj_add, Hacc, Hlen. unfold lim in *. lia.
    + destruct (IH (j + 1) (all_posts ++ posts)) as (out & Hout & Hl).
      * lia.
      * rewrite length_app, Nat2Z.inj_add, Hacc, Hlen. lia.
      * lia.
      * nia.
      * exists out. unfold outcome_of in Hout.
        destruct (fetch_loop _ _ _ _ _ _ O) as [[o evs] t'].
        cbn [fst] in *. now split.
Qed.

(** A limit of 0 and no limit run the same loop, whatever the endpoint. *)
Lemma fetch_loop_zero (http_get : Z -> Z -> response) (fuel : nat) :
  forall per_page page all_posts t,
    fetch_loop http_get fuel (Some 0) per_page page all_posts t
    = fetch_loop http_get fuel None per_page page all_posts t.
Proof.
  induction fuel as [|fuel IH]; intros per_page page all_posts t;
    [reflexivity|].
  rewrite !fetch_loop_step. unfold requested, reached. cbn [set_limit Z.eqb].
  cbn zeta. destruct (posts_of _); [|reflexivity].
  now rewrite IH.
Qed.

Lemma fetch_all_posts_unlimited (db : list post) (limit : option Z)
    (fuel : nat) :
  set_limit limit = None ->
  (length db < fuel * 100)%nat ->
  outcome_of (fetch_all_posts (ghost_api db) fuel limit) = Returns db.
Proof.
  intros Hset Hfuel. unfold fetch_all_posts. rewrite Hset.
  change (Z.min 100 100) with 100.
  apply (fetch_loop_unlimited db limit Hset fuel 0); cbn; lia.
Qed.

(** ** C1: the overall limit *)

(** C1, as amended. For every limit [L] with [1 <= L] that is at most the
    number of posts upstream, [fetch_all_posts] called with [limit=L]
    returns a list of exactly [L] posts (given fuel for the
    [L / 100] pages, rounded up, that it asks for). *)
Theorem limit_is_honoured (db : list post) (L : Z) (fuel : nat) :
  1 <= L <= Z.of_nat (length db) ->
  L <= 100 * Z.of_nat fuel ->
  exists posts,
    outcome_of (fetch_all_posts (ghost_api db) fuel (Some L))
    = Returns posts /\
    Z.of_nat (length posts) = L.
Proof.
  intros HL Hfuel. unfold fetch_all_posts.
  assert (Hset : set_limit (Some L) = Some L).
  { unfold set_limit. destruct (Z.eqb_spec L 0); [lia|reflexivity]. }
  rewrite Hset.
  apply (fetch_loop_limited db L HL fuel 0 []); cbn [length]; try lia.
  assert (Hf1 : 1 <= Z.of_nat fuel) by lia.
  destruct (Z.min_spec L 100) as [[Hlt ->]|[Hge ->]]; nia.
Qed.

Lemma limit_is_honoured_witness :
  exists posts,
    outcome_of (fetch_all_posts (ghost_api (repeat demo_post 300)) 3
                  (Some 250))
    = Returns posts /\
    Z.of_nat (length posts) = 250.
Proof.
  apply (limit_is_honoured (repeat demo_post 300) 250 3).
  - rewrite repeat_length. lia.
  - lia.
Defined.

(** C1, as stated, fails for the limit 0, which is at most the number of
    posts of any source: against a source of one post the call returns that
    post, never a list of 0 posts. *)
Lemma limit_zero_is_not_honoured :
  let db := [demo_post] in
  let L := 0 in
  L <= Z.of_nat (length db) /\
  forall fuel,
    ~ exists posts,
        outcome_of (fetch_all_posts (ghost_api db) fuel (Some L))
        = Returns posts /\
        Z.of_nat (length posts) = L.
Proof.
  cbn zeta. split; [cbn; lia|].
  intros [|fuel] (posts & Hout & Hlen).
  - discriminate.
  - rewrite (fetch_all_posts_unlimited [demo_post] (Some 0) (S fuel)) in Hout
      by (cbn; reflexivity || lia).
    injection Hout as <-. discriminate.
Qed.

(** Which posts the list holds is another matter.  When the limit is no
    multiple of 100 the last request asks for the remainder as its page
    size, and the source counts the offset of a page in pages of that size:
    with a limit of 250 the third request is for page 3 of size 50, the
    posts 101 to 150, which the second page held already, and the posts 201
    to 250 are not fetched. *)
Remark limit_250_repeats_posts :
  let db := numbered_posts 300 in
  outcome_of (fetch_all_posts (ghost_api db) 3 (Some 250))
  = Returns (firstn 200 db ++ firstn 50 (skipn 100 db)).
Proof. vm_compute. reflexivity. Qed.

(** ** C9: a limit of 0 *)

(** C9. [fetch_all_posts] called with [limit=0] runs as it does without a
    limit, whatever the endpoint; against the upstream source it goes
    through the pages until the source is exhausted and returns every
    post, so that it returns zero posts only when there are none. *)
Theorem limit_zero_fetches_everything (db : list post) (fuel : nat) :
  (length db < fuel * 100)%nat ->
  outcome_of (fetch_all_posts (ghost_api db) fuel (Some 0)) = Returns db /\
  outcome_of (fetch_all_posts (ghost_api db) fuel None) = Returns db /\
  (forall http_get fuel' t,
      fetch_all_posts http_get fuel' (Some 0) t
      = fetch_all_posts http_get fuel' None t) /\
  (db <> [] ->
   outcome_of (fetch_all_posts (ghost_api db) fuel (Some 0)) <> Returns []).
Proof.
  intros Hfuel.
  assert (H0 : outcome_of (fetch_all_posts (ghost_api db) fuel (Some 0))
               = Returns db)
    by (apply fetch_all_posts_unlimited; [reflexivity|exact Hfuel]).
  split; [exact H0|]. split; [|split].
  - apply fetch_all_posts_unlimited; [reflexivity|exact Hfuel].
  - intros http_get fuel' t. unfold fetch_all_posts.
    cbn [set_limit Z.eqb]. apply fetch_loop_zero.
  - intros Hdb. rewrite H0. congruence.
Qed.

Lemma limit_zero_fetches_everything_witness :
  let db := repeat demo_post 150 in
  outcome_of (fetch_all_posts (ghost_api db) 2 (Some 0)) = Returns db /\
  outcome_of (fetch_all_posts (ghost_api db) 2 None) = Returns db /\
  (forall http_get fuel' t,
      fetch_all_posts http_get fuel' (Some 0) t
      = fetch_all_posts http_get fuel' None t) /\
  (db <> [] ->
   outcome_of (fetch_all_posts (ghost_api db) 2 (Some 0)) <> Returns []).
Proof.
  intros db. apply (limit_zero_fetches_everything db 2).
  unfold db. rewrite repeat_length. lia.
Defined.

(** ** Events *)

Lemma written_app (evs1 evs2 : list event) :
  written (evs1 ++ evs2) = written evs1 ++ written evs2.
Proof. apply flat_map_app. Qed.

Lemma kinds_app (evs1 evs2 : list event) :
  kinds (evs1 ++ evs2) = kinds evs1 ++ kinds evs2.
Proof. unfold kinds. now rewrite written_app, map_app. Qed.

Lemma writes_app (a : artifact) (evs1 evs2 : list event) :
  writes a (evs1 ++ evs2) = writes a evs1 || writes a evs2.
Proof. unfold writes. now rewrite kinds_app, existsb_app. Qed.

(** What [bind] returns, it returns through both of its parts. *)
Lemma bind_returns {A B} (m : M A) (f : A -> M B) t b evs t' :
  bind m f t = (Returns b, evs, t') ->
  exists a evs1 t1 evs2,
    m t = (Returns a, evs1, t1) /\
    f a t1 = (Returns b, evs2, t') /\
    evs = evs1 ++ evs2.
Proof.
  unfold bind. destruct (m t) as [[[a|e|] evs1] t1]; try discriminate.
  destruct (f a t1) as [[o evs2] t2] eqn:Hf. intros H.
  injection H as -> <- ->. now exists a, evs1, t1, evs2.
Qed.

(** The fetch writes no file and does not read the clock. *)
Lemma fetch_loop_written (http_get : Z -> Z -> response) (fuel : nat) :
  forall limit per_page page all_posts,
    written (events_of (fetch_loop http_get fuel limit per_page page
                          all_posts)) = [].
Proof.
  induction fuel as [|fuel IH]; intros limit per_page page all_posts;
    [reflexivity|].
  unfold events_of. rewrite fetch_loop_step. cbn zeta.
  destruct (posts_of _) as [posts|].
  - destruct (Nat.eqb _ 0); [reflexivity|].
    destruct (_ <? _); [reflexivity|].
    destruct (reached _ _); [reflexivity|].
    specialize (IH limit per_page (page + 1) (all_posts ++ posts)).
    unfold events_of in IH.
    destruct (fetch_loop _ _ _ _ _ _ O) as [[o evs] t']. exact IH.
  - destruct (http_get _ _); reflexivity.
Qed.

Lemma fetch_all_posts_run (http_get : Z -> Z -> response) fuel limit t :
  fetch_all_posts http_get fuel limit t =
  (outcome_of (fetch_all_posts http_get fuel limit),
   events_of (fetch_all_posts http_get fuel limit), t).
Proof. apply fetch_loop_clock. Qed.

Lemma fetch_all_posts_written (http_get : Z -> Z -> response) fuel limit :
  written (events_of (fetch_all_posts http_get fuel limit)) = [].
Proof. apply fetch_loop_written. Qed.

(** [mkdir] when the directory is ensured. *)
Lemma mkdir_ensured (os_fails : path -> bool) (p : path) (t : nat) :
  outcome_of (mkdir os_fails p) = Returns tt ->
  mkdir os_fails p t = (Returns tt, [Mkdir p], t).
Proof.
  unfold outcome_of, mkdir. destruct (path_error os_fails p); [|reflexivity].
  discriminate.
Qed.

(** ** C4: nothing to save *)

Section NothingFetched.

Variable http_get : Z -> Z -> response.
Variable clock : nat -> datetime.
Variable os_fails : path -> bool.
Variable repr : value -> str.
Variable stdout : str -> option exn.
Variable abspath : path -> result str.
Variable self : GhostPostFetcher.

(** C4. When the fetch phase of [fetch_and_save] is reached (the output
    directory could be ensured) and yields zero posts, [fetch_and_save]
    returns normally and has written no file at all: no JSON dump, no text
    file and no index. *)
Theorem no_posts_no_files (fuel : nat) (output_dir : path)
    (save_json save_txt : bool) (limit : option Z) :
  outcome_of (mkdir os_fails output_dir) = Returns tt ->
  outcome_of (fetch_all_posts http_get fuel limit) = Returns [] ->
  let run := fetch_and_save http_get clock os_fails repr stdout abspath self
               fuel output_dir save_json save_txt limit in
  outcome_of run = Returns tt /\
  written (events_of run) = [] /\
  writes JsonFile (events_of run) = false /\
  writes TxtFile (events_of run) = false /\
  writes IndexFile (events_of run) = false.
Proof.
  intros Hos Hfetch run.
  assert (Hrun : outcome_of run = Returns tt /\ written (events_of run) = []).
  { unfold run, outcome_of, events_of, fetch_and_save, bind.
    rewrite (mkdir_ensured os_fails output_dir O Hos).
    rewrite fetch_all_posts_run, Hfetch.
    cbn. split; [reflexivity|].
    rewrite app_nil_r. apply fetch_all_posts_written. }
  destruct Hrun as [Hout Hw]. unfold writes, kinds. rewrite Hw. auto.
Qed.

End NothingFetched.

Lemma no_posts_no_files_witness :
  let run := fetch_and_save (ghost_api []) demo_clock os_ok demo_repr
               stdout_ok demo_abspath demo_self 1 (Path (u "ghost_posts"))
               true true None in
  outcome_of run = Returns tt /\
  written (events_of run) = [] /\
  writes JsonFile (events_of run) = false /\
  writes TxtFile (events_of run) = false /\
  writes IndexFile (events_of run) = false.
Proof.
  apply (no_posts_no_files (ghost_api []) demo_clock os_ok demo_repr
           stdout_ok demo_abspath demo_self 1 (Path (u "ghost_posts"))
           true true None).
  - vm_compute. reflexivity.
  - vm_compute. reflexivity.
Defined.

(** ** The writers, when they return *)

Section Writers.

Variable clock : nat -> datetime.
Variable os_fails : path -> bool.
Variable repr : value -> str.
Variable stdout : str -> option exn.
Variable abspath : path -> result str.
Variable self : GhostPostFetcher.

(** [print] sends its line or raises, and does nothing else. *)
Lemma print_run line t :
  print stdout line t
  = match stdout line with
    | Some e => (Raises e, [], t)
    | None => (Returns tt, [Printed line], t)
    end.
Proof. unfold print. now destruct (stdout line). Qed.

Lemma bind_written {A B} (m : M A) (f : A -> M B) t :
  written (snd (fst (m t))) = [] ->
  (forall a t1, written (snd (fst (f a t1))) = []) ->
  written (snd (fst (bind m f t))) = [].
Proof.
  intros Hm Hf. unfold bind.
  destruct (m t) as [[[a|e|] evs] t1]; cbn [fst snd] in *; try exact Hm.
  specialize (Hf a t1). destruct (f a t1) as [[o evs'] t2].
  cbn [fst snd] in *. unfold written in *.
  now rewrite flat_map_app, Hm, Hf.
Qed.

Lemma print_written line t : written (snd (fst (print stdout line t))) = [].
Proof. rewrite print_run. now destruct (stdout line). Qed.

(** The summary writes no file. *)
Lemma print_summary_written output_dir posts json_files txt_files t :
  written (snd (fst (print_summary stdout abspath output_dir posts
                       json_files txt_files t))) = [].
Proof.
  unfold print_summary.
  repeat (apply bind_written; [|intros ? ?]);
    try apply print_written;
    try (match goal with
         | |- context [if ?b then _ else _] => destruct b
         end; [apply print_written|reflexivity]).
  destruct (abspath output_dir); reflexivity.
Qed.

Lemma mkdir_returns p t a evs t' :
  mkdir os_fails p t = (Returns a, evs, t') -> evs = [Mkdir p] /\ t' = t.
Proof.
  unfold mkdir. destruct (path_error os_fails p); [discriminate|].
  cbn. intros H. injection H as _ <- <-. auto.
Qed.

Lemma write_file_returns a p c t x evs t' :
  write_file os_fails a p c t = (Returns x, evs, t') ->
  evs = [Wrote a p c] /\ t' = t.
Proof.
  unfold write_file. destruct (path_error os_fails p); [discriminate|].
  destruct (encodable c); [|discriminate].
  cbn. intros H. injection H as _ <- <-. auto.
Qed.

(** [save_as_json] names the dump after its first reading of the clock and
    writes that one file. *)
Lemma save_as_json_returns posts output_dir t f evs t' :
  save_as_json clock os_fails self posts output_dir t = (Returns f, evs, t') ->
  f = Div output_dir (json_name (clock t)) /\
  exists c, evs = [Mkdir output_dir; Wrote JsonFile f (JsonDump c)].
Proof.
  unfold save_as_json. intros H.
  apply bind_returns in H as (x & evs1 & t1 & evs2 & Hmk & H & ->).
  apply mkdir_returns in Hmk as [-> ->].
  apply bind_returns in H as (d & evs1 & t1 & evs3 & Hnow & H & ->).
  unfold now in Hnow. injection Hnow as <- <- <-.
  apply bind_returns in H as (d' & evs1 & t1 & evs4 & Hnow & H & ->).
  unfold now in Hnow. injection Hnow as <- <- <-.
  apply bind_returns in H as (y & evs1 & t1 & evs5 & Hw & H & ->).
  apply write_file_returns in Hw as [-> ->].
  unfold ret in H. injection H as <- <- <-.
  split; [reflexivity|]. eexists. reflexivity.
Qed.

Lemma save_index_returns posts output_dir t f evs t' :
  save_index os_fails posts output_dir t = (Returns f, evs, t') ->
  f = Div output_dir (u "index.json") /\
  exists c, evs = [Wrote IndexFile f (JsonDump c)].
Proof.
  unfold save_index. intros H.
  apply bind_returns in H as (index & evs1 & t1 & evs2 & Hix & H & ->).
  destruct (index_loop posts []) as [ix|e]; [|discriminate].
  cbn in Hix. injection Hix as <- <- <-.
  apply bind_returns in H as (y & evs1 & t1 & evs3 & Hw & H & ->).
  apply write_file_returns in Hw as [-> ->].
  unfold ret in H. injection H as <- <- <-.
  split; [reflexivity|]. eexists. reflexivity.
Qed.

(** [save_as_txt] writes one text file for each post. *)
Lemma save_as_txt_loop_returns output_path posts :
  forall saved t files evs t',
    save_as_txt_loop os_fails repr output_path posts saved t
    = (Returns files, evs, t') ->
    kinds evs = repeat TxtFile (length posts).
Proof.
  induction posts as [|post rest IH]; intros saved t files evs t' H.
  - cbn in H. injection H as _ <- _. reflexivity.
  - cbn [save_as_txt_loop] in H.
    apply bind_returns in H as (f & evs1 & t1 & evs2 & Hf & H & ->).
    destruct (txt_file repr output_path post) as [f'|e]; [|discriminate].
    cbn in Hf. injection Hf as <- <- <-.
    apply bind_returns in H as (y & evs1 & t1 & evs3 & Hw & H & ->).
    apply write_file_returns in Hw as [-> ->].
    apply IH in H. rewrite !kinds_app, H. reflexivity.
Qed.

Lemma save_as_txt_returns posts output_dir t files evs t' :
  save_as_txt os_fails repr posts output_dir t = (Returns files, evs, t') ->
  kinds evs = repeat TxtFile (length posts).
Proof.
  unfold save_as_txt. intros H.
  apply bind_returns in H as (x & evs1 & t1 & evs2 & Hmk & H & ->).
  apply mkdir_returns in Hmk as [-> ->].
  apply save_as_txt_loop_returns in H. exact H.
Qed.

End Writers.

(** ** C6: which artifacts a run writes *)

Section Flags.

Variable http_get : Z -> Z -> response.
Variable clock : nat -> datetime.
Variable os_fails : path -> bool.
Variable repr : value -> str.
Variable stdout : str -> option exn.
Variable abspath : path -> result str.
Variable self : GhostPostFetcher.

(** C6, as amended. [fetch_and_save] has two flags.  For every combination
    of them, a run that fetches at least one post and returns normally has
    written the JSON dump and the index exactly when [save_json] is set,
    the dump first, and one text file for each post exactly when [save_txt]
    is set; the index has no flag of its own. *)
Theorem flags_select_artifacts (fuel : nat) (output_dir : path)
    (save_json save_txt : bool) (limit : option Z) (posts : list post) :
  outcome_of (fetch_all_posts http_get fuel limit) = Returns posts ->
  posts <> [] ->
  let run := fetch_and_save http_get clock os_fails repr stdout abspath self
               fuel output_dir save_json save_txt limit in
  outcome_of run = Returns tt ->
  kinds (events_of run)
  = (if save_json then [JsonFile; IndexFile] else [])
    ++ (if save_txt then repeat TxtFile (length posts) else []) /\
  writes JsonFile (events_of run) = save_json /\
  writes IndexFile (events_of run) = save_json /\
  writes TxtFile (events_of run) = save_txt.
Proof.
  intros Hfetch Hne run Hout.
  assert (Hk : kinds (events_of run)
               = (if save_json then [JsonFile; IndexFile] else [])
                 ++ (if save_txt then repeat TxtFile (length posts) else [])).
  { assert (Hfk : kinds (events_of (fetch_all_posts http_get fuel limit)) = [])
      by (unfold kinds; now rewrite fetch_all_posts_written).
    unfold outcome_of in Hout. unfold events_of at 1.
    destruct (run O) as [[o evs] t'] eqn:Hrun. cbn [fst snd] in *. subst o.
    unfold run, fetch_and_save in Hrun.
    apply bind_returns in Hrun as (x & evs1 & t1 & evs2 & Hmk & H & ->).
    apply mkdir_returns in Hmk as [-> ->].
    apply bind_returns in H as (ps & evs1 & t1 & evs3 & Hf & H & ->).
    rewrite fetch_all_posts_run, Hfetch in Hf. injection Hf as <- <- <-.
    destruct posts as [|p0 ps]; [congruence|]. cbn [length Nat.eqb] in H.
    apply bind_returns in H as (jf & evs1 & t1 & evs4 & Hj & H & ->).
    apply bind_returns in H as (tf & evs5 & t2 & evs6 & Ht & H & ->).
    assert (Hsk : kinds evs6 = []).
    { pose proof (print_summary_written stdout abspath output_dir
                    (p0 :: ps) jf tf t2) as Hs.
      rewrite H in Hs. cbn [fst snd] in Hs. unfold kinds. now rewrite Hs. }
    rewrite !kinds_app, Hfk, Hsk.
    change (kinds [Mkdir output_dir]) with (@nil artifact).
    cbn [app]. rewrite app_nil_r. f_equal.
    - destruct save_json.
      + apply bind_returns in Hj as (f & e1 & u1 & e2 & Hsj & Hj & ->).
        apply save_as_json_returns in Hsj as (_ & c & ->).
        apply bind_returns in Hj as (g & e3 & u2 & e4 & Hsi & Hj & ->).
        apply save_index_returns in Hsi as (_ & c' & ->).
        unfold ret in Hj. injection Hj as _ <- _. reflexivity.
      + unfold ret in Hj. injection Hj as _ <- _. reflexivity.
    - destruct save_txt.
      + apply save_as_txt_returns in Ht. exact Ht.
      + unfold ret in Ht. injection Ht as _ <- _. reflexivity. }
  split; [exact Hk|]. unfold writes. rewrite Hk.
  destruct posts as [|p0 ps]; [congruence|].
  destruct save_json, save_txt; cbn; repeat split; try reflexivity;
    induction (length ps); cbn; auto.
Qed.

End Flags.

Lemma flags_select_artifacts_witness :
  let run := fetch_and_save (ghost_api [demo_post; bare_post]) demo_clock
               os_ok demo_repr stdout_ok demo_abspath demo_self 1
               (Path (u "ghost_posts")) false true None in
  kinds (events_of run) = [] ++ repeat TxtFile 2 /\
  writes JsonFile (events_of run) = false /\
  writes IndexFile (events_of run) = false /\
  writes TxtFile (events_of run) = true.
Proof.
  apply (flags_select_artifacts (ghost_api [demo_post; bare_post]) demo_clock
           os_ok demo_repr stdout_ok demo_abspath demo_self 1
           (Path (u "ghost_posts")) false true None [demo_post; bare_post]).
  - vm_compute. reflexivity.
  - discriminate.
  - vm_compute. reflexivity.
Defined.

(** C6, as stated, fails: were each of the three kinds enabled on its own,
    some call would write the JSON dump and neither text files nor the
    index; no combination of the flags of [fetch_and_save] does. *)
Lemma index_follows_json_flag :
  ~ (forall want_json want_txt want_index : bool,
        exists save_json save_txt : bool,
          let run := fetch_and_save (ghost_api [demo_post]) demo_clock os_ok
                       demo_repr stdout_ok demo_abspath demo_self 1
                       (Path (u "ghost_posts")) save_json save_txt None in
          writes JsonFile (events_of run) = want_json /\
          writes TxtFile (events_of run) = want_txt /\
          writes IndexFile (events_of run) = want_index).
Proof.
  intros H. destruct (H true false false) as (sj & st & Hj & Ht & Hi).
  destruct sj, st; vm_compute in Hj, Ht, Hi; discriminate.
Qed.

(** ** C8: the name of the JSON dump *)

Lemma digit_inj (a b : Z) : digit a = digit b -> a mod 10 = b mod 10.
Proof.
  unfold digit. intros H.
  pose proof (Z.mod_pos_bound a 10 ltac:(lia)).
  pose proof (Z.mod_pos_bound b 10 ltac:(lia)).
  lia.
Qed.

Lemma pad2_inj (a b : Z) :
  0 <= a < 100 -> 0 <= b < 100 -> pad2 a = pad2 b -> a = b.
Proof.
  unfold pad2. intros Ha Hb H. injection H as H1 H0.
  apply digit_inj in H1, H0.
  revert H1 H0. Z.div_mod_to_equations. lia.
Qed.

Lemma pad4_inj (a b : Z) :
  0 <= a < 10000 -> 0 <= b < 10000 -> pad4 a = pad4 b -> a = b.
Proof.
  unfold pad4. intros Ha Hb H. injection H as H3 H2 H1 H0.
  apply digit_inj in H3, H2, H1, H0.
  revert H3 H2 H1 H0. Z.div_mod_to_equations. lia.
Qed.

(** The time stamp tells two readings apart exactly when they differ in a
    field down to the second. *)
Lemma strftime_inj (d1 d2 : datetime) :
  valid_datetime d1 -> valid_datetime d2 ->
  strftime d1 = strftime d2 <-> same_second d1 d2.
Proof.
  intros (Hy1 & Hm1 & Hd1 & Hh1 & Hi1 & Hs1 & _)
         (Hy2 & Hm2 & Hd2 & Hh2 & Hi2 & Hs2 & _).
  unfold strftime, same_second. split.
  - intros H.
    change (pad4 (year d1) ++ pad2 (month d1) ++ pad2 (day d1) ++ u "_"
            ++ pad2 (hour d1) ++ pad2 (minute d1) ++ pad2 (second d1))
      with (firstn 4 (pad4 (year d1)) ++ pad2 (month d1) ++ pad2 (day d1)
            ++ u "_" ++ pad2 (hour d1) ++ pad2 (minute d1)
            ++ pad2 (second d1)) in H.
    cbn [pad4 pad2 app firstn] in H.
    change (u "_") with [95%N] in H. cbn [app] in H.
    injection H as Y3 Y2 Y1 Y0 M1 M0 D1 D0 H1 H0 I1 I0 S1 S0.
    repeat split.
    + apply pad4_inj; [lia|lia|]. unfold pad4. congruence.
    + apply pad2_inj; [lia|lia|]. unfold pad2. congruence.
    + apply pad2_inj; [lia|lia|]. unfold pad2. congruence.
    + apply pad2_inj; [lia|lia|]. unfold pad2. congruence.
    + apply pad2_inj; [lia|lia|]. unfold pad2. congruence.
    + apply pad2_inj; [lia|lia|]. unfold pad2. congruence.
  - intros (-> & -> & -> & -> & -> & ->). reflexivity.
Qed.

(** C8, as amended. The name of the JSON artifact embeds the reading the
    invocation takes of the clock, at the resolution of one second: two
    invocations of [save_as_json] for the same directory write files of
    different names exactly when those readings differ in their date or in
    their time down to the second; within one second the names are the
    same. *)
Theorem json_names_differ_by_second
    (clock : nat -> datetime) (os_fails : path -> bool)
    (self : GhostPostFetcher) (posts1 posts2 : list post)
    (output_dir : path) (t1 t2 : nat) (f1 f2 : path) :
  valid_datetime (clock t1) ->
  valid_datetime (clock t2) ->
  fst (fst (save_as_json clock os_fails self posts1 output_dir t1))
  = Returns f1 ->
  fst (fst (save_as_json clock os_fails self posts2 output_dir t2))
  = Returns f2 ->
  f1 = Div output_dir (json_name (clock t1)) /\
  f2 = Div output_dir (json_name (clock t2)) /\
  (f1 <> f2 <-> ~ same_second (clock t1) (clock t2)).
Proof.
  intros Hv1 Hv2 H1 H2.
  destruct (save_as_json _ _ _ posts1 _ t1) as [[o1 e1] u1] eqn:E1.
  destruct (save_as_json _ _ _ posts2 _ t2) as [[o2 e2] u2] eqn:E2.
  cbn [fst] in H1, H2. subst o1 o2.
  apply save_as_json_returns in E1 as [-> _].
  apply save_as_json_returns in E2 as [-> _].
  split; [reflexivity|]. split; [reflexivity|].
  rewrite <- (strftime_inj _ _ Hv1 Hv2).
  split; intros H Heq; apply H.
  - unfold json_name. now rewrite Heq.
  - apply (f_equal (fun p => match p with Div _ n => n | Path n => n end))
      in Heq.
    unfold json_name in Heq. apply app_inv_head in Heq.
    now apply app_inv_tail in Heq.
Qed.

Lemma json_names_differ_by_second_witness :
  let dir := Path (u "ghost_posts") in
  let f1 := Div dir (u "ghost_posts_20261104_060500.json") in
  let f2 := Div dir (u "ghost_posts_20261104_060502.json") in
  f1 = Div dir (json_name (slow_clock 0)) /\
  f2 = Div dir (json_name (slow_clock 2)) /\
  (f1 <> f2 <-> ~ same_second (slow_clock 0) (slow_clock 2)).
Proof.
  intros dir f1 f2.
  apply (json_names_differ_by_second slow_clock os_ok demo_self
           [demo_post] [demo_post] dir 0 2 f1 f2).
  - unfold valid_datetime. cbn. lia.
  - unfold valid_datetime. cbn. lia.
  - vm_compute. reflexivity.
  - vm_compute. reflexivity.
Defined.

(** C8, as stated, fails: two invocations within the same second give
    their dumps the same name, and the second dump replaces the first. *)
Lemma same_second_same_name :
  let run := two_dumps demo_clock os_ok demo_self [demo_post] [bare_post]
               (Path (u "ghost_posts")) in
  exists f c1 c2,
    outcome_of run = Returns (f, f) /\
    written (events_of run) = [(JsonFile, f, c1); (JsonFile, f, c2)] /\
    c1 <> c2.
Proof.
  cbn zeta. do 3 eexists. split; [vm_compute; reflexivity|].
  split; [vm_compute; reflexivity|]. discriminate.
Qed.

(** ** C5: absent fields *)

Lemma dict_get_set_absent (p : dict) (k k' : str) (v : value) :
  dict_get p k = None ->
  dict_get (dict_set p k v) k'
  = if str_eqb k k' then Some v else dict_get p k'.
Proof.
  induction p as [|[k0 v0] p IH]; cbn; [reflexivity|].
  destruct (str_eqb k0 k) eqn:E0; [discriminate|]. intros Hp.
  cbn. rewrite (IH Hp).
  destruct (str_eqb k0 k') eqn:E1; [|reflexivity].
  destruct (str_eqb k k') eqn:E2; [|reflexivity].
  apply str_eqb_eq in E1, E2. apply str_eqb_neq in E0. congruence.
Qed.

(** Setting an absent field to the default that a read takes for it does
    not change what the read yields. *)
Lemma get_set_absent (p : dict) (k : str) (v : value) (k' : str)
    (dflt : value) :
  dict_get p k = None ->
  (k' = k -> v = dflt) ->
  get (dict_set p k v) k' dflt = get p k' dflt.
Proof.
  intros Hp Hv. unfold get. rewrite (dict_get_set_absent p k k' v Hp).
  destruct (str_eqb k k') eqn:E; [|reflexivity].
  apply str_eqb_eq in E. subst k'. now rewrite Hp, Hv.
Qed.

Lemma bind_ext {A B} (m : M A) (f g : A -> M B) t :
  (forall a t1, f a t1 = g a t1) -> bind m f t = bind m g t.
Proof.
  intros H. unfold bind. destruct (m t) as [[[a|e|] evs] t1]; try reflexivity.
  now rewrite H.
Qed.

Lemma txt_file_default (repr : value -> str) (output_path : path)
    (p : post) (k : str) :
  dict_get p k = None ->
  txt_file repr output_path (dict_set p k (txt_default repr p k))
  = txt_file repr output_path p.
Proof.
  intros Hp. unfold txt_file.
  assert (Hget : forall k' dflt,
             (k' = k -> txt_default repr p k = dflt) ->
             get (dict_set p k (txt_default repr p k)) k' dflt
             = get p k' dflt)
    by (intros; now apply get_set_absent).
  rewrite (Hget (u "id") (VStr (u "unknown"))) by (now intros <-).
  rewrite (Hget (u "title")) by (now intros <-).
  rewrite (Hget (u "slug")) by (now intros <-).
  rewrite (Hget (u "html")) by (now intros <-).
  rewrite (Hget (u "tags")) by (now intros <-).
  rewrite (Hget (u "authors")) by (now intros <-).
  rewrite (Hget (u "excerpt")) by (now intros <-).
  rewrite (Hget (u "published_at")) by (now intros <-).
  rewrite (Hget (u "reading_time")) by (now intros <-).
  reflexivity.
Qed.

Lemma index_entry_default (p : post) (k : str) :
  dict_get p k = None ->
  index_entry (dict_set p k (index_default k)) = index_entry p.
Proof.
  intros Hp. unfold index_entry.
  assert (Hget : forall k' dflt,
             (k' = k -> index_default k = dflt) ->
             get (dict_set p k (index_default k)) k' dflt = get p k' dflt)
    by (intros; now apply get_set_absent).
  rewrite (Hget (u "tags")) by (now intros <-).
  rewrite (Hget (u "id")) by (now intros <-).
  rewrite (Hget (u "slug")) by (now intros <-).
  rewrite (Hget (u "title")) by (now intros <-).
  rewrite (Hget (u "excerpt")) by (now intros <-).
  rewrite (Hget (u "published_at")) by (now intros <-).
  rewrite (Hget (u "reading_time")) by (now intros <-).
  rewrite (Hget (u "url")) by (now intros <-).
  reflexivity.
Qed.

(** The loops treat two collections alike when the posts that differ give
    the same file, or the same entry. *)
Lemma save_as_txt_loop_ext (os_fails : path -> bool) (repr : value -> str)
    (output_path : path) (p p' : post) (after : list post) :
  txt_file repr output_path p' = txt_file repr output_path p ->
  forall before saved t,
    save_as_txt_loop os_fails repr output_path (before ++ p' :: after) saved t
    = save_as_txt_loop os_fails repr output_path (before ++ p :: after)
        saved t.
Proof.
  intros Hp. induction before as [|q before IH]; intros saved t.
  - cbn [app save_as_txt_loop]. now rewrite Hp.
  - cbn [app save_as_txt_loop]. apply bind_ext. intros f t1.
    apply bind_ext. intros _ t2. apply IH.
Qed.

Lemma index_loop_ext (p p' : post) (after : list post) :
  index_entry p' = index_entry p ->
  forall before index,
    index_loop (before ++ p' :: after) index
    = index_loop (before ++ p :: after) index.
Proof.
  intros Hp. induction before as [|q before IH]; intros index.
  - cbn [app index_loop]. now rewrite Hp.
  - cbn [app index_loop]. destruct (index_entry q); cbn; [apply IH|easy].
Qed.

(** C5, as amended. For every post record in which a field is absent, the
    writers produce what they produce for the record in which that field
    holds the default the code names for it.  [save_as_txt] takes
    [untitled] for the title, [post-] followed by the id for the slug, a
    notice in Chinese for the excerpt, the empty string for the date and
    the body, zero for the reading time and the empty sequence for tags and
    authors; [save_index] takes [None], written as [null], for every field
    but the tags, for which it takes the empty sequence. *)
Theorem absent_fields_take_code_defaults
    (os_fails : path -> bool) (repr : value -> str)
    (before after : list post) (p : post) (k : str)
    (output_dir : path) (t : nat) :
  dict_get p k = None ->
  save_as_txt os_fails repr
    (before ++ dict_set p k (txt_default repr p k) :: after) output_dir t
  = save_as_txt os_fails repr (before ++ p :: after) output_dir t
  /\
  save_index os_fails
    (before ++ dict_set p k (index_default k) :: after) output_dir t
  = save_index os_fails (before ++ p :: after) output_dir t.
Proof.
  intros Hp. split.
  - unfold save_as_txt. apply bind_ext. intros _ t1.
    apply save_as_txt_loop_ext. now apply txt_file_default.
  - unfold save_index.
    pose proof (index_loop_ext p (dict_set p k (index_default k)) after
                  (index_entry_default p k Hp) before []) as E.
    unfold post, dict in *. rewrite E.
    reflexivity.
Qed.

Lemma absent_fields_take_code_defaults_witness :
  let dir := Path (u "ghost_posts") in
  let k := u "title" in
  let p' := dict_set bare_post k (txt_default demo_repr bare_post k) in
  let p'' := dict_set bare_post k (index_default k) in
  save_as_txt os_ok demo_repr ([demo_post] ++ p' :: []) dir O
  = save_as_txt os_ok demo_repr ([demo_post] ++ bare_post :: []) dir O
  /\
  save_index os_ok ([demo_post] ++ p'' :: []) dir O
  = save_index os_ok ([demo_post] ++ bare_post :: []) dir O.
Proof.
  intros dir k.
  apply (absent_fields_take_code_defaults os_ok demo_repr [demo_post] []
           bare_post k dir O).
  reflexivity.
Defined.

(** C5, as stated, fails for a post that holds its id only.  The text file
    [save_as_txt] writes for it is not the one of the post with the empty
    string for a title, and the index [save_index] writes holds neither the
    empty string for its title nor zero for its reading time. *)
Lemma absent_title_is_not_empty :
  let dir := Path (u "ghost_posts") in
  let with_empty k := dict_set bare_post k (empty_default k) in
  dict_get bare_post (u "title") = None /\
  dict_get bare_post (u "reading_time") = None /\
  events_of (save_as_txt os_ok demo_repr [bare_post] dir)
  <> events_of (save_as_txt os_ok demo_repr [with_empty (u "title")] dir) /\
  events_of (save_index os_ok [bare_post] dir)
  <> events_of (save_index os_ok [with_empty (u "title")] dir) /\
  events_of (save_index os_ok [bare_post] dir)
  <> events_of (save_index os_ok [with_empty (u "reading_time")] dir).
Proof.
  cbn zeta. split; [reflexivity|]. split; [reflexivity|].
  split; [|split]; vm_compute; discriminate.
Qed.

(** ** Plain strings

    What the writers make of plain posts is plain, and a plain file is
    written when the file system does not refuse it. *)

Lemma rbind_ok {A B} (r : result A) (f : A -> result B) (b : B) :
  rbind r f = Ok b -> exists a, r = Ok a /\ f a = Ok b.
Proof. destruct r as [a|e]; [|discriminate]. intros H. now exists a. Qed.

Lemma Ok_inj {A} (a b : A) : Ok a = Ok b -> a = b.
Proof. intros H. now injection H. Qed.

(** What a match leaves holds characters of the input only. *)
Lemma star_incl (cls : N -> bool) (g : option str)
    (k : option str -> str -> option str) (out : str) :
  forall s,
    rmatch (Star cls) g s k = Some out ->
    exists g' s', k g' s' = Some out /\ incl s' s.
Proof.
  cbn [rmatch]. induction s as [|c s IHs].
  - intros H. exists g, []. split; [exact H|apply incl_refl].
  - destruct (cls c).
    + match goal with
      | |- match ?x with _ => _ end = _ -> _ => destruct x as [o|] eqn:E
      end.
      * intros H. injection H as ->.
        destruct (IHs eq_refl) as (g' & s' & H & Hl).
        exists g', s'. split; [exact H|now apply incl_tl].
      * intros H. exists g, (c :: s). split; [exact H|apply incl_refl].
    + intros H. exists g, (c :: s). split; [exact H|apply incl_refl].
Qed.

Lemma rmatch_incl (r : regex) :
  forall g s k out,
    rmatch r g s k = Some out ->
    exists g' s', k g' s' = Some out /\ incl s' s.
Proof.
  induction r as [lit|cls|r1 IH1 r2 IH2|r1 IH1 r2 IH2|r1 IH1| |cls|cls|cls];
    intros g s k out.
  - cbn [rmatch].
    destruct (strip_prefix lit s) as [rest|] eqn:E; [|discriminate].
    apply strip_prefix_spec in E. subst s. intros H.
    exists g, rest. split; [exact H|]. apply incl_appr, incl_refl.
  - cbn [rmatch]. destruct s as [|c s]; [discriminate|].
    destruct (cls c); [|discriminate]. intros H.
    exists g, s. split; [exact H|]. apply incl_tl, incl_refl.
  - cbn [rmatch]. destruct (rmatch r1 g s k) as [o|] eqn:E.
    + intros H. injection H as ->. now apply IH1 in E.
    + apply IH2.
  - cbn [rmatch]. intros H. apply IH1 in H as (g1 & s1 & H & Hl1).
    apply IH2 in H as (g2 & s2 & H & Hl2).
    exists g2, s2. split; [exact H|]. eapply incl_tran; eassumption.
  - cbn [rmatch]. intros H. apply IH1 in H as (g1 & s1 & H & Hl1). eauto.
  - cbn [rmatch]. destruct g as [t|]; [|discriminate].
    destruct (strip_prefix t s) as [rest|] eqn:E; [|discriminate].
    apply strip_prefix_spec in E. subst s. intros H.
    exists (Some t), rest. split; [exact H|]. apply incl_appr, incl_refl.
  - apply star_incl.
  - cbn [rmatch]. destruct s as [|c0 s0]; [discriminate|].
    destruct (cls c0); [|discriminate]. intros H.
    change (rmatch (Star cls) g s0 k = Some out) in H.
    apply star_incl in H as (g' & s' & Hk & Hl).
    exists g', s'. split; [exact Hk|now apply incl_tl].
  - cbn [rmatch]. induction s as [|c s IHs].
    + destruct (k g []) as [o|] eqn:E; [|discriminate].
      intros H. injection H as ->. exists g, [].
      split; [exact E|apply incl_refl].
    + destruct (k g (c :: s)) as [o|] eqn:E.
      * intros H. injection H as ->. exists g, (c :: s).
        split; [exact E|apply incl_refl].
      * destruct (cls c); [|discriminate]. intros H.
        destruct (IHs H) as (g' & s' & Hk & Hl).
        exists g', s'. split; [exact Hk|now apply incl_tl].
Qed.

Lemma match_at_incl (r : regex) (s rest : str) :
  match_at r s = Some rest -> incl rest s.
Proof.
  unfold match_at. intros H. apply rmatch_incl in H as (g' & s' & H & Hi).
  now injection H as ->.
Qed.

Lemma forallb_incl {A} (P : A -> bool) (l l' : list A) :
  incl l' l -> forallb P l = true -> forallb P l' = true.
Proof. rewrite !forallb_forall. auto. Qed.

(** A substitution brings in no character but those of the replacement. *)
Lemma forallb_sub_loop (P : N -> bool) (r : regex) (repl : str) :
  forallb P repl = true ->
  forall fuel s,
    forallb P s = true -> forallb P (sub_loop fuel r repl s) = true.
Proof.
  intros Hrepl. induction fuel as [|fuel IH]; intros s Hs; [exact Hs|].
  cbn [sub_loop]. destruct (match_at r s) as [rest|] eqn:E.
  - pose proof (forallb_incl P s rest (match_at_incl r s rest E) Hs) as Hrest.
    destruct (length rest <? length s)%nat.
    + rewrite forallb_app, Hrepl. now apply IH.
    + destruct s as [|c s']; [exact Hrepl|].
      cbn [forallb] in Hs. apply andb_true_iff in Hs as [Hc Hs].
      rewrite forallb_app, Hrepl. cbn [forallb andb]. rewrite Hc.
      now apply IH.
  - destruct s as [|c s']; [reflexivity|].
    cbn [forallb] in *. apply andb_true_iff in Hs as [Hc Hs].
    rewrite Hc. now apply IH.
Qed.

Lemma plain_sub (r : regex) (repl s : str) :
  plain repl = true -> plain s = true -> plain (Re.sub r repl s) = true.
Proof. intros Hrepl Hs. now apply forallb_sub_loop. Qed.

Lemma plain_app (a b : str) : plain (a ++ b) = plain a && plain b.
Proof. apply forallb_app. Qed.

Lemma forallb_lstrip (P : N -> bool) (s : str) :
  forallb P s = true -> forallb P (lstrip s) = true.
Proof.
  induction s as [|c s IH]; cbn [lstrip]; [auto|].
  destruct (isspace c); [|auto].
  cbn [forallb]. intros H. apply andb_true_iff in H as [_ H]. auto.
Qed.

Lemma forallb_rev (P : N -> bool) (s : str) :
  forallb P (rev s) = forallb P s.
Proof.
  induction s as [|c s IH]; [reflexivity|].
  cbn [rev forallb]. rewrite forallb_app, IH. cbn [forallb].
  rewrite andb_true_r. apply andb_comm.
Qed.

Lemma plain_strip (s : str) : plain s = true -> plain (strip s) = true.
Proof.
  unfold plain, strip, rstrip. intros H. rewrite forallb_rev.
  apply forallb_lstrip. rewrite forallb_rev. now apply forallb_lstrip.
Qed.

Lemma plain_firstn (n : nat) (s : str) :
  plain s = true -> plain (firstn n s) = true.
Proof.
  intros H. rewrite <- (firstn_skipn n s), plain_app in H.
  now apply andb_true_iff in H as [H _].
Qed.

Lemma plain_char_range (c : N) :
  (0 < c)%N -> (c < 55296)%N -> plain_char c = true.
Proof.
  intros H0 H1. unfold plain_char, surrogate.
  destruct (N.eqb_spec c 0); [lia|]. destruct (N.leb_spec 55296 c); [lia|].
  reflexivity.
Qed.

Lemma plain_uint_str (d : Decimal.uint) : plain (uint_str d) = true.
Proof.
  unfold plain.
  induction d; cbn [uint_str forallb]; try rewrite IHd; reflexivity.
Qed.

Lemma plain_int_str (n : Z) : plain (int_str n) = true.
Proof.
  destruct n as [|p|p]; cbn [int_str];
    [reflexivity|apply plain_uint_str|].
  change (plain (45%N :: uint_str (Pos.to_uint p)))
    with (plain_char 45 && plain (uint_str (Pos.to_uint p))).
  now rewrite plain_uint_str.
Qed.

Lemma plain_digit (n : Z) : plain_char (digit n) = true.
Proof.
  pose proof (Z.mod_pos_bound n 10 ltac:(lia)).
  apply plain_char_range; unfold digit; lia.
Qed.

Lemma plain_strftime (d : datetime) : plain (strftime d) = true.
Proof.
  unfold strftime, pad4, pad2. rewrite !plain_app. unfold plain.
  cbn [forallb]. rewrite !plain_digit. reflexivity.
Qed.

Lemma plain_isoformat (d : datetime) : plain (isoformat d) = true.
Proof.
  unfold isoformat, pad6, pad4, pad2. rewrite !plain_app.
  destruct (microsecond d =? 0); [|rewrite plain_app];
    unfold plain; cbn [forallb]; rewrite !plain_digit; reflexivity.
Qed.

Lemma json_name_plain (d : datetime) : plain (json_name d) = true.
Proof.
  unfold json_name. rewrite !plain_app, plain_strftime. reflexivity.
Qed.

(** Plain values. *)
Lemma plain_get (p : dict) (k : str) (dflt : value) :
  plain_value (VDict p) = true -> plain_value dflt = true ->
  plain_value (get p k dflt) = true.
Proof.
  unfold get. intros Hp Hd.
  induction p as [|[k' v] p IH]; cbn [dict_get]; [exact Hd|].
  cbn [plain_value forallb] in Hp. apply andb_true_iff in Hp as [Hkv Hp].
  apply andb_true_iff in Hkv as [_ Hv].
  destruct (str_eqb k' k); [exact Hv|]. apply IH. exact Hp.
Qed.

Lemma plain_py_str (repr : value -> str) (v : value) :
  (forall x, plain (repr x) = true) -> plain_value v = true ->
  plain (py_str repr v) = true.
Proof.
  intros Hr Hv.
  destruct v as [|[|]|n|s|l|d]; cbn [py_str]; try reflexivity;
    auto using plain_int_str.
Qed.

Lemma plain_subscript (v : value) (k : str) (x : value) :
  plain_value v = true -> subscript v k = Ok x -> plain_value x = true.
Proof.
  intros Hv H. destruct v as [| | | | |d]; try discriminate.
  cbn [subscript] in H.
  pose proof (plain_get d k VNone Hv eq_refl) as Hg. unfold get in Hg.
  destruct (dict_get d k); [|discriminate]. now injection H as <-.
Qed.

Lemma plain_names_of (l ns : list value) :
  forallb plain_value l = true -> names_of l = Ok ns ->
  forallb plain_value ns = true.
Proof.
  revert ns. induction l as [|x l IH]; intros ns; cbn [names_of forallb].
  - intros _ H. now injection H as <-.
  - intros Hl H. apply andb_true_iff in Hl as [Hx Hl].
    apply rbind_ok in H as (n & Hn & H).
    apply rbind_ok in H as (ns' & Hns & H). injection H as <-.
    cbn [forallb]. now rewrite (plain_subscript _ _ _ Hx Hn), (IH _ Hl Hns).
Qed.

Lemma plain_iterate (v : value) (l : list value) :
  plain_value v = true -> iterate v = Ok l -> forallb plain_value l = true.
Proof.
  intros Hv H. destruct v as [| | |s|l0|d]; try discriminate;
    cbn [iterate] in H; injection H as <-.
  - cbn [plain_value] in Hv. unfold plain in Hv.
    induction s as [|c s IH]; [reflexivity|].
    cbn [forallb] in Hv. apply andb_true_iff in Hv as [Hc Hs].
    cbn [map forallb plain_value]. unfold plain at 1. cbn [forallb].
    now rewrite Hc, (IH Hs).
  - exact Hv.
  - cbn [plain_value] in Hv.
    induction d as [|[k x] d IH]; [reflexivity|].
    cbn [forallb] in Hv. apply andb_true_iff in Hv as [Hk Hd].
    apply andb_true_iff in Hk as [Hk _].
    cbn [map forallb plain_value fst]. now rewrite Hk, (IH Hd).
Qed.

Lemma plain_names (v : value) (ns : list value) :
  plain_value v = true -> names v = Ok ns -> forallb plain_value ns = true.
Proof.
  unfold names. intros Hv H. apply rbind_ok in H as (items & Hi & H).
  eapply plain_names_of; [|exact H]. eapply plain_iterate; eassumption.
Qed.

Lemma plain_all_str (ns : list value) (ss : list str) :
  forallb plain_value ns = true -> all_str ns = Ok ss ->
  forallb plain ss = true.
Proof.
  revert ss. induction ns as [|x ns IH]; intros ss; cbn [all_str forallb].
  - intros _ H. now injection H as <-.
  - intros Hl H. apply andb_true_iff in Hl as [Hx Hl].
    destruct x as [| | |s| |]; try discriminate.
    apply rbind_ok in H as (ss' & Hss & H). injection H as <-.
    cbn [forallb]. cbn [plain_value] in Hx. now rewrite Hx, (IH _ Hl Hss).
Qed.

Lemma plain_join (sep : str) (ss : list str) :
  plain sep = true -> forallb plain ss = true -> plain (join sep ss) = true.
Proof.
  intros Hsep. induction ss as [|s ss IH]; [reflexivity|].
  cbn [forallb]. intros H. apply andb_true_iff in H as [Hs Hss].
  cbn [join]. destruct ss as [|s' ss]; [exact Hs|].
  now rewrite !plain_app, Hs, Hsep, (IH Hss).
Qed.

Lemma plain_str_join (sep : str) (ns : list value) (s : str) :
  plain sep = true -> forallb plain_value ns = true ->
  str_join sep ns = Ok s -> plain s = true.
Proof.
  unfold str_join. intros Hsep Hns H. apply rbind_ok in H as (ss & Hss & H).
  injection H as <-. apply plain_join; [exact Hsep|].
  eapply plain_all_str; eassumption.
Qed.

Lemma plain_strip_html_tags (h : value) (s : str) :
  plain_value h = true -> strip_html_tags h = Ok s -> plain s = true.
Proof.
  unfold strip_html_tags. intros Hh. destruct (negb (truthy h)).
  - intros H. now injection H as <-.
  - intros H. apply rbind_ok in H as (x & Hx & H). injection H as <-.
    destruct h as [| | |html| |]; try discriminate.
    cbn [re_sub] in Hx. injection Hx as <-.
    apply plain_strip, plain_sub; [reflexivity|].
    apply plain_sub; [reflexivity|]. apply plain_sub; [reflexivity|exact Hh].
Qed.

(** The file of a plain post is plain, the name and the text. *)
Lemma txt_file_plain (repr : value -> str) (output_path : path) (p : post)
    (f : path * str) :
  (forall x, plain (repr x) = true) ->
  plain_path output_path = true ->
  plain_post p = true ->
  txt_file repr output_path p = Ok f ->
  plain_path (fst f) = true /\ plain (snd f) = true.
Proof.
  intros Hr Ho Hp. unfold txt_file. intros H.
  assert (Hget : forall k d,
             plain_value d = true -> plain_value (get p k d) = true)
    by (intros; now apply plain_get).
  assert (Hstr : forall k d,
             plain_value d = true -> plain (py_str repr (get p k d)) = true)
    by (intros; apply plain_py_str; auto).
  pose proof (Hget (u "title") (VStr (u "untitled")) eq_refl) as Htitle.
  pose proof (Hstr (u "title") (VStr (u "untitled")) eq_refl) as Htitle'.
  destruct (get p (u "title") (VStr (u "untitled"))) as [| | |title| |];
    try discriminate.
  cbn [re_sub rbind] in H.
  apply rbind_ok in H as (text & Htext & H).
  apply rbind_ok in H as (tags & Htags & H).
  apply rbind_ok in H as (tags' & Htags' & H).
  apply rbind_ok in H as (authors & Hauthors & H).
  apply rbind_ok in H as (authors' & Hauthors' & H).
  apply Ok_inj in H. subst f. cbn [fst snd plain_path].
  apply plain_strip_html_tags in Htext; [|now apply Hget].
  apply plain_names in Htags; [|now apply Hget].
  apply plain_names in Hauthors; [|now apply Hget].
  apply (plain_str_join (u ", ") _ _ eq_refl Htags) in Htags'.
  apply (plain_str_join (u ", ") _ _ eq_refl Hauthors) in Hauthors'.
  assert (Hid : plain (u "post-"
                       ++ py_str repr (get p (u "id") (VStr (u "unknown"))))
                = true)
    by (rewrite plain_app, Hstr; reflexivity).
  split.
  - rewrite Ho, !plain_app, (Hstr (u "slug") (VStr _) Hid).
    rewrite (plain_firstn 50 _
               (plain_sub illegal_in_filename (u "_") title eq_refl Htitle)).
    reflexivity.
  - rewrite !plain_app, Htitle', Htext, Htags', Hauthors'.
    rewrite !Hstr by reflexivity. reflexivity.
Qed.

Lemma index_entry_plain (p : post) (e : value) :
  plain_post p = true -> index_entry p = Ok e -> plain_value e = true.
Proof.
  unfold index_entry. intros Hp H.
  apply rbind_ok in H as (tags & Htags & H). injection H as <-.
  assert (Hget : forall k, plain_value (get p k VNone) = true)
    by (intros; now apply plain_get).
  apply plain_names in Htags; [|now apply plain_get].
  cbn [plain_value forallb]. now rewrite !Hget, Htags.
Qed.

Lemma index_loop_plain (posts : list post) :
  forall index index',
    forallb plain_post posts = true ->
    forallb plain_value index = true ->
    index_loop posts index = Ok index' ->
    forallb plain_value index' = true.
Proof.
  induction posts as [|p rest IH]; intros index index';
    cbn [index_loop forallb].
  - intros _ Hi H. now injection H as <-.
  - intros Hp Hi H. apply andb_true_iff in Hp as [Hp Hrest].
    apply rbind_ok in H as (e & He & H).
    apply (IH _ _ Hrest) in H; [exact H|].
    rewrite forallb_app, Hi. cbn [forallb].
    now rewrite (index_entry_plain p e Hp He).
Qed.

(** What is plain can be encoded, as a text, as a dump and as a name. *)
Lemma plain_utf8 (s : str) : plain s = true -> utf8_encodable s = true.
Proof.
  unfold plain, utf8_encodable.
  induction s as [|c s IH]; cbn [forallb]; [auto|].
  intros H. apply andb_true_iff in H as [Hc H]. rewrite (IH H).
  unfold plain_char in Hc. now apply andb_true_iff in Hc as [_ ->].
Qed.

Lemma plain_fs_encodable (s : str) : plain s = true -> fs_encodable s = true.
Proof.
  unfold plain, fs_encodable.
  induction s as [|c s IH]; cbn [forallb]; [auto|].
  intros H. apply andb_true_iff in H as [Hc H]. rewrite (IH H).
  unfold plain_char in Hc. now apply andb_true_iff in Hc as [_ ->].
Qed.

Lemma plain_no_null (s : str) : plain s = true -> existsb (N.eqb 0) s = false.
Proof.
  unfold plain.
  induction s as [|c s IH]; cbn [forallb existsb]; [auto|].
  intros H. apply andb_true_iff in H as [Hc H]. rewrite (IH H).
  unfold plain_char in Hc. apply andb_true_iff in Hc as [Hc _].
  rewrite N.eqb_sym. now destruct (c =? 0)%N.
Qed.

Lemma plain_dumpable (v : value) : plain_value v = true -> dumpable v = true.
Proof.
  revert v. fix IH 1. intros v.
  destruct v as [| | |s|items|items]; cbn [plain_value dumpable];
    try reflexivity.
  - apply plain_utf8.
  - induction items as [|x items IHitems]; cbn [forallb]; [reflexivity|].
    intros H. apply andb_true_iff in H as [Hx H].
    now rewrite (IH x Hx), (IHitems H).
  - induction items as [|[k x] items IHitems]; cbn [forallb];
      [reflexivity|].
    intros H. apply andb_true_iff in H as [Hkx H].
    apply andb_true_iff in Hkx as [Hk Hx].
    now rewrite (plain_utf8 k Hk), (IH x Hx), (IHitems H).
Qed.

Lemma plain_fspath (p : path) : plain_path p = true -> plain (fspath p) = true.
Proof.
  induction p as [s|dir IH name]; cbn [plain_path fspath]; [auto|].
  intros H. apply andb_true_iff in H as [Hd Hn].
  assert (Hjoin : plain (fspath dir ++ u "/" ++ name) = true)
    by (now rewrite !plain_app, (IH Hd), Hn).
  destruct name as [|c name']; [exact Hjoin|].
  destruct (c =? chr "/")%N; [exact Hn|exact Hjoin].
Qed.

Section PlainFiles.

Variable os_fails : path -> bool.
Hypothesis os_works : forall p, os_fails p = false.

Lemma path_error_plain (p : path) :
  plain_path p = true -> path_error os_fails p = None.
Proof.
  intros Hp. unfold path_error. apply plain_fspath in Hp.
  now rewrite (plain_fs_encodable _ Hp), (plain_no_null _ Hp), os_works.
Qed.

Lemma mkdir_plain (p : path) (t : nat) :
  plain_path p = true -> mkdir os_fails p t = (Returns tt, [Mkdir p], t).
Proof. intros Hp. unfold mkdir. now rewrite (path_error_plain p Hp). Qed.

Lemma write_file_plain (a : artifact) (p : path) (c : content) (t : nat) :
  plain_path p = true -> encodable c = true ->
  write_file os_fails a p c t = (Returns tt, [Wrote a p c], t).
Proof.
  intros Hp Hc. unfold write_file. now rewrite (path_error_plain p Hp), Hc.
Qed.

End PlainFiles.

(** ** C10: tags and authors without a name *)

Lemma names_of_nameless (l : list value) :
  forallb is_dict l = true ->
  existsb nameless l = true ->
  names_of l = Error (KeyError (u "name")).
Proof.
  induction l as [|x l IH]; cbn [forallb existsb names_of];
    [discriminate|].
  intros Hd Hn. apply andb_true_iff in Hd as [Hx Hd].
  destruct x as [| | | | |d]; try discriminate.
  cbn [subscript nameless] in *.
  destruct (dict_get d (u "name")) as [n|]; [|reflexivity].
  cbn in Hn |- *. now rewrite (IH Hd Hn).
Qed.

Lemma names_of_dicts (l : list value) :
  forallb is_dict l = true ->
  existsb nameless l = false ->
  exists ns, names_of l = Ok ns.
Proof.
  induction l as [|x l IH]; cbn [forallb existsb names_of];
    [now exists []|].
  intros Hd Hn. apply andb_true_iff in Hd as [Hx Hd].
  apply orb_false_iff in Hn as [Hxn Hn].
  destruct x as [| | | | |d]; try discriminate.
  cbn [subscript nameless] in *.
  destruct (dict_get d (u "name")) as [n|]; [|discriminate].
  destruct (IH Hd Hn) as [ns ->]. cbn. now exists (n :: ns).
Qed.

Lemma names_of_named (l : list value) :
  forallb named_by_str l = true ->
  existsb nameless l = false ->
  exists ns ss, names_of l = Ok ns /\ all_str ns = Ok ss.
Proof.
  induction l as [|x l IH]; cbn [forallb existsb names_of];
    [now exists [], []|].
  intros Hd Hn. apply andb_true_iff in Hd as [Hx Hd].
  apply orb_false_iff in Hn as [Hxn Hn].
  destruct x as [| | | | |d]; try discriminate.
  cbn [subscript nameless named_by_str] in *.
  destruct (dict_get d (u "name")) as [n|]; [|discriminate].
  destruct n as [| | |s| |]; try discriminate.
  destruct (IH Hd Hn) as (ns & ss & -> & Hss). cbn.
  exists (VStr s :: ns), (s :: ss). split; [reflexivity|].
  cbn. now rewrite Hss.
Qed.

Lemma named_are_dicts (l : list value) :
  forallb named_by_str l = true -> forallb is_dict l = true.
Proof.
  induction l as [|x l IH]; cbn; [reflexivity|].
  intros H. apply andb_true_iff in H as [Hx H].
  rewrite (IH H). now destruct x.
Qed.

(** The names of a tag list: [KeyError] when one is missing, a string to
    join otherwise. *)
Lemma names_missing (v : value) :
  dict_list v = true -> lacks_name v = true ->
  names v = Error (KeyError (u "name")).
Proof.
  destruct v as [| | | |l|]; try discriminate. cbn.
  apply names_of_nameless.
Qed.

Lemma names_joined (sep : str) (v : value) :
  tag_list v = true -> lacks_name v = false ->
  exists ns s, names v = Ok ns /\ str_join sep ns = Ok s.
Proof.
  destruct v as [| | | |l|]; try discriminate. cbn [tag_list lacks_name].
  intros Ht Hl. destruct (names_of_named l Ht Hl) as (ns & ss & Hns & Hss).
  exists ns, (join sep ss). cbn. split; [exact Hns|].
  unfold str_join. now rewrite Hss.
Qed.

Lemma tag_list_dict_list (v : value) : tag_list v = true -> dict_list v = true.
Proof.
  destruct v as [| | | |l|]; try discriminate. apply named_are_dicts.
Qed.

Lemma strip_html_tags_ready (h : value) :
  negb (truthy h) || is_str h = true -> exists s, strip_html_tags h = Ok s.
Proof.
  unfold strip_html_tags. destruct (truthy h); cbn [negb orb].
  - destruct h as [| | |s| |]; try discriminate. intros _.
    cbn [re_sub rbind]. eexists. reflexivity.
  - intros _. now exists [].
Qed.

(** The file of one post: [KeyError] when a tag or an author lacks its
    name, and some file otherwise. *)
Lemma txt_file_ready (repr : value -> str) (output_path : path) (p : post) :
  txt_ready p = true ->
  if txt_missing p
  then txt_file repr output_path p = Error (KeyError (u "name"))
  else exists f, txt_file repr output_path p = Ok f.
Proof.
  unfold txt_ready, txt_missing, txt_file. intros H.
  apply andb_true_iff in H as [H Hauthors].
  apply andb_true_iff in H as [H Htags].
  apply andb_true_iff in H as [Htitle Hhtml].
  destruct (get p (u "title") _) as [| | |title| |]; try discriminate.
  cbn [re_sub rbind].
  destruct (strip_html_tags_ready _ Hhtml) as [text ->]. cbn [rbind].
  destruct (lacks_name (get p (u "tags") (VList []))) eqn:Ltags.
  - cbn [orb].
    rewrite (names_missing _ (tag_list_dict_list _ Htags) Ltags).
    reflexivity.
  - cbn [orb].
    destruct (names_joined (u ", ") _ Htags Ltags) as (ns & s & -> & Hs).
    cbn [rbind]. rewrite Hs. cbn [rbind].
    destruct (lacks_name (get p (u "authors") (VList []))) eqn:Lauthors.
    + rewrite (names_missing _ (tag_list_dict_list _ Hauthors) Lauthors).
      reflexivity.
    + destruct (names_joined (u ", ") _ Hauthors Lauthors)
        as (ns' & s' & -> & Hs').
      cbn [rbind]. rewrite Hs'. cbn [rbind]. eexists. reflexivity.
Qed.

(** The loop of [save_as_txt] stops at the first post with a missing name,
    the files of the posts before it written. *)
Lemma save_as_txt_loop_missing (os_fails : path -> bool)
    (repr : value -> str) (output_path : path) (posts : list post) :
  (forall p, os_fails p = false) ->
  (forall v, plain (repr v) = true) ->
  plain_path output_path = true ->
  forallb plain_post posts = true ->
  forallb txt_ready posts = true ->
  existsb txt_missing posts = true ->
  forall saved t,
  exists evs,
    save_as_txt_loop os_fails repr output_path posts saved t
    = (Raises (KeyError (u "name")), evs, t) /\
    kinds evs = repeat TxtFile (length (before_missing posts)).
Proof.
  intros Hos Hrepr Hout. induction posts as [|p rest IH];
    cbn [forallb existsb before_missing]; [discriminate|].
  intros Hpl Hr Hm saved t. apply andb_true_iff in Hr as [Hp Hr].
  apply andb_true_iff in Hpl as [Hplain Hpl].
  pose proof (txt_file_ready repr output_path p Hp) as Hfile.
  cbn [save_as_txt_loop]. unfold bind at 1.
  destruct (txt_missing p).
  - rewrite Hfile. cbn. exists []. split; reflexivity.
  - destruct Hfile as [f Hf].
    destruct (txt_file_plain repr output_path p f Hrepr Hout Hplain Hf)
      as [Hname Htext].
    rewrite Hf. cbn [orb] in Hm. cbn [lift ret].
    unfold bind at 1.
    rewrite (write_file_plain os_fails Hos TxtFile (fst f) (Text (snd f)) t
               Hname (plain_utf8 _ Htext)).
    destruct (IH Hpl Hr Hm (saved ++ [fst f]) t) as (evs & -> & Hk).
    exists ([] ++ [Wrote TxtFile (fst f) (Text (snd f))] ++ evs).
    split; [reflexivity|]. rewrite !kinds_app, Hk. reflexivity.
Qed.

Lemma before_missing_shorter (posts : list post) :
  existsb txt_missing posts = true ->
  (length (before_missing posts) < length posts)%nat.
Proof.
  induction posts as [|p rest IH]; cbn; [discriminate|].
  destruct (txt_missing p); cbn; [lia|]. intros H. specialize (IH H). lia.
Qed.

(** The index of posts whose tags are lists of mappings: [KeyError] when a
    tag lacks its name, whatever the authors are, and an index otherwise. *)
Lemma index_loop_ready (posts : list post) :
  forallb index_ready posts = true ->
  forall index,
    if existsb index_missing posts
    then index_loop posts index = Error (KeyError (u "name"))
    else exists index', index_loop posts index = Ok index'.
Proof.
  induction posts as [|p rest IH]; cbn [forallb existsb index_loop].
  - intros _ index. now exists index.
  - intros Hr index. apply andb_true_iff in Hr as [Hp Hr].
    unfold index_ready in Hp. unfold index_missing at 1, index_entry.
    destruct (get p (u "tags") (VList [])) as [| | | |l|]; try discriminate.
    cbn [lacks_name dict_list] in *. unfold names. cbn [iterate rbind].
    destruct (existsb nameless l) eqn:Hl.
    + now rewrite (names_of_nameless l Hp Hl).
    + destruct (names_of_dicts l Hp Hl) as [ns ->]. cbn [rbind orb].
      apply (IH Hr).
Qed.

Lemma txt_ready_index_ready (posts : list post) :
  forallb txt_ready posts = true -> forallb index_ready posts = true.
Proof.
  induction posts as [|p rest IH]; cbn; [reflexivity|].
  intros H. apply andb_true_iff in H as [Hp H]. rewrite (IH H).
  unfold txt_ready in Hp. unfold index_ready.
  apply andb_true_iff in Hp as [Hp _].
  apply andb_true_iff in Hp as [_ Htags].
  now rewrite (tag_list_dict_list _ Htags).
Qed.

(** C10, as amended. [save_as_txt] requires every element of the tags and
    of the authors of a post to hold the key [name]; [save_index] requires
    it of the tags only, for it does not read the authors.  For every
    collection of posts with fields of the expected types in which some tag
    or author lacks its name, when nothing stands in the way of the files
    (the strings of the posts and of the output directory hold neither a
    null character nor a surrogate, so that every name and every text can
    be encoded, and the file system does not fail), [save_as_txt] raises
    [KeyError] for [name] after it has written the files of the posts
    before the first such post and no other; and [save_index] raises that
    [KeyError] and writes nothing when some tag lacks its name, and else
    writes the index and returns. *)
Theorem missing_name_raises_key_error
    (os_fails : path -> bool) (repr : value -> str)
    (posts : list post) (output_dir : path) :
  (forall p, os_fails p = false) ->
  (forall v, plain (repr v) = true) ->
  plain_path output_dir = true ->
  forallb plain_post posts = true ->
  forallb txt_ready posts = true ->
  existsb txt_missing posts = true ->
  let txt := save_as_txt os_fails repr posts output_dir in
  let idx := save_index os_fails posts output_dir in
  outcome_of txt = Raises (KeyError (u "name")) /\
  kinds (events_of txt) = repeat TxtFile (length (before_missing posts)) /\
  (length (before_missing posts) < length posts)%nat /\
  (if existsb index_missing posts
   then outcome_of idx = Raises (KeyError (u "name")) /\ events_of idx = []
   else outcome_of idx = Returns (Div output_dir (u "index.json")) /\
        kinds (events_of idx) = [IndexFile]).
Proof.
  intros Hos Hrepr Hout Hplain Hready Hmissing txt idx.
  destruct (save_as_txt_loop_missing os_fails repr output_dir posts Hos
              Hrepr Hout Hplain Hready Hmissing [] O) as (evs & Hloop & Hk).
  assert (Htxt : txt O = (Raises (KeyError (u "name")),
                          [Mkdir output_dir] ++ evs, O)).
  { unfold txt, save_as_txt, bind.
    rewrite (mkdir_plain os_fails Hos output_dir O Hout).
    now rewrite Hloop. }
  split; [unfold outcome_of; now rewrite Htxt|].
  split; [unfold events_of; rewrite Htxt; cbn [fst snd];
          now rewrite kinds_app, Hk|].
  split; [now apply before_missing_shorter|].
  pose proof (index_loop_ready posts (txt_ready_index_ready posts Hready) [])
    as Hindex.
  unfold idx, outcome_of, events_of, save_index, bind.
  destruct (existsb index_missing posts).
  - rewrite Hindex. cbn. auto.
  - destruct Hindex as [index Hindex].
    pose proof (index_loop_plain posts [] index Hplain eq_refl Hindex)
      as Hentries.
    rewrite Hindex. cbn [lift ret].
    rewrite (write_file_plain os_fails Hos IndexFile
               (Div output_dir (u "index.json")) (JsonDump (VList index)) O).
    + cbn. auto.
    + cbn [plain_path]. now rewrite Hout.
    + apply (plain_dumpable (VList index)). exact Hentries.
Qed.

Lemma missing_name_raises_key_error_witness :
  let posts := [demo_post; anonymous_post; untagged_post] in
  let dir := Path (u "ghost_posts") in
  let txt := save_as_txt os_ok demo_repr posts dir in
  let idx := save_index os_ok posts dir in
  outcome_of txt = Raises (KeyError (u "name")) /\
  kinds (events_of txt) = repeat TxtFile (length (before_missing posts)) /\
  (length (before_missing posts) < length posts)%nat /\
  (if existsb index_missing posts
   then outcome_of idx = Raises (KeyError (u "name")) /\ events_of idx = []
   else outcome_of idx = Returns (Div dir (u "index.json")) /\
        kinds (events_of idx) = [IndexFile]).
Proof.
  intros posts dir.
  apply (missing_name_raises_key_error os_ok demo_repr posts dir).
  - intros p. reflexivity.
  - intros v. reflexivity.
  - reflexivity.
  - vm_compute. reflexivity.
  - vm_compute. reflexivity.
  - vm_compute. reflexivity.
Defined.

(** C10, as stated, fails for [save_index]: for a post whose author has no
    name, [save_as_txt] raises [KeyError] and [save_index] does not; it
    writes the index and returns. *)
Lemma nameless_author_is_indexed :
  let dir := Path (u "ghost_posts") in
  lacks_name (get anonymous_post (u "authors") (VList [])) = true /\
  outcome_of (save_as_txt os_ok demo_repr [anonymous_post] dir)
  = Raises (KeyError (u "name")) /\
  outcome_of (save_index os_ok [anonymous_post] dir)
  = Returns (Div dir (u "index.json")) /\
  kinds (events_of (save_index os_ok [anonymous_post] dir)) = [IndexFile].
Proof.
  cbn zeta. repeat split; vm_compute; reflexivity.
Qed.

(** What cannot be encoded stops the writers before a missing name does:
    a lone surrogate in the body of a post raises [UnicodeEncodeError] when
    its text is written, the file left empty, and in the dump as well; a
    null character in a title, which goes into the name of the file, raises
    [ValueError] when the file is opened.  The post with the nameless
    author is not reached. *)
Remark unencodable_post_stops_the_writers :
  let dir := Path (u "ghost_posts") in
  let txt := save_as_txt os_ok demo_repr [surrogate_post; anonymous_post] dir
  in
  outcome_of txt = Raises UnicodeEncodeError /\
  events_of txt
  = [Mkdir dir; Truncated TxtFile (Div dir (u "post-5_Broken.txt"))] /\
  outcome_of (save_as_json demo_clock os_ok demo_self [surrogate_post] dir)
  = Raises UnicodeEncodeError /\
  outcome_of (save_index os_ok [null_post] dir)
  = Returns (Div dir (u "index.json")) /\
  outcome_of (save_as_txt os_ok demo_repr [null_post; anonymous_post] dir)
  = Raises ValueError /\
  events_of (save_as_txt os_ok demo_repr [null_post; anonymous_post] dir)
  = [Mkdir dir].
Proof. cbn zeta. repeat split; vm_compute; reflexivity. Qed.

(* ================================================================== *)
(** * Further properties of the fetch loop *)

Section FetchLoopMore.

Variable http_get : Z -> Z -> response.

(** The loop sends requests and does nothing else, one page after the
    other. *)
Lemma fetch_loop_pages fuel limit per_page :
  forall page all_posts i e,
    nth_error
      (events_of (fetch_loop http_get fuel limit per_page page all_posts)) i
    = Some e ->
    exists l, e = Request (page + Z.of_nat i) l.
Proof.
  induction fuel as [|fuel IH]; intros page all_posts i e.
  { cbn. destruct i; discriminate. }
  unfold events_of. rewrite fetch_loop_step. cbn zeta.
  set (lim := requested limit per_page (length all_posts)).
  assert (Hone : nth_error [Request page lim] i = Some e ->
                 exists l, e = Request (page + Z.of_nat i) l).
  { destruct i as [|[|i]]; cbn; try discriminate.
    intros H. injection H as <-. exists lim. f_equal. lia. }
  destruct (posts_of (http_get page lim)) as [posts|].
  - destruct (Nat.eqb _ 0); [exact Hone|].
    destruct (_ <? _); [exact Hone|].
    destruct (reached _ _); [exact Hone|].
    specialize (IH (page + 1) (all_posts ++ posts)).
    unfold events_of in IH.
    destruct (fetch_loop _ _ _ _ _ _ O) as [[o evs] t']. cbn [fst snd] in *.
    destruct i as [|i]; cbn [nth_error].
    + intros H. injection H as <-. exists lim. f_equal. lia.
    + intros H. destruct (IH i e H) as [l ->]. exists l. f_equal. lia.
  - destruct (http_get page lim); exact Hone.
Qed.

(** What the loop returns is what it held and what the pages brought. *)
Lemma fetch_loop_answers fuel limit per_page :
  forall page all_posts all,
    outcome_of (fetch_loop http_get fuel limit per_page page all_posts)
    = Returns all ->
    all = all_posts
          ++ answers http_get
               (events_of (fetch_loop http_get fuel limit per_page page
                             all_posts)).
Proof.
  induction fuel as [|fuel IH]; intros page all_posts all.
  { discriminate. }
  unfold outcome_of, events_of. rewrite fetch_loop_step. cbn zeta.
  set (lim := requested limit per_page (length all_posts)).
  destruct (posts_of (http_get page lim)) as [posts|] eqn:Hposts.
  - assert (Hans : forall evs,
               answers http_get (Request page lim :: evs)
               = posts ++ answers http_get evs).
    { intros evs. cbn. now rewrite Hposts. }
    destruct (Nat.eqb_spec (length posts) 0) as [Hnil|Hnil].
    { cbn [fst snd]. intros H. injection H as <-. rewrite Hans.
      destruct posts; [|discriminate]. cbn. now rewrite app_nil_r. }
    destruct (_ <? _).
    { cbn [fst snd]. intros H. injection H as <-. rewrite Hans.
      cbn. now rewrite app_nil_r. }
    destruct (reached _ _).
    { cbn [fst snd]. intros H. injection H as <-. rewrite Hans.
      cbn. now rewrite app_nil_r. }
    specialize (IH (page + 1) (all_posts ++ posts) all).
    unfold outcome_of, events_of in IH.
    destruct (fetch_loop _ _ _ _ _ _ O) as [[o evs] t']. cbn [fst snd] in *.
    intros H. rewrite Hans, (IH H). now rewrite app_assoc.
  - destruct (http_get page lim) as [e|[posts|]] eqn:Hget; try discriminate.
Qed.

(** More fuel does not change a run that has ended. *)
Lemma fetch_loop_more_fuel fuel limit per_page :
  forall page all_posts extra,
    outcome_of (fetch_loop http_get fuel limit per_page page all_posts)
    <> OutOfFuel ->
    fetch_loop http_get (fuel + extra) limit per_page page all_posts O
    = fetch_loop http_get fuel limit per_page page all_posts O.
Proof.
  induction fuel as [|fuel IH]; intros page all_posts extra.
  { cbn. congruence. }
  unfold outcome_of. cbn [Nat.add]. rewrite !fetch_loop_step. cbn zeta.
  destruct (posts_of _) as [posts|]; [|reflexivity].
  destruct (Nat.eqb _ 0); [reflexivity|].
  destruct (_ <? _); [reflexivity|].
  destruct (reached _ _); [reflexivity|].
  specialize (IH (page + 1) (all_posts ++ posts) extra).
  unfold outcome_of in IH.
  destruct (fetch_loop http_get fuel _ _ _ _ O) as [[o evs] t'].
  cbn [fst] in *. intros H. now rewrite IH.
Qed.

Lemma fetch_loop_events_fuel fuel limit per_page :
  forall page all_posts,
    (length (events_of (fetch_loop http_get fuel limit per_page page
                          all_posts)) <= fuel)%nat.
Proof.
  induction fuel as [|fuel IH]; intros page all_posts; [cbn; lia|].
  unfold events_of. rewrite fetch_loop_step. cbn zeta.
  destruct (posts_of _) as [posts|].
  - destruct (Nat.eqb _ 0); [cbn; lia|].
    destruct (_ <? _); [cbn; lia|].
    destruct (reached _ _); [cbn; lia|].
    specialize (IH (page + 1) (all_posts ++ posts)). unfold events_of in IH.
    destruct (fetch_loop _ _ _ _ _ _ O) as [[o evs] t']. cbn [fst snd] in *.
    cbn [length]. lia.
  - destruct (http_get _ _); cbn; lia.
Qed.

End FetchLoopMore.

Section LimitedLoop.

Variable http_get : Z -> Z -> response.
Variable L : Z.
Hypothesis L_positive : 1 <= L.

Lemma set_limit_positive : set_limit (Some L) = Some L.
Proof. unfold set_limit. destruct (Z.eqb_spec L 0); [lia|reflexivity]. Qed.

(** Below the limit the loop asks for one post at least and for no more
    than a page. *)
Lemma fetch_loop_sizes fuel :
  forall page all_posts p l,
    Z.of_nat (length all_posts) < L ->
    In (Request p l)
       (events_of (fetch_loop http_get fuel (Some L) (Z.min L 100) page
                     all_posts)) ->
    1 <= l <= Z.min L 100.
Proof.
  induction fuel as [|fuel IH]; intros page all_posts p l Hacc.
  { intros []. }
  unfold events_of. rewrite fetch_loop_step. cbn zeta.
  unfold requested, reached. rewrite set_limit_positive.
  set (lim := Z.min (L - Z.of_nat (length all_posts)) (Z.min L 100)).
  assert (Hlim : 1 <= lim <= Z.min L 100) by (unfold lim; lia).
  assert (Hone : In (Request p l) [Request page lim] ->
                 1 <= l <= Z.min L 100).
  { intros [H|[]]. injection H as _ <-. exact Hlim. }
  destruct (posts_of (http_get page lim)) as [posts|].
  - destruct (Nat.eqb _ 0); [exact Hone|].
    destruct (_ <? _); [exact Hone|].
    destruct (Z.geb_spec (Z.of_nat (length (all_posts ++ posts))) L)
      as [Hr|Hr]; [exact Hone|].
    specialize (IH (page + 1) (all_posts ++ posts) p l Hr).
    unfold events_of in IH.
    destruct (fetch_loop _ _ _ _ _ _ O) as [[o evs] t']. cbn [fst snd] in *.
    intros [H|H]; [apply Hone; now left|now apply IH].
  - destruct (http_get page lim); exact Hone.
Qed.

(** Each round that goes on has added a page, so that the limit is reached
    after [L] over the page size rounds. *)
Lemma fetch_loop_ends fuel :
  forall page all_posts,
    Z.of_nat (length all_posts) < L ->
    L - Z.of_nat (length all_posts) <= Z.min L 100 * Z.of_nat fuel ->
    outcome_of (fetch_loop http_get fuel (Some L) (Z.min L 100) page all_posts)
    <> OutOfFuel.
Proof.
  induction fuel as [|fuel IH]; intros page all_posts Hacc Hfuel.
  { lia. }
  unfold outcome_of. rewrite fetch_loop_step. cbn zeta.
  unfold requested, reached. rewrite set_limit_positive.
  destruct (posts_of _) as [posts|].
  - destruct (Nat.eqb _ 0); [discriminate|].
    destruct (Z.ltb_spec (Z.of_nat (length posts)) (Z.min L 100)) as [Hs|Hs];
      [discriminate|].
    destruct (Z.geb_spec (Z.of_nat (length (all_posts ++ posts))) L)
      as [Hr|Hr]; [discriminate|].
    specialize (IH (page + 1) (all_posts ++ posts) Hr).
    unfold outcome_of in IH.
    destruct (fetch_loop _ _ _ _ _ _ O) as [[o evs] t']. cbn [fst] in *.
    apply IH. rewrite length_app, Nat2Z.inj_add in *. lia.
  - destruct (http_get _ _); discriminate.
Qed.

(** Against an endpoint that sends no more than it is asked for, the loop
    holds no more than the limit. *)
Lemma fetch_loop_capped fuel :
  (forall p l posts,
      1 <= l -> posts_of (http_get p l) = Some posts ->
      Z.of_nat (length posts) <= l) ->
  forall page all_posts all,
    Z.of_nat (length all_posts) < L ->
    outcome_of (fetch_loop http_get fuel (Some L) (Z.min L 100) page all_posts)
    = Returns all ->
    Z.of_nat (length all) <= L.
Proof.
  intros Hfair. induction fuel as [|fuel IH]; intros page all_posts all Hacc.
  { discriminate. }
  unfold outcome_of. rewrite fetch_loop_step. cbn zeta.
  unfold requested, reached. rewrite set_limit_positive.
  set (lim := Z.min (L - Z.of_nat (length all_posts)) (Z.min L 100)).
  assert (Hlim : 1 <= lim <= L - Z.of_nat (length all_posts))
    by (unfold lim; lia).
  destruct (posts_of (http_get page lim)) as [posts|] eqn:Hposts.
  - pose proof (Hfair page lim posts (proj1 Hlim) Hposts) as Hle.
    assert (Hall : Z.of_nat (length (all_posts ++ posts)) <= L)
      by (rewrite length_app, Nat2Z.inj_add; lia).
    destruct (Nat.eqb _ 0);
      [cbn [fst]; intros H; injection H as <-; lia|].
    destruct (_ <? _);
      [cbn [fst]; intros H; injection H as <-; exact Hall|].
    destruct (Z.geb_spec (Z.of_nat (length (all_posts ++ posts))) L)
      as [Hr|Hr]; [cbn [fst]; intros H; injection H as <-; exact Hall|].
    specialize (IH (page + 1) (all_posts ++ posts) all Hr).
    unfold outcome_of in IH.
    destruct (fetch_loop _ _ _ _ _ _ O) as [[o evs] t']. cbn [fst] in *.
    exact IH.
  - destruct (http_get page lim) as [e|[posts|]]; try discriminate.
Qed.

End LimitedLoop.

(** ** Extras on [fetch_all_posts] *)

(** X1. Whatever the endpoint answers, [fetch_all_posts] does nothing to the
    world but send page requests, and the request it sends in position [i]
    (from 0) is the one for page [i + 1]: pages are asked for in order from
    page 1, none is skipped and none is asked for twice. *)
Theorem requests_go_page_by_page
    (http_get : Z -> Z -> response) (fuel : nat) (limit : option Z)
    (i : nat) (e : event) :
  nth_error (events_of (fetch_all_posts http_get fuel limit)) i = Some e ->
  exists l, e = Request (Z.of_nat i + 1) l.
Proof.
  unfold fetch_all_posts. intros H.
  destruct (fetch_loop_pages http_get fuel limit _ _ _ _ _ H) as [l ->].
  exists l. f_equal. lia.
Qed.

Lemma requests_go_page_by_page_witness :
  exists l, Request 2 100 = Request (Z.of_nat 1 + 1) l.
Proof.
  apply (requests_go_page_by_page (ghost_api (repeat demo_post 103)) 5 None
           1 (Request 2 100)).
  vm_compute. reflexivity.
Defined.

(** X2. Whatever the endpoint answers, every request of [fetch_all_posts]
    asks for a page of 100 posts when there is no limit (or the limit is
    0), and with a limit [L >= 1] for at least one post, for at most 100
    and for at most [L]. *)
Theorem page_size_is_bounded
    (http_get : Z -> Z -> response) (fuel : nat) (limit : option Z)
    (p l : Z) :
  In (Request p l) (events_of (fetch_all_posts http_get fuel limit)) ->
  (set_limit limit = None -> l = 100) /\
  (forall L, limit = Some L -> 1 <= L -> 1 <= l <= 100 /\ l <= L).
Proof.
  intros Hin. split.
  - intros Hset. revert Hin. unfold fetch_all_posts. rewrite Hset.
    change (Z.min 100 100) with 100.
    enough (Hall : forall all_posts page,
               In (Request p l)
                  (events_of (fetch_loop http_get fuel limit 100 page
                                all_posts)) -> l = 100)
      by apply Hall.
    induction fuel as [|fuel IH]; intros all_posts page; [intros []|].
    unfold events_of. rewrite fetch_loop_step. cbn zeta.
    unfold requested, reached. rewrite Hset.
    assert (Hone : In (Request p l) [Request page 100] -> l = 100).
    { intros [H|[]]. now injection H as _ <-. }
    destruct (posts_of _) as [posts|].
    + destruct (Nat.eqb _ 0); [exact Hone|].
      destruct (_ <? _); [exact Hone|].
      specialize (IH (all_posts ++ posts) (page + 1)).
      unfold events_of in IH.
      destruct (fetch_loop _ _ _ _ _ _ O) as [[o evs] t'].
      cbn [fst snd] in *.
      intros [H|H]; [apply Hone; now left|now apply IH].
    + destruct (http_get _ _); exact Hone.
  - intros L -> HL. revert Hin. unfold fetch_all_posts.
    rewrite (set_limit_positive L HL). intros Hin.
    apply (fetch_loop_sizes http_get L HL) in Hin; [lia|cbn; lia].
Qed.

Lemma page_size_is_bounded_witness :
  (set_limit (Some 250) = None -> 50 = 100) /\
  (forall L, Some 250 = Some L -> 1 <= L -> 1 <= 50 <= 100 /\ 50 <= L).
Proof.
  apply (page_size_is_bounded (ghost_api (repeat demo_post 300)) 5
           (Some 250) 3 50).
  vm_compute. auto.
Defined.

(** X3. Whatever the endpoint answers, the list that [fetch_all_posts]
    returns is made of the posts of the pages it received, page after page
    in the order of the requests, each page in the order the endpoint gave
    it: no post is dropped, added or moved. *)
Theorem fetched_posts_are_the_pages
    (http_get : Z -> Z -> response) (fuel : nat) (limit : option Z)
    (all : list post) :
  outcome_of (fetch_all_posts http_get fuel limit) = Returns all ->
  all = answers http_get (events_of (fetch_all_posts http_get fuel limit)).
Proof.
  unfold fetch_all_posts. intros H.
  now apply fetch_loop_answers in H.
Qed.

Lemma fetched_posts_are_the_pages_witness :
  let db := numbered_posts 103 in
  db = answers (ghost_api db) (events_of (fetch_all_posts (ghost_api db) 5
                                            None)).
Proof.
  intros db.
  apply (fetched_posts_are_the_pages (ghost_api db) 5 None db).
  vm_compute. reflexivity.
Defined.

Lemma rounds_cover (L : Z) :
  1 <= L -> L <= Z.min L 100 * Z.of_nat (rounds L).
Proof.
  intros HL. unfold rounds.
  assert (Hpp : 1 <= Z.min L 100) by lia.
  generalize dependent (Z.min L 100). intros pp Hpp.
  rewrite Z2Nat.id by (apply Z.div_pos; lia).
  pose proof (Z.div_mod (L + pp - 1) pp ltac:(lia)) as Hdm.
  pose proof (Z.mod_pos_bound (L + pp - 1) pp ltac:(lia)) as Hm.
  lia.
Qed.

(** X4. With a limit [L >= 1] the fetch ends, whatever the endpoint
    answers: it sends at most [rounds L] requests, which is [L] over the
    page size [min L 100] rounded up, and then has returned or raised. *)
Theorem limit_bounds_the_requests
    (http_get : Z -> Z -> response) (L : Z) (fuel : nat) :
  1 <= L ->
  (rounds L <= fuel)%nat ->
  outcome_of (fetch_all_posts http_get fuel (Some L)) <> OutOfFuel /\
  (length (events_of (fetch_all_posts http_get fuel (Some L)))
   <= rounds L)%nat.
Proof.
  intros HL Hfuel. unfold fetch_all_posts.
  rewrite (set_limit_positive L HL).
  assert (Hend : outcome_of (fetch_loop http_get (rounds L) (Some L)
                               (Z.min L 100) 1 []) <> OutOfFuel).
  { apply (fetch_loop_ends http_get L HL); cbn [length]; [lia|].
    pose proof (rounds_cover L HL). lia. }
  replace fuel with (rounds L + (fuel - rounds L))%nat by lia.
  unfold outcome_of, events_of.
  rewrite (fetch_loop_more_fuel http_get _ _ _ _ _ _ Hend).
  split; [exact Hend|]. apply fetch_loop_events_fuel.
Qed.

Lemma limit_bounds_the_requests_witness :
  outcome_of (fetch_all_posts endless_api 7 (Some 250)) <> OutOfFuel /\
  (length (events_of (fetch_all_posts endless_api 7 (Some 250%Z)))
   <= rounds 250%Z)%nat.
Proof.
  apply (limit_bounds_the_requests endless_api 250 7).
  - lia.
  - vm_compute. lia.
Defined.

(** X5. With a limit [L >= 1], against an endpoint that never sends more
    posts than the page size it is asked for, [fetch_all_posts] never
    returns more than [L] posts. *)
Theorem limit_caps_the_result
    (http_get : Z -> Z -> response) (L : Z) (fuel : nat) (all : list post) :
  1 <= L ->
  (forall p l posts,
      1 <= l -> posts_of (http_get p l) = Some posts ->
      Z.of_nat (length posts) <= l) ->
  outcome_of (fetch_all_posts http_get fuel (Some L)) = Returns all ->
  Z.of_nat (length all) <= L.
Proof.
  intros HL Hfair. unfold fetch_all_posts.
  rewrite (set_limit_positive L HL).
  apply (fetch_loop_capped http_get L HL fuel Hfair). cbn [length]. lia.
Qed.

Lemma ghost_api_is_fair (db : list post) (p l : Z) (posts : list post) :
  1 <= l -> posts_of (ghost_api db p l) = Some posts ->
  Z.of_nat (length posts) <= l.
Proof.
  unfold ghost_api. intros Hl.
  destruct ((p <=? 0) || (l <=? 0)); [discriminate|].
  cbn. intros H. injection H as <-. rewrite length_firstn. lia.
Qed.

Lemma limit_caps_the_result_witness :
  let db := numbered_posts 220 in
  Z.of_nat (length (firstn 200 db ++ firstn 50 (skipn 100 db))) <= 250.
Proof.
  intros db.
  apply (limit_caps_the_result (ghost_api db) 250 3).
  - lia.
  - apply ghost_api_is_fair.
  - vm_compute. reflexivity.
Defined.

(** The condition on the endpoint is needed: one that sends a post more
    than asked for takes the list over the limit. *)
Remark generous_endpoint_exceeds_limit :
  outcome_of (fetch_all_posts generous_api 1 (Some 3))
  = Returns (repeat demo_post 4).
Proof. vm_compute. reflexivity. Qed.

(** X6. Without a limit (or with the limit 0) nothing in the loop bounds
    the number of pages: against an endpoint that answers every request
    with 100 posts or more the loop never leaves, it has sent as many
    requests as it was given rounds and is still running. *)
Theorem no_limit_no_end
    (http_get : Z -> Z -> response) (limit : option Z) (fuel : nat) :
  set_limit limit = None ->
  (forall p l, exists posts,
        http_get p l = Body (Some posts) /\ 100 <= Z.of_nat (length posts)) ->
  outcome_of (fetch_all_posts http_get fuel limit) = OutOfFuel /\
  length (events_of (fetch_all_posts http_get fuel limit)) = fuel.
Proof.
  intros Hset Hfull. unfold fetch_all_posts. rewrite Hset.
  change (Z.min 100 100) with 100.
  generalize (@nil post). generalize 1.
  induction fuel as [|fuel IH]; intros page all_posts; [split; reflexivity|].
  unfold outcome_of, events_of. rewrite fetch_loop_step. cbn zeta.
  unfold requested, reached. rewrite Hset.
  destruct (Hfull page 100) as (posts & -> & Hlen). cbn [posts_of].
  destruct (Nat.eqb_spec (length posts) 0) as [H0|H0]; [lia|].
  destruct (Z.ltb_spec (Z.of_nat (length posts)) 100) as [Hs|Hs]; [lia|].
  specialize (IH (page + 1) (all_posts ++ posts)).
  unfold outcome_of, events_of in IH.
  destruct (fetch_loop _ _ _ _ _ _ O) as [[o evs] t']. cbn [fst snd] in *.
  destruct IH as [-> <-]. split; reflexivity.
Qed.

Lemma no_limit_no_end_witness :
  outcome_of (fetch_all_posts endless_api 4 (Some 0)) = OutOfFuel /\
  length (events_of (fetch_all_posts endless_api 4 (Some 0))) = 4%nat.
Proof.
  apply (no_limit_no_end endless_api (Some 0) 4).
  - reflexivity.
  - intros p l. exists (repeat demo_post 100). split; [reflexivity|].
    rewrite repeat_length. lia.
Defined.

(** X7. A negative limit is not refused: [fetch_all_posts] passes it on as
    the page size of its first request, sends no second request, and
    returns whatever posts the endpoint answers with, or raises its
    failure. *)
Theorem negative_limit_asks_once
    (http_get : Z -> Z -> response) (L : Z) (fuel : nat) :
  L < 0 ->
  events_of (fetch_all_posts http_get (S fuel) (Some L)) = [Request 1 L] /\
  outcome_of (fetch_all_posts http_get (S fuel) (Some L))
  = match http_get 1 L with
    | Failure e => Raises (RequestError e)
    | Body (Some posts) => Returns posts
    | Body None => Returns []
    end.
Proof.
  intros HL. unfold fetch_all_posts, outcome_of, events_of.
  assert (Hset : set_limit (Some L) = Some L).
  { unfold set_limit. destruct (Z.eqb_spec L 0); [lia|reflexivity]. }
  rewrite fetch_loop_step. cbn zeta. unfold requested, reached.
  rewrite Hset. cbn [length app].
  replace (Z.min (L - Z.of_nat 0) (Z.min L 100)) with L by lia.
  destruct (http_get 1 L) as [e|[posts|]]; cbn [posts_of];
    [split; reflexivity| |split; reflexivity].
  destruct (Nat.eqb_spec (length posts) 0) as [H0|H0].
  { destruct posts; [|discriminate]. split; reflexivity. }
  destruct (Z.ltb_spec (Z.of_nat (length posts)) (Z.min L 100)); [lia|].
  destruct (Z.geb_spec (Z.of_nat (length posts)) L); [|lia].
  split; reflexivity.
Qed.

Lemma negative_limit_asks_once_witness :
  events_of (fetch_all_posts endless_api 3 (Some (-5))) = [Request 1 (-5)] /\
  outcome_of (fetch_all_posts endless_api 3 (Some (-5)))
  = match endless_api 1 (-5) with
    | Failure e => Raises (RequestError e)
    | Body (Some posts) => Returns posts
    | Body None => Returns []
    end.
Proof.
  apply (negative_limit_asks_once endless_api (-5) 2). lia.
Defined.

(** ** Extras on the fetch against offset pagination *)

Lemma ghost_page_length (db : list post) (j lim : Z) :
  0 <= j -> 0 < lim -> j * lim + lim <= Z.of_nat (length db) ->
  Z.of_nat (length (firstn (Z.to_nat lim) (skipn (Z.to_nat (j * lim)) db)))
  = lim.
Proof.
  intros Hj Hlim Hoff. rewrite length_firstn, length_skipn.
  assert (H0 : 0 <= j * lim) by nia.
  revert H0 Hoff. generalize (j * lim). intros off H0 Hoff. lia.
Qed.

(** The loop of full pages on the way to a limit above 100. *)
Lemma fetch_loop_limited_result (db : list post) (L : Z) :
  100 < L <= Z.of_nat (length db) ->
  forall (fuel : nat) (j : Z),
    0 <= j ->
    100 * j < L ->
    L - 100 * j <= 100 * Z.of_nat fuel ->
    outcome_of (fetch_loop (ghost_api db) fuel (Some L) 100 (j + 1)
                  (firstn (Z.to_nat (100 * j)) db))
    = Returns (limited_result db L).
Proof.
  intros HL.
  assert (Hset : set_limit (Some L) = Some L)
    by (apply set_limit_positive; lia).
  induction fuel as [|fuel IH]; intros j Hj Hlt Hfuel; [lia|].
  unfold outcome_of. rewrite fetch_loop_step.
  unfold requested, reached. rewrite Hset. cbn zeta.
  assert (Hacc : Z.of_nat (length (firstn (Z.to_nat (100 * j)) db)) = 100 * j)
    by (rewrite length_firstn; lia).
  rewrite Hacc.
  set (lim := Z.min (L - 100 * j) 100).
  assert (Hlim : 1 <= lim <= 100) by (unfold lim; lia).
  assert (Hoff : j * lim + lim <= Z.of_nat (length db)).
  { assert (j * lim <= j * 100) by nia. unfold lim in *. lia. }
  rewrite ghost_page by lia. cbn [posts_of].
  pose proof (ghost_page_length db j lim Hj ltac:(lia) Hoff) as Hlen.
  set (posts := firstn (Z.to_nat lim) (skipn (Z.to_nat (j * lim)) db)) in *.
  destruct (Nat.eqb_spec (length posts) 0) as [H0|H0]; [lia|].
  rewrite length_app, Nat2Z.inj_add, Hacc, Hlen.
  destruct (Z.ltb_spec lim 100) as [Hs|Hs].
  - cbn [fst]. f_equal. unfold limited_result. cbn zeta.
    assert (Hk : L / 100 = j /\ L mod 100 = lim)
      by (unfold lim in *; Z.div_mod_to_equations; lia).
    destruct Hk as [-> ->]. reflexivity.
  - assert (Hfull : lim = 100) by lia.
    assert (Hnext : firstn (Z.to_nat (100 * j)) db ++ posts
                    = firstn (Z.to_nat (100 * (j + 1))) db).
    { unfold posts. rewrite Hfull.
      replace (Z.to_nat (100 * (j + 1)))
        with (Z.to_nat (100 * j) + Z.to_nat 100)%nat by lia.
      rewrite firstn_plus. now replace (j * 100) with (100 * j) by lia. }
    rewrite Hnext.
    destruct (Z.geb_spec (100 * j + lim) L) as [Hr|Hr].
    + cbn [fst]. f_equal. unfold limited_result. cbn zeta.
      assert (Hk : L / 100 = j + 1 /\ L mod 100 = 0)
        by (Z.div_mod_to_equations; lia).
      destruct Hk as [-> ->]. cbn [Z.to_nat firstn]. now rewrite app_nil_r.
    + specialize (IH (j + 1)). unfold outcome_of in IH.
      destruct (fetch_loop _ _ _ _ _ _ O) as [[o evs] t'].
      cbn [fst] in *. apply IH; lia.
Qed.

Lemma fetch_all_posts_limited_result (db : list post) (L : Z) (fuel : nat) :
  1 <= L <= Z.of_nat (length db) ->
  L <= 100 * Z.of_nat fuel ->
  outcome_of (fetch_all_posts (ghost_api db) fuel (Some L))
  = Returns (limited_result db L).
Proof.
  intros HL Hfuel. unfold fetch_all_posts.
  rewrite (set_limit_positive L) by lia.
  destruct (Z.leb_spec L 100) as [Hsmall|Hbig].
  - replace (Z.min L 100) with L by lia.
    destruct fuel as [|fuel]; [lia|].
    unfold outcome_of. rewrite fetch_loop_step.
    unfold requested, reached. rewrite (set_limit_positive L) by lia.
    cbn zeta. cbn [length].
    replace (Z.min (L - Z.of_nat 0) L) with L by lia.
    change (ghost_api db 1 L) with (ghost_api db (0 + 1) L).
    rewrite (ghost_page db 0 L) by lia. cbn [posts_of].
    pose proof (ghost_page_length db 0 L ltac:(lia) ltac:(lia) ltac:(lia))
      as Hlen.
    set (posts := firstn (Z.to_nat L) (skipn (Z.to_nat (0 * L)) db)) in *.
    destruct (Nat.eqb_spec (length posts) 0) as [H0|H0]; [lia|].
    destruct (Z.ltb_spec (Z.of_nat (length posts)) L); [lia|].
    cbn [app].
    destruct (Z.geb_spec (Z.of_nat (length posts)) L); [|lia].
    cbn [fst]. f_equal. unfold limited_result, posts. cbn zeta.
    destruct (Z.eq_dec L 100) as [->|Hne].
    + cbn. now rewrite app_nil_r.
    + assert (Hk : L / 100 = 0 /\ L mod 100 = L)
        by (Z.div_mod_to_equations; lia).
      destruct Hk as [-> ->]. reflexivity.
  - replace (Z.min L 100) with 100 by lia.
    apply (fetch_loop_limited_result db L ltac:(lia) fuel 0); lia.
Qed.

Lemma limited_result_prefix (db : list post) (L : Z) :
  0 <= L -> L <= 100 \/ L mod 100 = 0 ->
  limited_result db L = firstn (Z.to_nat L) db.
Proof.
  intros HL Hcase. unfold limited_result. cbn zeta.
  destruct (Z.eq_dec (L mod 100) 0) as [Hr|Hr].
  - rewrite Hr. cbn [Z.to_nat firstn]. rewrite app_nil_r. f_equal.
    revert Hr. Z.div_mod_to_equations. lia.
  - assert (Hk : L / 100 = 0 /\ L mod 100 = L)
      by (Z.div_mod_to_equations; lia).
    destruct Hk as [-> ->]. reflexivity.
Qed.

(** X8. Against offset pagination, for a limit [L] between 1 and the
    number of posts upstream, [fetch_all_posts] returns the full pages of
    100 followed by a last page of [L mod 100] posts taken from offset
    [(L / 100) * (L mod 100)]; when [L] is at most 100 or a multiple of
    100, that is the first [L] posts of the source, in order. *)
Theorem limited_fetch_is_a_prefix_for_round_limits
    (db : list post) (L : Z) (fuel : nat) :
  1 <= L <= Z.of_nat (length db) ->
  L <= 100 * Z.of_nat fuel ->
  outcome_of (fetch_all_posts (ghost_api db) fuel (Some L))
  = Returns (limited_result db L) /\
  (L <= 100 \/ L mod 100 = 0 ->
   outcome_of (fetch_all_posts (ghost_api db) fuel (Some L))
   = Returns (firstn (Z.to_nat L) db)).
Proof.
  intros HL Hfuel.
  pose proof (fetch_all_posts_limited_result db L fuel HL Hfuel) as H.
  split; [exact H|]. intros Hcase.
  now rewrite H, limited_result_prefix by (lia || exact Hcase).
Qed.

Lemma limited_fetch_is_a_prefix_for_round_limits_witness :
  let db := numbered_posts 300 in
  outcome_of (fetch_all_posts (ghost_api db) 2 (Some 200))
  = Returns (limited_result db 200) /\
  (200 <= 100 \/ 200 mod 100 = 0 ->
   outcome_of (fetch_all_posts (ghost_api db) 2 (Some 200))
   = Returns (firstn (Z.to_nat 200) db)).
Proof.
  intros db.
  apply (limited_fetch_is_a_prefix_for_round_limits db 200 2).
  - unfold db, numbered_posts. rewrite length_map, length_seq. lia.
  - lia.
Defined.

Lemma in_both_no_NoDup {A} (x : A) (a b : list A) :
  In x a -> In x b -> ~ NoDup (a ++ b).
Proof.
  induction a as [|y a IH]; [intros []|].
  intros Ha Hb Hnd. cbn in Hnd. inversion Hnd as [|? ? Hy Hrest]; subst.
  destruct Ha as [->|Ha].
  - apply Hy. apply in_or_app. now right.
  - now apply (IH Ha Hb).
Qed.

(** The post at offset [(L / 100) * (L mod 100)] is on a full page and on
    the last page. *)
Lemma limited_result_repeats (db : list post) (L : Z) :
  100 < L <= Z.of_nat (length db) -> L mod 100 <> 0 ->
  ~ NoDup (limited_result db L).
Proof.
  intros HL Hr. unfold limited_result. cbn zeta.
  set (k := L / 100). set (r := L mod 100).
  assert (Hkr : 1 <= k /\ 0 < r < 100 /\ L = 100 * k + r)
    by (unfold k, r in *; Z.div_mod_to_equations; lia).
  destruct Hkr as (Hk & Hr' & HLk).
  assert (Hoff : 0 <= k * r /\ k * r < 100 * k) by nia.
  destruct (skipn (Z.to_nat (k * r)) db) as [|x rest] eqn:Hskip.
  { apply (f_equal (@length post)) in Hskip.
    rewrite length_skipn in Hskip. cbn in Hskip. lia. }
  apply (in_both_no_NoDup x).
  - replace (Z.to_nat (100 * k))
      with (Z.to_nat (k * r) + S (Z.to_nat (100 * k - k * r - 1)))%nat
      by lia.
    rewrite firstn_plus, Hskip. apply in_or_app. right. now left.
  - replace (Z.to_nat r) with (S (Z.to_nat (r - 1))) by lia. now left.
Qed.

(** X9. Against offset pagination, for a limit [L] above 100 that is no
    multiple of 100 and at most the number of posts upstream, the list
    that [fetch_all_posts] returns holds some post twice: the last page is
    asked for with the remainder as its size, so that it starts before the
    end of the full pages.  When the posts of the source are distinct, it
    is therefore not the first [L] posts of the source. *)
Theorem limited_fetch_repeats_posts
    (db : list post) (L : Z) (fuel : nat) :
  100 < L <= Z.of_nat (length db) ->
  L mod 100 <> 0 ->
  L <= 100 * Z.of_nat fuel ->
  exists all,
    outcome_of (fetch_all_posts (ghost_api db) fuel (Some L)) = Returns all /\
    ~ NoDup all /\
    (NoDup db -> all <> firstn (Z.to_nat L) db).
Proof.
  intros HL Hr Hfuel. exists (limited_result db L).
  split; [apply fetch_all_posts_limited_result; lia|].
  pose proof (limited_result_repeats db L HL Hr) as Hrep.
  split; [exact Hrep|].
  intros Hnd Heq. apply Hrep. rewrite Heq.
  rewrite <- (firstn_skipn (Z.to_nat L) db) in Hnd.
  now apply NoDup_app_remove_r in Hnd.
Qed.

Lemma limited_fetch_repeats_posts_witness :
  let db := numbered_posts 300 in
  exists all,
    outcome_of (fetch_all_posts (ghost_api db) 3 (Some 250)) = Returns all /\
    ~ NoDup all /\
    (NoDup db -> all <> firstn (Z.to_nat 250) db).
Proof.
  intros db. apply (limited_fetch_repeats_posts db 250 3).
  - unfold db, numbered_posts. rewrite length_map, length_seq. lia.
  - discriminate.
  - lia.
Defined.

(* ================================================================== *)
(** * Further properties of the writers *)

(** ** Extras on the name of a text file *)

(** Replacing the characters of a class one by one is a map. *)
Lemma sub_class_map (cls : N -> bool) (x : N) (fuel : nat) :
  forall s,
    (length s < fuel)%nat ->
    sub_loop fuel (Class cls) [x] s
    = map (fun c => if cls c then x else c) s.
Proof.
  induction fuel as [|fuel IH]; intros s Hlen; [lia|].
  destruct s as [|c s]; [reflexivity|].
  cbn [sub_loop map]. unfold match_at. cbn [rmatch].
  cbn [length] in Hlen.
  destruct (cls c).
  - destruct (Nat.ltb_spec (length s) (length (c :: s))) as [_|H];
      [|cbn in H; lia].
    cbn [app]. f_equal. apply IH. lia.
  - f_equal. apply IH. lia.
Qed.

Lemma sub_illegal_is_sanitize (title : str) :
  Re.sub illegal_in_filename (u "_") title = sanitize title.
Proof.
  unfold Re.sub, illegal_in_filename, sanitize.
  change (u "_") with [chr "_"]. apply sub_class_map. lia.
Qed.

Lemma sanitize_legal (title : str) :
  Forall (fun c => illegal_char c = false) (sanitize title).
Proof.
  unfold sanitize. apply Forall_forall. intros c Hc.
  apply in_map_iff in Hc as (c0 & <- & _).
  destruct (illegal_char c0) eqn:E; [reflexivity|exact E].
Qed.

(** X10. The file that [save_as_txt] writes for a post is named by the
    slug, an underscore, the title and [.txt].  The part that comes from
    the title is the title with each of the nine characters that are not
    allowed in a file name replaced by an underscore, cut after 50 code
    points: it has the length of the title or 50, whichever is less, and
    holds none of the nine characters.  The slug goes into the name as it
    is. *)
Theorem txt_name_is_sanitized
    (repr : value -> str) (output_path : path) (p : post)
    (f : path * str) :
  txt_file repr output_path p = Ok f ->
  exists title,
    get p (u "title") (VStr (u "untitled")) = VStr title /\
    let slug :=
      get p (u "slug")
        (VStr (u "post-" ++ py_str repr (get p (u "id") (VStr (u "unknown")))))
    in
    let part := firstn 50 (sanitize title) in
    fst f = Div output_path (py_str repr slug ++ u "_" ++ part ++ u ".txt") /\
    length part = Nat.min 50 (length title) /\
    Forall (fun c => illegal_char c = false) part.
Proof.
  unfold txt_file. intros H.
  destruct (get p (u "title") (VStr (u "untitled"))) as [| | |title| |];
    try discriminate.
  cbn [re_sub rbind] in H.
  apply rbind_ok in H as (text & _ & H).
  apply rbind_ok in H as (tags & _ & H).
  apply rbind_ok in H as (tags' & _ & H).
  apply rbind_ok in H as (authors & _ & H).
  apply rbind_ok in H as (authors' & _ & H).
  injection H as <-. exists title. split; [reflexivity|].
  cbn zeta. cbn [fst]. rewrite sub_illegal_is_sanitize.
  split; [reflexivity|]. split.
  - rewrite length_firstn. unfold sanitize. now rewrite length_map.
  - apply Forall_forall. intros c Hc.
    assert (Hin : In c (sanitize title)).
    { rewrite <- (firstn_skipn 50). apply in_or_app. now left. }
    exact (proj1 (Forall_forall _ _) (sanitize_legal title) c Hin).
Qed.

Lemma txt_name_is_sanitized_witness :
  let p := [(u "slug", VStr (u "a/b")); (u "title", VStr (u "What? <now>"))] in
  exists title,
    get p (u "title") (VStr (u "untitled")) = VStr title /\
    let slug :=
      get p (u "slug")
        (VStr (u "post-"
              ++ py_str demo_repr (get p (u "id") (VStr (u "unknown")))))
    in
    let part := firstn 50 (sanitize title) in
    Div (Path (u "txt")) (u "a/b_What_ _now_.txt")
    = Div (Path (u "txt")) (py_str demo_repr slug ++ u "_" ++ part ++ u ".txt")
    /\ length part = Nat.min 50 (length title)
    /\ Forall (fun c => illegal_char c = false) part.
Proof.
  intros p.
  apply (txt_name_is_sanitized demo_repr (Path (u "txt")) p
           (Div (Path (u "txt")) (u "a/b_What_ _now_.txt"),
            snd (match txt_file demo_repr (Path (u "txt")) p with
                 | Ok f => f
                 | Error _ => (Path [], [])
                 end))).
  vm_compute. reflexivity.
Defined.

(** ** Extras on [strip_html_tags] *)

Lemma match_at_other_head (c : N) (lit : str) (r : regex) (s : str) :
  match s with
  | b :: _ => b <> c
  | [] => True
  end ->
  match_at (Cat (Chars (c :: lit)) r) s = None.
Proof.
  unfold match_at. cbn [rmatch]. destruct s as [|b s]; [reflexivity|].
  intros Hb. cbn [strip_prefix].
  destruct (N.eqb_spec c b); [congruence|reflexivity].
Qed.

(** A pattern that starts with a character leaves a text without that
    character as it is. *)
Lemma sub_loop_without_head (c : N) (lit : str) (r : regex) (repl : str)
    (fuel : nat) :
  forall s, ~ In c s -> sub_loop fuel (Cat (Chars (c :: lit)) r) repl s = s.
Proof.
  induction fuel as [|fuel IH]; intros s Hc; [reflexivity|].
  cbn [sub_loop]. rewrite match_at_other_head.
  - destruct s as [|b s]; [reflexivity|]. f_equal. apply IH.
    intros H. apply Hc. now right.
  - destruct s as [|b s]; [exact I|]. intros ->. apply Hc. now left.
Qed.

Lemma star_newline (s : str) :
  rmatch (Star newline) None s (fun _ rest => Some rest)
  = Some (lstrip_char 10 s).
Proof.
  cbn [rmatch]. induction s as [|c s IH]; [reflexivity|].
  cbn [lstrip_char]. unfold newline at 1.
  destruct (c =? 10)%N; [|reflexivity]. now rewrite IH.
Qed.

Lemma match_at_newlines (s : str) :
  match_at newlines s
  = match s with
    | c :: s' => if (c =? 10)%N then Some (lstrip_char 10 s') else None
    | [] => None
    end.
Proof.
  unfold match_at, newlines. cbn [rmatch]. destruct s as [|c s]; [reflexivity|].
  unfold newline at 1. destruct (c =? 10)%N; [|reflexivity].
  exact (star_newline s).
Qed.

Lemma lstrip_char_length (c : N) (s : str) :
  (length (lstrip_char c s) <= length s)%nat.
Proof.
  induction s as [|b s IH]; cbn; [lia|].
  destruct (b =? c)%N; cbn; lia.
Qed.

Lemma lstrip_char_head (c : N) (s : str) (b : N) (rest : str) :
  lstrip_char c s = b :: rest -> b <> c.
Proof.
  induction s as [|a s IH]; cbn; [discriminate|].
  destruct (N.eqb_spec a c); [exact IH|].
  intros H. injection H as <- _. assumption.
Qed.

Lemma no_blank_run_cons (a b : N) (rest : str) :
  no_blank_run (a :: b :: rest)
  = negb ((a =? 10)%N && (b =? 10)%N) && no_blank_run (b :: rest).
Proof. reflexivity. Qed.

(** Runs of line feeds come out as one line feed each. *)
Lemma sub_newlines_no_blank_run (fuel : nat) :
  forall s,
    (length s < fuel)%nat ->
    no_blank_run (sub_loop fuel newlines nl s) = true /\
    (forall rest, sub_loop fuel newlines nl s = 10%N :: rest ->
                  exists s', s = 10%N :: s').
Proof.
  induction fuel as [|fuel IH]; intros s Hlen; [lia|].
  cbn [sub_loop]. rewrite match_at_newlines.
  destruct s as [|c s]; [split; [reflexivity|discriminate]|].
  cbn [length] in Hlen.
  destruct (N.eqb_spec c 10) as [->|Hc].
  - pose proof (lstrip_char_length 10 s) as Hl.
    destruct (Nat.ltb_spec (length (lstrip_char 10 s)) (length (10%N :: s)))
      as [_|H]; [|cbn in H; lia].
    destruct (IH (lstrip_char 10 s) ltac:(lia)) as [Hnb Hhead].
    split; [|intros rest _; now exists s].
    unfold nl in *. cbn [app].
    destruct (sub_loop fuel newlines [10%N] (lstrip_char 10 s))
      as [|b o] eqn:Ho; [reflexivity|].
    rewrite no_blank_run_cons, Hnb, andb_true_r.
    destruct (N.eqb_spec b 10) as [->|Hb]; [|reflexivity].
    destruct (Hhead o eq_refl) as [s' Hs'].
    now apply lstrip_char_head in Hs'.
  - destruct (IH s ltac:(lia)) as [Hnb Hhead].
    split; [|intros rest H; injection H as H _; congruence].
    destruct (sub_loop fuel newlines nl s) as [|b o] eqn:Ho; [reflexivity|].
    rewrite no_blank_run_cons, Hnb, andb_true_r.
    destruct (N.eqb_spec c 10); [congruence|reflexivity].
Qed.

Lemma no_blank_run_app (a b : str) :
  no_blank_run (a ++ b) = true ->
  no_blank_run a = true /\ no_blank_run b = true.
Proof.
  induction a as [|x a IH]; [now split|].
  destruct a as [|y a].
  - cbn [app]. intros H. split; [reflexivity|].
    destruct b as [|z b]; [reflexivity|].
    cbn [no_blank_run] in H. now apply andb_true_iff in H as [_ H].
  - change ((x :: y :: a) ++ b) with (x :: y :: a ++ b).
    rewrite !no_blank_run_cons. intros H.
    apply andb_true_iff in H as [Hxy H].
    change (y :: a ++ b) with ((y :: a) ++ b) in H.
    destruct (IH H) as [Ha Hb]. split; [|exact Hb].
    now rewrite Hxy.
Qed.

Lemma lstrip_suffix (s : str) : exists a, s = a ++ lstrip s.
Proof.
  induction s as [|c s [a IH]]; [now exists []|].
  cbn [lstrip]. destruct (isspace c).
  - exists (c :: a). cbn. now f_equal.
  - now exists [].
Qed.

Lemma rstrip_prefix (s : str) : exists b, s = rstrip s ++ b.
Proof.
  unfold rstrip. destruct (lstrip_suffix (rev s)) as [a Ha].
  exists (rev a). rewrite <- rev_app_distr, <- Ha. now rewrite rev_involutive.
Qed.

Lemma lstrip_head (s : str) (c : N) (rest : str) :
  lstrip s = c :: rest -> isspace c = false.
Proof.
  induction s as [|a s IH]; cbn [lstrip]; [discriminate|].
  destruct (isspace a) eqn:E; [exact IH|].
  intros H. now injection H as <- _.
Qed.

(** [strip] leaves no white space at either end. *)
Lemma strip_ends (s : str) :
  (forall c rest, strip s = c :: rest -> isspace c = false) /\
  (forall c front, strip s = front ++ [c] -> isspace c = false).
Proof.
  unfold strip. split.
  - intros c rest H. destruct (rstrip_prefix (lstrip s)) as [b Hb].
    rewrite H in Hb. cbn in Hb. now apply lstrip_head in Hb.
  - intros c front H. unfold rstrip in H.
    apply (f_equal (@rev N)) in H.
    rewrite rev_involutive, rev_app_distr in H. cbn in H.
    now apply lstrip_head in H.
Qed.

Lemma strip_infix (s : str) : exists a b, s = a ++ strip s ++ b.
Proof.
  unfold strip. destruct (lstrip_suffix s) as [a Ha].
  destruct (rstrip_prefix (lstrip s)) as [b Hb].
  exists a, b. now rewrite <- Hb.
Qed.

Lemma sub_newlines_without (repl : str) (fuel : nat) :
  forall s, ~ In 10%N s -> sub_loop fuel newlines repl s = s.
Proof.
  induction fuel as [|fuel IH]; intros s Hs; [reflexivity|].
  cbn [sub_loop]. rewrite match_at_newlines.
  destruct s as [|c s]; [reflexivity|].
  destruct (N.eqb_spec c 10) as [->|Hc]; [exfalso; apply Hs; now left|].
  f_equal. apply IH. intros H. apply Hs. now right.
Qed.

(** X11. A text that holds neither [<] nor a line feed goes through
    [strip_html_tags] unchanged but for the white space at its ends: the
    function returns [text.strip()].  Nothing else of such a text is
    touched: [>], [&] and entities such as [&amp;] stay as they are. *)
Theorem plain_text_is_only_stripped (s : str) :
  ~ In (chr "<") s ->
  ~ In 10%N s ->
  strip_html_tags (VStr s) = Ok (strip s).
Proof.
  intros Hlt Hnl. unfold strip_html_tags.
  destruct s as [|c s]; [reflexivity|].
  cbn [truthy length Nat.eqb negb re_sub rbind].
  unfold Re.sub, script_style_block, any_tag.
  change (u "<") with [chr "<"].
  rewrite (sub_loop_without_head (chr "<") _ _ [] _ (c :: s) Hlt).
  rewrite (sub_loop_without_head (chr "<") _ _ nl _ (c :: s) Hlt).
  now rewrite sub_newlines_without.
Qed.

Lemma plain_text_is_only_stripped_witness :
  strip_html_tags (VStr (u "  Tom &amp; Jerry > all  "))
  = Ok (strip (u "  Tom &amp; Jerry > all  ")).
Proof.
  apply plain_text_is_only_stripped.
  - vm_compute. intros H. repeat (destruct H as [H|H]; [discriminate|]).
    exact H.
  - vm_compute. intros H. repeat (destruct H as [H|H]; [discriminate|]).
    exact H.
Defined.

(** X12. Whatever [strip_html_tags] returns has no white space at its
    start, none at its end, and no two line feeds in a row: tags and runs
    of line feeds leave one line feed each. *)
Theorem stripped_text_is_trimmed (html_content : value) (out : str) :
  strip_html_tags html_content = Ok out ->
  (forall c rest, out = c :: rest -> isspace c = false) /\
  (forall c front, out = front ++ [c] -> isspace c = false) /\
  no_blank_run out = true.
Proof.
  unfold strip_html_tags. destruct (truthy html_content); cbn [negb].
  - destruct html_content as [| | |s| |]; try discriminate.
    cbn [re_sub rbind]. intros H. injection H as <-.
    set (t := Re.sub any_tag nl (Re.sub script_style_block [] s)).
    destruct (strip_ends (Re.sub newlines nl t)) as [Hhead Hlast].
    split; [exact Hhead|]. split; [exact Hlast|].
    destruct (strip_infix (Re.sub newlines nl t)) as (a & b & Hab).
    destruct (sub_newlines_no_blank_run (S (length t)) t ltac:(lia))
      as [Hnb _].
    fold (Re.sub newlines nl t) in Hnb. rewrite Hab in Hnb.
    apply no_blank_run_app in Hnb as [_ Hnb].
    now apply no_blank_run_app in Hnb as [Hnb _].
  - intros H. injection H as <-. split; [discriminate|].
    split; [|reflexivity]. intros c front H. now destruct front.
Qed.

Lemma stripped_text_is_trimmed_witness :
  let out := u "Hello" ++ nl ++ u "World" in
  (forall c rest, out = c :: rest -> isspace c = false) /\
  (forall c front, out = front ++ [c] -> isspace c = false) /\
  no_blank_run out = true.
Proof.
  intros out.
  apply (stripped_text_is_trimmed
           (VStr (u " <div><p>Hello</p>" ++ nl ++ nl ++ nl
                  ++ u "<p>World</p></div> "))).
  vm_compute. reflexivity.
Defined.

(** ** Extras on [save_index], [save_as_txt] and [save_as_json] *)

Lemma index_loop_entries (posts : list post) :
  forall index index',
    index_loop posts index = Ok index' ->
    exists entries,
      index' = index ++ entries /\
      Forall2 (fun p e => index_entry p = Ok e) posts entries.
Proof.
  induction posts as [|p rest IH]; intros index index'; cbn [index_loop].
  - intros H. injection H as <-. exists []. now rewrite app_nil_r.
  - intros H. apply rbind_ok in H as (e & He & H).
    apply IH in H as (entries & -> & Hall).
    exists (e :: entries). split; [now rewrite <- app_assoc|].
    now constructor.
Qed.

Lemma index_entry_fields (p : post) (e : value) :
  index_entry p = Ok e ->
  subscript e (u "id") = Ok (get p (u "id") VNone) /\
  subscript e (u "slug") = Ok (get p (u "slug") VNone) /\
  subscript e (u "title") = Ok (get p (u "title") VNone) /\
  subscript e (u "url") = Ok (get p (u "url") VNone) /\
  subscript e (u "html") = Error (KeyError (u "html")) /\
  subscript e (u "authors") = Error (KeyError (u "authors")).
Proof.
  unfold index_entry. intros H. apply rbind_ok in H as (tags & _ & H).
  injection H as <-. repeat split; reflexivity.
Qed.

(** X13. When [save_index] returns, it has written one file, [index.json]
    in the output directory, and the list in it has one entry for each
    post, in the order of the posts; the entry of a post holds the id, the
    slug, the title and the url of that post ([None] for one that is
    absent) and neither its body nor its authors. *)
Theorem index_has_one_entry_per_post
    (os_fails : path -> bool) (posts : list post) (output_dir : path)
    (t : nat) (f : path) (evs : list event) (t' : nat) :
  save_index os_fails posts output_dir t = (Returns f, evs, t') ->
  f = Div output_dir (u "index.json") /\
  exists entries,
    evs = [Wrote IndexFile f (JsonDump (VList entries))] /\
    length entries = length posts /\
    Forall2 (fun p e =>
               subscript e (u "id") = Ok (get p (u "id") VNone) /\
               subscript e (u "slug") = Ok (get p (u "slug") VNone) /\
               subscript e (u "title") = Ok (get p (u "title") VNone) /\
               subscript e (u "url") = Ok (get p (u "url") VNone) /\
               subscript e (u "html") = Error (KeyError (u "html")) /\
               subscript e (u "authors") = Error (KeyError (u "authors")))
            posts entries.
Proof.
  unfold save_index. intros H.
  apply bind_returns in H as (index & evs1 & t1 & evs2 & Hix & H & ->).
  destruct (index_loop posts []) as [ix|e] eqn:Hloop; [|discriminate].
  cbn in Hix. injection Hix as <- <- <-.
  apply bind_returns in H as (y & evs1 & t1 & evs3 & Hw & H & ->).
  apply write_file_returns in Hw as [-> ->].
  unfold ret in H. injection H as <- <- <-.
  split; [reflexivity|].
  apply index_loop_entries in Hloop as (entries & -> & Hall).
  exists entries. split; [reflexivity|]. split.
  - symmetry. exact (Forall2_length Hall).
  - clear -Hall. induction Hall as [|p e ps es Hpe _ IH]; constructor.
    + now apply index_entry_fields.
    + exact IH.
Qed.

Lemma index_has_one_entry_per_post_witness :
  let dir := Path (u "ghost_posts") in
  let posts := [demo_post; bare_post] in
  Div dir (u "index.json") = Div dir (u "index.json") /\
  exists entries,
    events_of (save_index os_ok posts dir)
    = [Wrote IndexFile (Div dir (u "index.json")) (JsonDump (VList entries))]
    /\ length entries = length posts
    /\ Forall2 (fun p e =>
               subscript e (u "id") = Ok (get p (u "id") VNone) /\
               subscript e (u "slug") = Ok (get p (u "slug") VNone) /\
               subscript e (u "title") = Ok (get p (u "title") VNone) /\
               subscript e (u "url") = Ok (get p (u "url") VNone) /\
               subscript e (u "html") = Error (KeyError (u "html")) /\
               subscript e (u "authors") = Error (KeyError (u "authors")))
            posts entries.
Proof.
  intros dir posts.
  apply (index_has_one_entry_per_post os_ok posts dir O
           (Div dir (u "index.json"))
           (events_of (save_index os_ok posts dir)) O).
  vm_compute. reflexivity.
Defined.

Lemma save_as_txt_loop_files (os_fails : path -> bool) (repr : value -> str)
    (output_path : path) (posts : list post) :
  forall saved t files evs t',
    save_as_txt_loop os_fails repr output_path posts saved t
    = (Returns files, evs, t') ->
    exists fs,
      Forall2 (fun p f => txt_file repr output_path p = Ok f) posts fs /\
      files = saved ++ map fst fs /\
      evs = map (fun f => Wrote TxtFile (fst f) (Text (snd f))) fs.
Proof.
  induction posts as [|p rest IH]; intros saved t files evs t' H.
  - cbn in H. injection H as <- <- _. exists [].
    split; [constructor|]. now rewrite app_nil_r.
  - cbn [save_as_txt_loop] in H.
    apply bind_returns in H as (f & evs1 & t1 & evs2 & Hf & H & ->).
    destruct (txt_file repr output_path p) as [f'|e] eqn:Hfile;
      [|discriminate].
    cbn in Hf. injection Hf as <- <- <-.
    apply bind_returns in H as (y & evs1 & t1 & evs3 & Hw & H & ->).
    apply write_file_returns in Hw as [-> ->].
    apply IH in H as (fs & Hall & -> & ->).
    exists (f' :: fs). split; [now constructor|].
    split; [now rewrite <- app_assoc|reflexivity].
Qed.

(** X14. When [save_as_txt] returns, it has ensured its directory and
    then written one text file for each post, in the order of the posts,
    each with the name and the text that the post gives; the list it
    returns is the list of the paths it wrote, in that order. *)
Theorem txt_files_follow_the_posts
    (os_fails : path -> bool) (repr : value -> str) (posts : list post)
    (output_dir : path) (t : nat) (files : list path) (evs : list event)
    (t' : nat) :
  save_as_txt os_fails repr posts output_dir t = (Returns files, evs, t') ->
  exists fs,
    Forall2 (fun p f => txt_file repr output_dir p = Ok f) posts fs /\
    evs = Mkdir output_dir
          :: map (fun f => Wrote TxtFile (fst f) (Text (snd f))) fs /\
    files = map fst fs /\
    length files = length posts.
Proof.
  unfold save_as_txt. intros H.
  apply bind_returns in H as (x & evs1 & t1 & evs2 & Hmk & H & ->).
  apply mkdir_returns in Hmk as [-> ->].
  apply save_as_txt_loop_files in H as (fs & Hall & -> & ->).
  exists fs. split; [exact Hall|]. split; [reflexivity|].
  split; [reflexivity|].
  cbn [app]. rewrite length_map. symmetry. exact (Forall2_length Hall).
Qed.

Lemma txt_files_follow_the_posts_witness :
  let dir := Path (u "txt") in
  let posts := [demo_post; bare_post] in
  exists fs,
    Forall2 (fun p f => txt_file demo_repr dir p = Ok f) posts fs /\
    events_of (save_as_txt os_ok demo_repr posts dir)
    = Mkdir dir :: map (fun f => Wrote TxtFile (fst f) (Text (snd f))) fs /\
    [Div dir (u "hello_Hello.txt"); Div dir (u "post-2_untitled.txt")]
    = map fst fs /\
    length [Div dir (u "hello_Hello.txt"); Div dir (u "post-2_untitled.txt")]
    = length posts.
Proof.
  intros dir posts.
  apply (txt_files_follow_the_posts os_ok demo_repr posts dir O
           [Div dir (u "hello_Hello.txt"); Div dir (u "post-2_untitled.txt")]
           (events_of (save_as_txt os_ok demo_repr posts dir)) O).
  vm_compute. reflexivity.
Defined.

(** X15. When [save_as_json] returns, it has read the clock twice and
    written one file, named after the first reading.  The document in it
    holds the posts, all of them and in their order, under [posts], and
    under [metadata] their number, the address of the blog without its
    trailing slashes, and the second reading of the clock as the time of
    the fetch. *)
Theorem json_dump_holds_the_posts
    (clock : nat -> datetime) (os_fails : path -> bool)
    (self : GhostPostFetcher) (posts : list post) (output_dir : path)
    (t : nat) (f : path) (evs : list event) (t' : nat) :
  save_as_json clock os_fails self posts output_dir t = (Returns f, evs, t') ->
  t' = S (S t) /\
  f = Div output_dir (json_name (clock t)) /\
  exists doc meta,
    evs = [Mkdir output_dir; Wrote JsonFile f (JsonDump doc)] /\
    subscript doc (u "posts") = Ok (VList (map VDict posts)) /\
    subscript doc (u "metadata") = Ok meta /\
    subscript meta (u "total_posts") = Ok (VInt (Z.of_nat (length posts))) /\
    subscript meta (u "source") = Ok (VStr (ghost_url self)) /\
    subscript meta (u "fetched_at") = Ok (VStr (isoformat (clock (S t)))).
Proof.
  unfold save_as_json. intros H.
  apply bind_returns in H as (x & evs1 & t1 & evs2 & Hmk & H & ->).
  apply mkdir_returns in Hmk as [-> ->].
  apply bind_returns in H as (d & evs1 & t1 & evs3 & Hnow & H & ->).
  unfold now in Hnow. injection Hnow as <- <- <-.
  apply bind_returns in H as (d' & evs1 & t1 & evs4 & Hnow & H & ->).
  unfold now in Hnow. injection Hnow as <- <- <-.
  apply bind_returns in H as (y & evs1 & t1 & evs5 & Hw & H & ->).
  apply write_file_returns in Hw as [-> ->].
  unfold ret in H. injection H as <- <- <-.
  split; [reflexivity|]. split; [reflexivity|].
  do 2 eexists. split; [reflexivity|]. repeat split; reflexivity.
Qed.

Lemma json_dump_holds_the_posts_witness :
  let dir := Path (u "ghost_posts") in
  let f := Div dir (u "ghost_posts_20261104_060503.json") in
  let posts := [demo_post; bare_post] in
  5%nat = S (S 3%nat) /\
  f = Div dir (json_name (slow_clock 3%nat)) /\
  exists doc meta,
    snd (fst (save_as_json slow_clock os_ok demo_self posts dir 3%nat))
    = [Mkdir dir; Wrote JsonFile f (JsonDump doc)] /\
    subscript doc (u "posts") = Ok (VList (map VDict posts)) /\
    subscript doc (u "metadata") = Ok meta /\
    subscript meta (u "total_posts") = Ok (VInt (Z.of_nat (length posts))) /\
    subscript meta (u "source") = Ok (VStr (ghost_url demo_self)) /\
    subscript meta (u "fetched_at")
    = Ok (VStr (isoformat (slow_clock (S 3%nat)))).
Proof.
  intros dir f posts.
  apply (json_dump_holds_the_posts slow_clock os_ok demo_self posts dir 3%nat f
           (snd (fst (save_as_json slow_clock os_ok demo_self posts dir 3%nat)))
           5%nat).
  vm_compute. reflexivity.
Defined.

(** ** Extras on [__init__] *)

Lemma lstrip_char_spec (c : N) (s : str) :
  exists n, s = repeat c n ++ lstrip_char c s.
Proof.
  induction s as [|b s [n IH]]; [now exists O|].
  cbn [lstrip_char]. destruct (N.eqb_spec b c) as [->|Hb].
  - exists (S n). cbn. now f_equal.
  - now exists O.
Qed.

Lemma rev_repeat {A} (x : A) (n : nat) : rev (repeat x n) = repeat x n.
Proof.
  induction n as [|n IH]; [reflexivity|].
  cbn. rewrite IH. symmetry. apply repeat_cons.
Qed.

Lemma rstrip_char_spec (c : N) (s : str) :
  (exists n, s = rstrip_char c s ++ repeat c n) /\
  (forall front, rstrip_char c s <> front ++ [c]).
Proof.
  unfold rstrip_char. split.
  - destruct (lstrip_char_spec c (rev s)) as [n Hn]. exists n.
    apply (f_equal (@rev N)) in Hn.
    rewrite rev_involutive, rev_app_distr, rev_repeat in Hn. exact Hn.
  - intros front H. apply (f_equal (@rev N)) in H.
    rewrite rev_involutive, rev_app_distr in H. cbn in H.
    now apply lstrip_char_head in H.
Qed.

(** X16. The fetcher keeps the address of the blog without its trailing
    slashes: [ghost_url] is the address given less the slashes at its end,
    and does not end with a slash.  [base_url] is built from the address as
    it was given, so that every trailing slash of it is still there, before
    [/ghost/api/content]. *)
Theorem init_strips_trailing_slashes (key url : str) :
  let self := init key url in
  api_key self = key /\
  (forall front, ghost_url self <> front ++ [chr "/"]) /\
  exists n,
    url = ghost_url self ++ repeat (chr "/") n /\
    base_url self
    = ghost_url self ++ repeat (chr "/") n ++ u "/ghost/api/content".
Proof.
  cbn zeta. unfold init. cbn [api_key ghost_url base_url].
  destruct (rstrip_char_spec (chr "/") url) as [[n Hn] Hlast].
  split; [reflexivity|]. split; [exact Hlast|].
  exists n. split; [exact Hn|].
  rewrite app_assoc. now rewrite <- Hn.
Qed.

(** ** Extras on [fetch_and_save] and [main] *)

Lemma plain_posts_dump (posts : list post) :
  forallb plain_value (map VDict posts) = forallb plain_post posts.
Proof.
  induction posts as [|p rest IH]; [reflexivity|].
  cbn [map forallb]. now rewrite IH.
Qed.

Section Runs.

Variable http_get : Z -> Z -> response.
Variable clock : nat -> datetime.
Variable os_fails : path -> bool.
Variable repr : value -> str.
Variable stdout : str -> option exn.
Variable abspath : path -> result str.
Variable self : GhostPostFetcher.

(** A run with posts to save: the directory, the requests, and then what the
    writers and the summary do. *)
Lemma fetch_and_save_persists (fuel : nat) (output_dir : path)
    (save_json save_txt : bool) (limit : option Z) (p0 : post)
    (ps : list post) :
  outcome_of (mkdir os_fails output_dir) = Returns tt ->
  outcome_of (fetch_all_posts http_get fuel limit) = Returns (p0 :: ps) ->
  fetch_and_save http_get clock os_fails repr stdout abspath self fuel
    output_dir save_json save_txt limit O
  = match
      bind (if save_json
            then bind (save_as_json clock os_fails self (p0 :: ps) output_dir)
                   (fun json_file =>
                      bind (save_index os_fails (p0 :: ps) output_dir)
                        (fun _ => ret [json_file]))
            else ret [])
        (fun json_files =>
           bind (if save_txt
                 then save_as_txt os_fails repr (p0 :: ps)
                        (Div output_dir (u "txt"))
                 else ret [])
             (fun txt_files =>
                print_summary stdout abspath output_dir (p0 :: ps)
                  json_files txt_files)) O
    with
    | (o, evs, t) =>
        (o, Mkdir output_dir
            :: events_of (fetch_all_posts http_get fuel limit) ++ evs, t)
    end.
Proof.
  intros Hmk Hfetch. unfold fetch_and_save.
  unfold bind at 1. rewrite (mkdir_ensured os_fails output_dir O Hmk).
  unfold bind at 1. rewrite fetch_all_posts_run, Hfetch.
  cbn [length Nat.eqb].
  match goal with
  | |- context [bind ?m ?k O] => destruct (bind m k O) as [[o evs] t]
  end.
  reflexivity.
Qed.

(** X17. When the fetch of [fetch_and_save] raises, [fetch_and_save] raises
    the same exception, and all it has done is to ensure the output
    directory and then to send the requests of the fetch: no file has been
    written. *)
Theorem failed_fetch_writes_nothing (fuel : nat) (output_dir : path)
    (save_json save_txt : bool) (limit : option Z) (e : exn) :
  outcome_of (mkdir os_fails output_dir) = Returns tt ->
  outcome_of (fetch_all_posts http_get fuel limit) = Raises e ->
  let run := fetch_and_save http_get clock os_fails repr stdout abspath self
               fuel output_dir save_json save_txt limit in
  outcome_of run = Raises e /\
  events_of run
  = Mkdir output_dir :: events_of (fetch_all_posts http_get fuel limit) /\
  written (events_of run) = [].
Proof.
  intros Hmk Hfetch run.
  assert (Hrun : run O = (Raises e,
                          Mkdir output_dir
                          :: events_of (fetch_all_posts http_get fuel limit),
                          O)).
  { unfold run, fetch_and_save, bind.
    rewrite (mkdir_ensured os_fails output_dir O Hmk).
    rewrite fetch_all_posts_run, Hfetch. reflexivity. }
  unfold outcome_of, events_of at 1 3. rewrite Hrun. cbn [fst snd].
  split; [reflexivity|]. split; [reflexivity|].
  apply (fetch_all_posts_written http_get fuel limit).
Qed.

(** The writers on plain posts, when the file system does not fail. *)
Section PlainPosts.

Hypothesis os_works : forall p, os_fails p = false.
Hypothesis repr_plain : forall v, plain (repr v) = true.

Lemma save_as_json_ok (posts : list post) (output_dir : path) (t : nat) :
  plain_path output_dir = true ->
  plain (ghost_url self) = true ->
  forallb plain_post posts = true ->
  exists doc,
    save_as_json clock os_fails self posts output_dir t
    = (Returns (Div output_dir (json_name (clock t))),
       [Mkdir output_dir;
        Wrote JsonFile (Div output_dir (json_name (clock t))) (JsonDump doc)],
       S (S t)).
Proof.
  intros Hout Hurl Hplain. unfold save_as_json, bind.
  rewrite (mkdir_plain os_fails os_works output_dir t Hout). unfold now.
  rewrite (write_file_plain os_fails os_works JsonFile
             (Div output_dir (json_name (clock t))) _ (S (S t))).
  - cbn [ret app]. eexists. reflexivity.
  - cbn [plain_path]. now rewrite Hout, json_name_plain.
  - cbn [encodable]. apply plain_dumpable. cbn [plain_value forallb].
    now rewrite plain_isoformat, Hurl, plain_posts_dump, Hplain.
Qed.

Lemma save_as_txt_ok (posts : list post) (output_dir : path) (t : nat) :
  plain_path output_dir = true ->
  forallb plain_post posts = true ->
  forallb txt_ready posts = true ->
  existsb txt_missing posts = false ->
  exists files evs,
    save_as_txt os_fails repr posts output_dir t = (Returns files, evs, t) /\
    length files = length posts /\
    kinds evs = repeat TxtFile (length posts).
Proof.
  intros Hout Hplain Hready Hnamed.
  assert (Hloop : forall saved,
             exists files evs,
               save_as_txt_loop os_fails repr output_dir posts saved t
               = (Returns files, evs, t) /\
               length files = (length saved + length posts)%nat /\
               kinds evs = repeat TxtFile (length posts)).
  { induction posts as [|p rest IH]; intros saved.
    - exists saved, []. cbn [length]. rewrite Nat.add_0_r.
      split; [reflexivity|]. split; reflexivity.
    - cbn [forallb existsb] in Hplain, Hready, Hnamed.
      apply andb_true_iff in Hplain as [Hpl Hplain].
      apply andb_true_iff in Hready as [Hp Hready].
      apply orb_false_iff in Hnamed as [Hpn Hnamed].
      pose proof (txt_file_ready repr output_dir p Hp) as Hfile.
      rewrite Hpn in Hfile. destruct Hfile as [f Hf].
      destruct (txt_file_plain repr output_dir p f repr_plain Hout Hpl Hf)
        as [Hname Htext].
      cbn [save_as_txt_loop]. unfold bind at 1. rewrite Hf. cbn [lift ret].
      unfold bind at 1.
      rewrite (write_file_plain os_fails os_works TxtFile (fst f)
                 (Text (snd f)) t Hname (plain_utf8 _ Htext)).
      destruct (IH Hplain Hready Hnamed (saved ++ [fst f]))
        as (files & evs & -> & Hlen & Hk).
      exists files, ([] ++ [Wrote TxtFile (fst f) (Text (snd f))] ++ evs).
      split; [reflexivity|]. split.
      + rewrite Hlen, length_app. cbn [length]. lia.
      + rewrite !kinds_app, Hk. reflexivity. }
  destruct (Hloop []) as (files & evs & Hrun & Hlen & Hk).
  exists files, ([Mkdir output_dir] ++ evs).
  split; [|split; [exact Hlen|now rewrite kinds_app, Hk]].
  unfold save_as_txt, bind.
  rewrite (mkdir_plain os_fails os_works output_dir t Hout).
  now rewrite Hrun.
Qed.

Lemma save_index_ok (posts : list post) (output_dir : path) (t : nat) :
  plain_path output_dir = true ->
  forallb plain_post posts = true ->
  forallb index_ready posts = true ->
  existsb index_missing posts = false ->
  exists entries,
    save_index os_fails posts output_dir t
    = (Returns (Div output_dir (u "index.json")),
       [Wrote IndexFile (Div output_dir (u "index.json"))
          (JsonDump (VList entries))], t).
Proof.
  intros Hout Hplain Hready Hnamed.
  pose proof (index_loop_ready posts Hready []) as Hloop.
  rewrite Hnamed in Hloop. destruct Hloop as [entries Hloop].
  pose proof (index_loop_plain posts [] entries Hplain eq_refl Hloop)
    as Hentries.
  exists entries. unfold save_index, bind. rewrite Hloop. cbn [lift ret].
  rewrite (write_file_plain os_fails os_works IndexFile
             (Div output_dir (u "index.json")) (JsonDump (VList entries)) t).
  - reflexivity.
  - cbn [plain_path]. now rewrite Hout.
  - apply (plain_dumpable (VList entries)). exact Hentries.
Qed.

End PlainPosts.

Lemma save_index_raises (posts : list post) (output_dir : path) (t : nat) :
  forallb index_ready posts = true ->
  existsb index_missing posts = true ->
  save_index os_fails posts output_dir t
  = (Raises (KeyError (u "name")), [], t).
Proof.
  intros Hready Hmissing.
  pose proof (index_loop_ready posts Hready []) as Hloop.
  rewrite Hmissing in Hloop.
  unfold save_index, bind. now rewrite Hloop.
Qed.

(** The summary on a standard output that takes every line. *)
Lemma bind_print_ok {B} (line : str) (k : unit -> M B) (t : nat) :
  stdout line = None ->
  bind (print stdout line) k t
  = match k tt t with
    | (o, evs, t') => (o, Printed line :: evs, t')
    end.
Proof. intros H. unfold bind. rewrite print_run, H. reflexivity. Qed.

Lemma bind_ret {A B} (a : A) (k : A -> M B) (t : nat) :
  bind (ret a) k t = k a t.
Proof. unfold bind, ret. now destruct (k a t) as [[o evs] t']. Qed.

Lemma print_summary_ok (output_dir : path) (posts : list post)
    (json_files txt_files : list path) (a : str) (t : nat) :
  (forall line, stdout line = None) ->
  abspath output_dir = Ok a ->
  exists evs,
    print_summary stdout abspath output_dir posts json_files txt_files t
    = (Returns tt, evs, t) /\
    written evs = [].
Proof.
  intros Hs Ha. unfold print_summary. rewrite Ha. cbn [lift].
  destruct (negb (Nat.eqb (length json_files) 0)),
           (negb (Nat.eqb (length txt_files) 0));
    repeat first [rewrite bind_print_ok by apply Hs | rewrite bind_ret];
    rewrite print_run, Hs; eexists; split; reflexivity.
Qed.

(** X18. A failure of [save_index] leaves a part of the output behind.
    When the posts fetched hold a tag without a name (their tags being
    lists of mappings) and [save_json] is set, and nothing stands in the
    way of the JSON dump (the strings of the posts, of the output directory
    and of the address of the blog hold neither a null character nor a
    surrogate, and the file system does not fail), [fetch_and_save] raises
    [KeyError] for [name] after the JSON dump has been written: the dump is
    the only file of the run, there is no index, and no text file either,
    whatever [save_txt] is. *)
Theorem index_failure_leaves_the_dump (fuel : nat) (output_dir : path)
    (save_txt : bool) (limit : option Z) (posts : list post) :
  (forall p, os_fails p = false) ->
  plain_path output_dir = true ->
  plain (ghost_url self) = true ->
  forallb plain_post posts = true ->
  outcome_of (fetch_all_posts http_get fuel limit) = Returns posts ->
  forallb index_ready posts = true ->
  existsb index_missing posts = true ->
  let run := fetch_and_save http_get clock os_fails repr stdout abspath self
               fuel output_dir true save_txt limit in
  outcome_of run = Raises (KeyError (u "name")) /\
  kinds (events_of run) = [JsonFile].
Proof.
  intros Hos Hout Hurl Hplain Hfetch Hready Hmissing run.
  destruct posts as [|p0 ps]; [discriminate|].
  assert (Hfk : kinds (events_of (fetch_all_posts http_get fuel limit)) = [])
    by (unfold kinds; now rewrite fetch_all_posts_written).
  destruct (save_as_json_ok Hos (p0 :: ps) output_dir O Hout Hurl Hplain)
    as [doc Hjson].
  assert (Hmk : outcome_of (mkdir os_fails output_dir) = Returns tt)
    by (unfold outcome_of; now rewrite (mkdir_plain os_fails Hos)).
  assert (Hrun : run O
                 = (Raises (KeyError (u "name")),
                    [Mkdir output_dir]
                    ++ events_of (fetch_all_posts http_get fuel limit)
                    ++ [Mkdir output_dir;
                        Wrote JsonFile
                          (Div output_dir (json_name (clock O)))
                          (JsonDump doc)] ++ [],
                    2%nat)).
  { unfold run.
    rewrite (fetch_and_save_persists fuel output_dir true save_txt limit
               p0 ps Hmk Hfetch).
    unfold bind at 1 2. rewrite Hjson. unfold bind at 1.
    rewrite (save_index_raises (p0 :: ps) output_dir 2 Hready Hmissing).
    reflexivity. }
  unfold outcome_of, events_of at 1. rewrite Hrun. cbn [fst snd].
  split; [reflexivity|]. rewrite !kinds_app, Hfk. reflexivity.
Qed.

(** What a run writes for well-formed posts. *)
Lemma fetch_and_save_saves (fuel : nat) (output_dir : path)
    (save_json save_txt : bool) (limit : option Z) (posts : list post)
    (a : str) :
  (forall p, os_fails p = false) ->
  (forall v, plain (repr v) = true) ->
  (forall line, stdout line = None) ->
  abspath output_dir = Ok a ->
  plain_path output_dir = true ->
  plain (ghost_url self) = true ->
  outcome_of (fetch_all_posts http_get fuel limit) = Returns posts ->
  posts <> [] ->
  forallb plain_post posts = true ->
  forallb txt_ready posts = true ->
  existsb txt_missing posts = false ->
  let run := fetch_and_save http_get clock os_fails repr stdout abspath self
               fuel output_dir save_json save_txt limit in
  outcome_of run = Returns tt /\
  kinds (events_of run)
  = (if save_json then [JsonFile; IndexFile] else [])
    ++ (if save_txt then repeat TxtFile (length posts) else []).
Proof.
  intros Hos Hrepr Hstdout Habs Hout Hurl Hfetch Hne Hplain Hready Hnamed run.
  destruct posts as [|p0 ps]; [congruence|].
  assert (Hfk : kinds (events_of (fetch_all_posts http_get fuel limit)) = [])
    by (unfold kinds; now rewrite fetch_all_posts_written).
  assert (Hmk : outcome_of (mkdir os_fails output_dir) = Returns tt)
    by (unfold outcome_of; now rewrite (mkdir_plain os_fails Hos)).
  assert (Hinamed : existsb index_missing (p0 :: ps) = false).
  { clear -Hnamed. induction (p0 :: ps) as [|p l IH]; [reflexivity|].
    cbn [existsb] in *. apply orb_false_iff in Hnamed as [Hp Hl].
    unfold txt_missing in Hp. apply orb_false_iff in Hp as [Hp _].
    unfold index_missing at 1. now rewrite Hp, IH. }
  assert (Hjson : exists files evs t,
             (if save_json
              then bind (save_as_json clock os_fails self (p0 :: ps)
                           output_dir)
                     (fun json_file =>
                        bind (save_index os_fails (p0 :: ps) output_dir)
                          (fun _ => ret [json_file]))
              else ret []) O
             = (Returns files, evs, t) /\
             kinds evs = if save_json then [JsonFile; IndexFile] else []).
  { destruct save_json.
    - destruct (save_as_json_ok Hos (p0 :: ps) output_dir O Hout Hurl Hplain)
        as [doc Hj].
      destruct (save_index_ok Hos (p0 :: ps) output_dir 2 Hout Hplain
                  (txt_ready_index_ready _ Hready) Hinamed) as [es Hi].
      do 3 eexists. unfold bind. rewrite Hj, Hi. cbn [ret].
      split; reflexivity.
    - exists [], [], O. split; reflexivity. }
  destruct Hjson as (jfiles & jevs & jt & Hjson & Hjk).
  assert (Htxt : exists files evs,
             (if save_txt
              then save_as_txt os_fails repr (p0 :: ps)
                     (Div output_dir (u "txt"))
              else ret []) jt
             = (Returns files, evs, jt) /\
             kinds evs
             = if save_txt then repeat TxtFile (length (p0 :: ps)) else []).
  { destruct save_txt.
    - destruct (save_as_txt_ok Hos Hrepr (p0 :: ps)
                  (Div output_dir (u "txt")) jt) as (fs & es & H & _ & Hk);
        try assumption.
      + cbn [plain_path]. now rewrite Hout.
      + now exists fs, es.
    - exists [], []. split; reflexivity. }
  destruct Htxt as (files & tevs & Htxt & Htk).
  destruct (print_summary_ok output_dir (p0 :: ps) jfiles files a jt
              Hstdout Habs) as (sevs & Hsum & Hsw).
  assert (Hrun : run O
                 = (Returns tt,
                    [Mkdir output_dir]
                    ++ events_of (fetch_all_posts http_get fuel limit)
                    ++ jevs ++ tevs ++ sevs, jt)).
  { unfold run.
    rewrite (fetch_and_save_persists fuel output_dir save_json save_txt
               limit p0 ps Hmk Hfetch).
    unfold bind at 1. rewrite Hjson. unfold bind at 1. rewrite Htxt.
    rewrite Hsum. reflexivity. }
  unfold outcome_of, events_of at 1. rewrite Hrun. cbn [fst snd].
  split; [reflexivity|].
  assert (Hsk : kinds sevs = []) by (unfold kinds; now rewrite Hsw).
  rewrite !kinds_app, Hfk, Hjk, Htk, Hsk.
  change (kinds [Mkdir output_dir]) with (@nil artifact).
  cbn [app]. now rewrite app_nil_r.
Qed.

(** X19. [fetch_and_save] saves every collection of well-formed posts when
    nothing stands in its way.  When the fetch returns at least one post,
    each post with a title that is a string, a body that is a string or
    nothing, and tags and authors that are lists of mappings with string
    names; when the strings of the posts, of the output directory and of
    the address of the blog hold neither a null character nor a surrogate;
    when the file system does not fail, the standard output takes every
    line and the working directory is there: then the call returns
    normally, having written the JSON dump and then the index when
    [save_json] is set and then one text file for each post when
    [save_txt] is set. *)
Theorem well_formed_posts_are_saved (fuel : nat) (output_dir : path)
    (save_json save_txt : bool) (limit : option Z) (posts : list post)
    (a : str) :
  (forall p, os_fails p = false) ->
  (forall v, plain (repr v) = true) ->
  (forall line, stdout line = None) ->
  abspath output_dir = Ok a ->
  plain_path output_dir = true ->
  plain (ghost_url self) = true ->
  outcome_of (fetch_all_posts http_get fuel limit) = Returns posts ->
  posts <> [] ->
  forallb plain_post posts = true ->
  forallb txt_ready posts = true ->
  existsb txt_missing posts = false ->
  let run := fetch_and_save http_get clock os_fails repr stdout abspath self
               fuel output_dir save_json save_txt limit in
  outcome_of run = Returns tt /\
  kinds (events_of run)
  = (if save_json then [JsonFile; IndexFile] else [])
    ++ (if save_txt then repeat TxtFile (length posts) else []).
Proof. apply fetch_and_save_saves. Qed.

End Runs.

Lemma failed_fetch_writes_nothing_witness :
  let http_get := flaky_api (repeat demo_post 250) 2 in
  let dir := Path (u "ghost_posts") in
  let run := fetch_and_save http_get demo_clock os_ok demo_repr stdout_ok
               demo_abspath demo_self 5 dir true true None in
  outcome_of run = Raises (RequestError Timeout) /\
  events_of run = Mkdir dir :: events_of (fetch_all_posts http_get 5 None) /\
  written (events_of run) = [].
Proof.
  intros http_get dir.
  apply (failed_fetch_writes_nothing http_get demo_clock os_ok demo_repr
           stdout_ok demo_abspath demo_self 5 dir true true None
           (RequestError Timeout)).
  - vm_compute. reflexivity.
  - vm_compute. reflexivity.
Defined.

Lemma index_failure_leaves_the_dump_witness :
  let posts := [demo_post; untagged_post] in
  let run := fetch_and_save (ghost_api posts) demo_clock os_ok demo_repr
               stdout_ok demo_abspath demo_self 1 (Path (u "ghost_posts"))
               true true None in
  outcome_of run = Raises (KeyError (u "name")) /\
  kinds (events_of run) = [JsonFile].
Proof.
  intros posts.
  apply (index_failure_leaves_the_dump (ghost_api posts) demo_clock os_ok
           demo_repr stdout_ok demo_abspath demo_self 1
           (Path (u "ghost_posts")) true None posts).
  - intros p. reflexivity.
  - vm_compute. reflexivity.
  - vm_compute. reflexivity.
  - vm_compute. reflexivity.
  - vm_compute. reflexivity.
  - vm_compute. reflexivity.
  - vm_compute. reflexivity.
Defined.

Lemma well_formed_posts_are_saved_witness :
  let posts := [demo_post; bare_post] in
  let run := fetch_and_save (ghost_api posts) demo_clock os_ok demo_repr
               stdout_ok demo_abspath demo_self 1 (Path (u "ghost_posts"))
               true true (Some 2) in
  outcome_of run = Returns tt /\
  kinds (events_of run)
  = [JsonFile; IndexFile] ++ repeat TxtFile (length posts).
Proof.
  intros posts.
  apply (well_formed_posts_are_saved (ghost_api posts) demo_clock os_ok
           demo_repr stdout_ok demo_abspath demo_self 1
           (Path (u "ghost_posts")) true true (Some 2) posts
           (u "/home/blog/ghost_posts")).
  - intros p. reflexivity.
  - intros v. reflexivity.
  - intros line. reflexivity.
  - vm_compute. reflexivity.
  - vm_compute. reflexivity.
  - vm_compute. reflexivity.
  - vm_compute. reflexivity.
  - discriminate.
  - vm_compute. reflexivity.
  - vm_compute. reflexivity.
  - vm_compute. reflexivity.
Defined.

(** The summary comes after the files: on a standard output that cannot
    show its second line, the run raises [UnicodeEncodeError] once
    everything is saved. *)
Remark summary_failure_follows_the_files :
  let run := fetch_and_save (ghost_api [demo_post]) demo_clock os_ok
               demo_repr ascii_stdout demo_abspath demo_self 1
               (Path (u "ghost_posts")) true true None in
  outcome_of run = Raises UnicodeEncodeError /\
  kinds (events_of run) = [JsonFile; IndexFile; TxtFile].
Proof. cbn zeta. split; vm_compute; reflexivity. Qed.

(** X20. [main] fetches the whole blog and saves all of it.  Against
    offset pagination over a collection of well-formed posts that is not
    empty and whose strings hold neither a null character nor a surrogate,
    when the file system does not fail, the standard output takes every
    line and the working directory is there, [main] returns normally and
    has written, in this order, the JSON dump, the index and one text file
    for each post of the collection. *)
Theorem main_saves_the_blog
    (db : list post) (clock : nat -> datetime) (os_fails : path -> bool)
    (repr : value -> str) (stdout : str -> option exn)
    (abspath : path -> result str) (fuel : nat) (a : str) :
  (forall p, os_fails p = false) ->
  (forall v, plain (repr v) = true) ->
  (forall line, stdout line = None) ->
  abspath (Path (u "ghost_posts")) = Ok a ->
  db <> [] ->
  forallb plain_post db = true ->
  forallb txt_ready db = true ->
  existsb txt_missing db = false ->
  (length db < fuel * 100)%nat ->
  let run := main (ghost_api db) clock os_fails repr stdout abspath fuel in
  outcome_of run = Returns tt /\
  kinds (events_of run)
  = [JsonFile; IndexFile] ++ repeat TxtFile (length db).
Proof.
  intros Hos Hrepr Hstdout Habs Hne Hplain Hready Hnamed Hfuel.
  unfold main. cbn zeta.
  apply (fetch_and_save_saves (ghost_api db) clock os_fails repr stdout
           abspath _ fuel _ true true None db a); try assumption.
  - reflexivity.
  - vm_compute. reflexivity.
  - now apply fetch_all_posts_unlimited.
Qed.

Lemma main_saves_the_blog_witness :
  let db := numbered_posts 120 in
  let run := main (ghost_api db) demo_clock os_ok demo_repr stdout_ok
               demo_abspath 2 in
  outcome_of run = Returns tt /\
  kinds (events_of run)
  = [JsonFile; IndexFile] ++ repeat TxtFile (length db).
Proof.
  intros db.
  apply (main_saves_the_blog db demo_clock os_ok demo_repr stdout_ok
           demo_abspath 2 (u "/home/blog/ghost_posts")).
  - intros p. reflexivity.
  - intros v. reflexivity.
  - intros line. reflexivity.
  - vm_compute. reflexivity.
  - discriminate.
  - vm_compute. reflexivity.
  - vm_compute. reflexivity.
  - vm_compute. reflexivity.
  - unfold db, numbered_posts. rewrite length_map, length_seq. lia.
Defined.

(** ** No tag is left by [strip_html_tags] *)

Lemma star_not_gt (g : option str) (s : str) :
  rmatch (Star not_gt) g s
    (fun g' s' => rmatch (Chars (u ">")) g' s' (fun _ rest => Some rest))
  = after_gt s.
Proof.
  set (k := fun (g' : option str) (s' : str) =>
              rmatch (Chars (u ">")) g' s' (fun _ rest => Some rest)).
  assert (Hk : forall g' s',
             k g' s' = match s' with
                       | c :: rest =>
                           if (c =? chr ">")%N then Some rest else None
                       | [] => None
                       end).
  { intros g' s'. unfold k. cbn [rmatch]. change (u ">") with [chr ">"].
    destruct s' as [|c rest]; [reflexivity|]. cbn [strip_prefix].
    rewrite (N.eqb_sym (chr ">") c). now destruct (c =? chr ">")%N. }
  clearbody k. cbn [rmatch].
  induction s as [|c s IH]; [now rewrite Hk|].
  rewrite IH, Hk. unfold not_gt. cbn [after_gt].
  destruct (c =? chr ">")%N; cbn [negb]; [reflexivity|].
  now destruct (after_gt s).
Qed.

(** A tag is [<], a character that is not [>], and what follows up to the
    next [>]. *)
Lemma match_at_any_tag (s : str) :
  match_at any_tag s
  = match s with
    | a :: c :: rest =>
        if (a =? chr "<")%N && negb (c =? chr ">")%N then after_gt rest
        else None
    | _ => None
    end.
Proof.
  unfold match_at, any_tag. cbn [rmatch].
  change (u "<") with [chr "<"]. cbn [strip_prefix].
  destruct s as [|a [|c rest]]; [reflexivity| |].
  - rewrite (N.eqb_sym (chr "<") a). now destruct (a =? chr "<")%N.
  - rewrite (N.eqb_sym (chr "<") a).
    destruct (a =? chr "<")%N; [|reflexivity]. cbn [andb].
    fold (not_gt c). destruct (not_gt c); [|reflexivity].
    exact (star_not_gt None rest).
Qed.

Lemma after_gt_spec (s rest : str) :
  after_gt s = Some rest ->
  (length rest < length s)%nat /\ (forall x, In x rest -> In x s).
Proof.
  revert rest.
  induction s as [|c s IH]; intros rest; cbn [after_gt length In];
    [discriminate|].
  destruct (c =? chr ">")%N.
  - intros H. injection H as <-. split; [lia|auto].
  - intros H. destruct (IH rest H) as [Hl Hin]. split; [lia|auto].
Qed.

Lemma after_gt_none (s : str) : after_gt s = None -> has_gt s = false.
Proof.
  induction s as [|c s IH]; [reflexivity|].
  cbn [after_gt has_gt existsb]. fold (has_gt s).
  rewrite (N.eqb_sym (chr ">") c).
  destruct (c =? chr ">")%N; [discriminate|exact IH].
Qed.

Lemma has_gt_false (s : str) : has_gt s = false <-> ~ In (chr ">") s.
Proof.
  unfold has_gt. split.
  - intros H Hin. assert (existsb (N.eqb (chr ">")) s = true).
    { apply existsb_exists. exists (chr ">"). split; [exact Hin|].
      apply N.eqb_refl. }
    congruence.
  - intros H. destruct (existsb _ s) eqn:E; [|reflexivity].
    apply existsb_exists in E as (x & Hx & Heq).
    apply N.eqb_eq in Heq. subst x. contradiction.
Qed.

Lemma no_tag_cons (c : N) (rest : str) :
  no_tag (c :: rest)
  = (if (c =? chr "<")%N then starts_gt rest || negb (has_gt rest) else true)
    && no_tag rest.
Proof. reflexivity. Qed.

(** What replacing the tags by line feeds gives: no tag, no [>] that was
    not there, and a [>] at the start where there was one. *)
Lemma sub_any_tag_no_tag (fuel : nat) :
  forall s,
    (length s < fuel)%nat ->
    let out := sub_loop fuel any_tag nl s in
    no_tag out = true /\
    (has_gt s = false -> has_gt out = false) /\
    (starts_gt s = true -> starts_gt out = true).
Proof.
  induction fuel as [|fuel IH]; intros s Hlen; [lia|].
  cbn zeta. cbn [sub_loop]. rewrite match_at_any_tag.
  destruct s as [|a s]; [repeat split; auto|].
  cbn [length] in Hlen.
  assert (Hcopy : no_tag (a :: sub_loop fuel any_tag nl s) = true ->
                  no_tag (a :: sub_loop fuel any_tag nl s) = true /\
                  (has_gt (a :: s) = false ->
                   has_gt (a :: sub_loop fuel any_tag nl s) = false) /\
                  (starts_gt (a :: s) = true ->
                   starts_gt (a :: sub_loop fuel any_tag nl s) = true)).
  { intros Hnt. split; [exact Hnt|]. split; [|auto].
    destruct (IH s ltac:(lia)) as (_ & Hgt & _).
    cbn [has_gt existsb]. fold (has_gt s).
    fold (has_gt (sub_loop fuel any_tag nl s)).
    intros H. apply orb_false_iff in H as [Ha Hs].
    now rewrite Ha, (Hgt Hs). }
  destruct (IH s ltac:(lia)) as (Hnt & Hgt & Hst).
  destruct s as [|c rest].
  { apply Hcopy. rewrite no_tag_cons, Hnt, andb_true_r.
    destruct (a =? chr "<")%N; [|reflexivity].
    now rewrite (Hgt eq_refl), orb_true_r. }
  destruct (N.eqb_spec a (chr "<")) as [->|Ha]; cbn [andb].
  - destruct (N.eqb_spec c (chr ">")) as [->|Hc]; cbn [negb].
    + apply Hcopy. rewrite no_tag_cons, Hnt, N.eqb_refl, andb_true_r.
      now rewrite (Hst eq_refl).
    + destruct (after_gt rest) as [rest'|] eqn:Hafter.
      * destruct (after_gt_spec rest rest' Hafter) as [Hl Hin].
        destruct (Nat.ltb_spec (length rest')
                    (length (chr "<" :: c :: rest))) as [_|H];
          [|cbn in H; lia].
        destruct (IH rest' ltac:(cbn [length] in Hlen; lia))
          as (Hnt' & Hgt' & _).
        unfold nl. cbn [app]. split; [|split].
        -- rewrite no_tag_cons. exact Hnt'.
        -- intros H. cbn [has_gt existsb].
           fold (has_gt (sub_loop fuel any_tag [10%N] rest')).
           unfold nl in Hgt'. rewrite Hgt'; [reflexivity|].
           apply has_gt_false. intros Hx.
           apply has_gt_false in H. apply H. right. right. now apply Hin.
        -- discriminate.
      * apply Hcopy. rewrite no_tag_cons, Hnt, N.eqb_refl, andb_true_r.
        apply after_gt_none in Hafter.
        assert (Hcr : has_gt (c :: rest) = false).
        { cbn [has_gt existsb]. fold (has_gt rest).
          rewrite Hafter, orb_false_r. apply N.eqb_neq. congruence. }
        now rewrite (Hgt Hcr), orb_true_r.
  - apply Hcopy. rewrite no_tag_cons, Hnt.
    destruct (N.eqb_spec a (chr "<")); [congruence|reflexivity].
Qed.

Lemma has_gt_app (a b : str) : has_gt (a ++ b) = has_gt a || has_gt b.
Proof. apply existsb_app. Qed.

Lemma no_tag_suffix (a b : str) : no_tag (a ++ b) = true -> no_tag b = true.
Proof.
  induction a as [|c a IH]; [auto|].
  cbn [app]. rewrite no_tag_cons. intros H.
  apply andb_true_iff in H as [_ H]. auto.
Qed.

Lemma no_tag_prefix (m b : str) : no_tag (m ++ b) = true -> no_tag m = true.
Proof.
  induction m as [|c m IH]; [reflexivity|].
  cbn [app]. rewrite !no_tag_cons. intros H.
  apply andb_true_iff in H as [Hc H]. rewrite (IH H), andb_true_r.
  destruct (c =? chr "<")%N; [|reflexivity].
  destruct m as [|x m]; [reflexivity|].
  rewrite has_gt_app in Hc. cbn [app starts_gt] in *.
  destruct (x =? chr ">")%N; [reflexivity|]. cbn [orb] in *.
  now destruct (has_gt (x :: m)).
Qed.

(** Taking runs of line feeds together brings no tag back. *)
Lemma sub_newlines_keeps_no_tag (fuel : nat) :
  forall s,
    (length s < fuel)%nat ->
    let out := sub_loop fuel newlines nl s in
    (has_gt s = false -> has_gt out = false) /\
    (starts_gt s = true -> starts_gt out = true) /\
    (no_tag s = true -> no_tag out = true).
Proof.
  induction fuel as [|fuel IH]; intros s Hlen; [lia|].
  cbn zeta. cbn [sub_loop]. rewrite match_at_newlines.
  destruct s as [|c s]; [repeat split; auto|].
  cbn [length] in Hlen.
  destruct (N.eqb_spec c 10) as [->|Hc].
  - pose proof (lstrip_char_length 10 s) as Hl.
    destruct (Nat.ltb_spec (length (lstrip_char 10 s)) (length (10%N :: s)))
      as [_|H]; [|cbn in H; lia].
    destruct (IH (lstrip_char 10 s) ltac:(lia)) as (Hgt & _ & Hnt).
    destruct (lstrip_char_spec 10 s) as [n Hn].
    unfold nl in *. cbn [app]. split; [|split].
    + intros H. cbn [has_gt existsb] in *.
      fold (has_gt s) in H.
      fold (has_gt (sub_loop fuel newlines [10%N] (lstrip_char 10 s))).
      cbn [orb] in *. apply Hgt. apply orb_false_iff in H as [_ H].
      rewrite Hn, has_gt_app in H. now apply orb_false_iff in H as [_ H].
    + discriminate.
    + rewrite !no_tag_cons. cbn [andb]. intros H. apply Hnt.
      rewrite Hn in H. now apply no_tag_suffix in H.
  - destruct (IH s ltac:(lia)) as (Hgt & Hst & Hnt).
    split; [|split].
    + cbn [has_gt existsb]. fold (has_gt s).
      fold (has_gt (sub_loop fuel newlines nl s)).
      intros H. apply orb_false_iff in H as [Ha Hs].
      now rewrite Ha, (Hgt Hs).
    + auto.
    + rewrite !no_tag_cons. intros H. apply andb_true_iff in H as [Hlt H].
      rewrite (Hnt H), andb_true_r.
      destruct (c =? chr "<")%N; [|reflexivity].
      apply orb_true_iff in Hlt as [Hlt|Hlt].
      * now rewrite (Hst Hlt).
      * apply negb_true_iff in Hlt. now rewrite (Hgt Hlt), orb_true_r.
Qed.

Lemma no_tag_sound (s : str) :
  no_tag s = true ->
  forall a w b,
    w <> [] -> ~ In (chr ">") w ->
    s <> a ++ [chr "<"] ++ w ++ [chr ">"] ++ b.
Proof.
  intros Hnt a w b Hw Hgt ->. apply no_tag_suffix in Hnt.
  cbn [app] in Hnt. rewrite no_tag_cons, N.eqb_refl in Hnt.
  apply andb_true_iff in Hnt as [Hnt _].
  destruct w as [|x w]; [congruence|]. cbn [app starts_gt] in Hnt.
  destruct (N.eqb_spec x (chr ">")) as [->|Hx];
    [apply Hgt; now left|].
  cbn [orb] in Hnt. apply negb_true_iff in Hnt.
  apply has_gt_false in Hnt. apply Hnt.
  change (x :: w ++ chr ">" :: b) with ((x :: w) ++ chr ">" :: b).
  apply in_or_app. right. now left.
Qed.

(** X21. No tag is left in what [strip_html_tags] returns: nowhere in it
    does a [<] come with one or more characters other than [>] and then a
    [>].  A [<] that is left is followed by [>] at once or by no [>] at
    all. *)
Theorem no_tag_is_left (html_content : value) (out : str) :
  strip_html_tags html_content = Ok out ->
  no_tag out = true /\
  forall a w b,
    w <> [] -> ~ In (chr ">") w ->
    out <> a ++ [chr "<"] ++ w ++ [chr ">"] ++ b.
Proof.
  intros H.
  assert (Hnt : no_tag out = true).
  { revert H. unfold strip_html_tags.
    destruct (truthy html_content); cbn [negb].
    - destruct html_content as [| | |s| |]; try discriminate.
      cbn [re_sub rbind]. intros H. injection H as <-.
      set (t := Re.sub script_style_block [] s).
      destruct (sub_any_tag_no_tag (S (length t)) t ltac:(lia))
        as (Htag & _ & _).
      fold (Re.sub any_tag nl t) in Htag.
      set (t' := Re.sub any_tag nl t) in *.
      destruct (sub_newlines_keeps_no_tag (S (length t')) t' ltac:(lia))
        as (_ & _ & Hkeep).
      fold (Re.sub newlines nl t') in Hkeep. specialize (Hkeep Htag).
      destruct (strip_infix (Re.sub newlines nl t')) as (a & b & Hab).
      rewrite Hab in Hkeep. apply no_tag_suffix in Hkeep.
      now apply no_tag_prefix in Hkeep.
    - intros H. now injection H as <-. }
  split; [exact Hnt|]. now apply no_tag_sound.
Qed.

Lemma no_tag_is_left_witness :
  let out := u "<>" ++ nl ++ u "a < b<hr" in
  no_tag out = true /\
  forall a w b,
    w <> [] -> ~ In (chr ">") w ->
    out <> a ++ [chr "<"] ++ w ++ [chr ">"] ++ b.
Proof.
  intros out.
  apply (no_tag_is_left (VStr (u "<><br/>a < b<hr"))).
  vm_compute. reflexivity.
Defined.

(** ** Script and style blocks *)

(** The fuel of [sub_loop] is enough once it exceeds the length of the
    text. *)
Lemma sub_loop_fuel (r : regex) (repl : str) :
  forall fuel1 fuel2 s,
    (length s < fuel1)%nat -> (length s < fuel2)%nat ->
    sub_loop fuel1 r repl s = sub_loop fuel2 r repl s.
Proof.
  induction fuel1 as [|fuel1 IH]; intros fuel2 s H1 H2; [lia|].
  destruct fuel2 as [|fuel2]; [lia|]. cbn [sub_loop].
  destruct (match_at r s) as [rest|] eqn:E.
  - unfold match_at in E. apply rmatch_suffix in E as (g' & s' & E & Hl).
    injection E as ->.
    destruct (Nat.ltb_spec (length rest) (length s)) as [Hlt|Hge].
    + f_equal. apply IH; lia.
    + destruct s as [|c s]; [reflexivity|]. cbn [length] in *.
      do 2 f_equal. apply IH; lia.
  - destruct s as [|c s]; [reflexivity|]. cbn [length] in *.
    f_equal. apply IH; lia.
Qed.

Lemma strip_prefix_app (lit s : str) : strip_prefix lit (lit ++ s) = Some s.
Proof. now apply strip_prefix_spec. Qed.

(** The body of a block, which holds no [<], is passed over up to the
    closing tag. *)
Lemma lazy_skips_body (g : option str)
    (k : option str -> str -> option str) (out : str) :
  forall body s,
    (forall c rest, k g (c :: rest) <> None -> c = chr "<") ->
    ~ In (chr "<") body ->
    k g s = Some out ->
    rmatch (LazyStar any_char) g (body ++ s) k = Some out.
Proof.
  intros body s Hk. cbn [rmatch].
  induction body as [|c body IH]; intros Hbody Hs.
  - cbn [app]. destruct s; now rewrite Hs.
  - cbn [app]. destruct (k g (c :: body ++ s)) as [o|] eqn:E.
    + exfalso. apply Hbody. left. apply (Hk c (body ++ s)).
      congruence.
    + cbn [any_char]. apply IH; [|exact Hs].
      intros H. apply Hbody. now right.
Qed.

Lemma block_tail (tag body post : str) :
  ~ In (chr "<") body ->
  rmatch
    (Cat (Star not_gt)
       (Cat (Chars (u ">"))
          (Cat (LazyStar any_char)
             (Cat (Chars (u "</")) (Cat Backref1 (Chars (u ">")))))))
    (Some tag) (u ">" ++ body ++ u "</" ++ tag ++ u ">" ++ post)
    (fun _ rest => Some rest)
  = Some post.
Proof.
  intros Hbody.
  set (close := Cat (Chars (u "</")) (Cat Backref1 (Chars (u ">")))).
  set (k := fun (g : option str) (s : str) =>
              rmatch close g s (fun _ rest => Some rest)).
  assert (Hclose : k (Some tag) (u "</" ++ tag ++ u ">" ++ post) = Some post).
  { unfold k, close. cbn [rmatch].
    now rewrite !strip_prefix_app. }
  assert (Hother : forall c rest,
             k (Some tag) (c :: rest) <> None -> c = chr "<").
  { intros c rest. unfold k, close. cbn [rmatch].
    change (u "</") with [chr "<"; chr "/"]. cbn [strip_prefix].
    destruct (N.eqb_spec (chr "<") c) as [<-|Hc]; [reflexivity|congruence]. }
  pose proof (lazy_skips_body (Some tag) k post body _ Hother Hbody Hclose)
    as Hlazy.
  change (rmatch (Cat (Star not_gt)
                    (Cat (Chars (u ">")) (Cat (LazyStar any_char) close)))
            (Some tag) (u ">" ++ body ++ u "</" ++ tag ++ u ">" ++ post)
            (fun _ rest => Some rest) = Some post).
  change (u ">" ++ body ++ u "</" ++ tag ++ u ">" ++ post)
    with (chr ">" :: body ++ u "</" ++ tag ++ u ">" ++ post).
  cbn [rmatch]. change (not_gt (chr ">")) with false. cbn iota.
  change (u ">") with [chr ">"]. cbn [strip_prefix].
  rewrite N.eqb_refl. exact Hlazy.
Qed.

Lemma firstn_consumed {A} (a b : list A) :
  firstn (length (a ++ b) - length b) (a ++ b) = a.
Proof.
  rewrite length_app, Nat.add_sub, firstn_app, Nat.sub_diag, firstn_all.
  cbn. apply app_nil_r.
Qed.

(** A script or style block whose body holds no [<] is matched as a
    whole. *)
Lemma match_at_block (tag body post : str) :
  tag = u "script" \/ tag = u "style" ->
  ~ In (chr "<") body ->
  match_at script_style_block
    (u "<" ++ tag ++ u ">" ++ body ++ u "</" ++ tag ++ u ">" ++ post)
  = Some post.
Proof.
  intros Htag Hbody. unfold match_at, script_style_block.
  pose proof (block_tail tag body post Hbody) as Htail.
  set (tail := Cat (Star not_gt) _) in *.
  set (rest := u ">" ++ body ++ u "</" ++ tag ++ u ">" ++ post) in *.
  cbn [rmatch]. rewrite strip_prefix_app.
  destruct Htag as [-> | ->].
  - rewrite strip_prefix_app, firstn_consumed.
    match goal with
    | |- match ?x with _ => _ end = _ =>
        replace x with (Some post) by (symmetry; exact Htail)
    end.
    reflexivity.
  - change (strip_prefix (u "script") (u "style" ++ rest)) with (@None str).
    rewrite strip_prefix_app, firstn_consumed. exact Htail.
Qed.

Lemma sub_script_copy (pre s : str) :
  ~ In (chr "<") pre ->
  Re.sub script_style_block [] (pre ++ s)
  = pre ++ Re.sub script_style_block [] s.
Proof.
  induction pre as [|c pre IH]; intros Hpre; [reflexivity|].
  unfold Re.sub in *. cbn [app length sub_loop].
  unfold script_style_block at 1. change (u "<") with [chr "<"].
  rewrite match_at_other_head
    by (intros ->; apply Hpre; now left).
  f_equal. apply IH. intros H. apply Hpre. now right.
Qed.

Lemma sub_script_block (tag body post : str) :
  tag = u "script" \/ tag = u "style" ->
  ~ In (chr "<") body ->
  Re.sub script_style_block []
    (u "<" ++ tag ++ u ">" ++ body ++ u "</" ++ tag ++ u ">" ++ post)
  = Re.sub script_style_block [] post.
Proof.
  intros Htag Hbody. unfold Re.sub.
  set (rhs := sub_loop (S (length post)) script_style_block [] post).
  cbn [sub_loop].
  rewrite (match_at_block tag body post Htag Hbody).
  set (whole := u "<" ++ tag ++ u ">" ++ body ++ u "</" ++ tag ++ u ">"
                ++ post).
  assert (Hlen : (length post < length whole)%nat).
  { unfold whole. rewrite !length_app.
    change (length (u "<")) with 1%nat. lia. }
  destruct (Nat.ltb_spec (length post) (length whole)) as [_|H]; [|lia].
  cbn [app]. subst rhs. apply sub_loop_fuel; lia.
Qed.

(** X22. A script block or a style block is dropped with all that is in
    it.  For a text that opens with characters other than [<], then has
    [<script>] (or [<style>]), a body without [<], and the closing tag of
    the same name, [strip_html_tags] returns what it returns for the text
    without the block: nothing of the body is left. *)
Theorem script_block_is_dropped (tag pre body post : str) :
  tag = u "script" \/ tag = u "style" ->
  ~ In (chr "<") pre ->
  ~ In (chr "<") body ->
  strip_html_tags
    (VStr (pre ++ u "<" ++ tag ++ u ">" ++ body ++ u "</" ++ tag ++ u ">"
           ++ post))
  = strip_html_tags (VStr (pre ++ post)).
Proof.
  intros Htag Hpre Hbody. unfold strip_html_tags.
  assert (Hsub : Re.sub script_style_block []
                   (pre ++ u "<" ++ tag ++ u ">" ++ body ++ u "</" ++ tag
                    ++ u ">" ++ post)
                 = Re.sub script_style_block [] (pre ++ post)).
  { rewrite (sub_script_copy pre post Hpre).
    rewrite (sub_script_copy pre _ Hpre).
    now rewrite sub_script_block. }
  assert (Htrue : truthy (VStr (pre ++ u "<" ++ tag ++ u ">" ++ body
                                ++ u "</" ++ tag ++ u ">" ++ post)) = true).
  { cbn [truthy]. rewrite length_app. change (u "<") with [chr "<"].
    cbn [app length]. now rewrite Nat.add_succ_r. }
  rewrite Htrue. cbn [negb re_sub rbind]. rewrite Hsub.
  destruct (pre ++ post) as [|c rest] eqn:E; [|reflexivity].
  reflexivity.
Qed.

Lemma script_block_is_dropped_witness :
  strip_html_tags
    (VStr (u "Hello " ++ u "<" ++ u "style" ++ u ">" ++ u "p { color: red }"
           ++ u "</" ++ u "style" ++ u ">" ++ u "<b>World</b>"))
  = strip_html_tags (VStr (u "Hello " ++ u "<b>World</b>")).
Proof.
  apply (script_block_is_dropped (u "style") (u "Hello ")
           (u "p { color: red }") (u "<b>World</b>")).
  - now right.
  - vm_compute. intros H. repeat (destruct H as [H|H]; [discriminate|]).
    exact H.
  - vm_compute. intros H. repeat (destruct H as [H|H]; [discriminate|]).
    exact H.
Defined.
